(** * Connection registry and fan-out engine of the collaborative editor

    A shallow embedding of the Go package [socket] (the WebSocket manager,
    its arbiter loop [Run], the dispatcher [BroadcastToAllClients], the
    presence handlers and the identity assignment of [utils.go]) and the
    properties of its specification.

    Goroutines are modelled by explicit state passing over one process
    state.  A handler is a computation in the monad [M]; it finishes, panics
    (a Go run-time panic) or blocks (it cannot go on without another
    goroutine).  What a handler sends on one of the manager's unbuffered
    channels is returned to the caller, who hands it to [Run].  The order
    in which [range] yields the keys of [manager.Clients] is an argument of
    every handler that ranges over the map.  The calls of [log.Printf]
    change no state: what is kept of them is the read of a field through a
    pointer that the handler has not read through before.  The transport
    [Conn] is represented by what it yields to the pumps. *)

From stdpp Require Import gmap strings list fin_maps.
From Stdlib Require Import Strings.Byte DecimalString.

#[local] Set Warnings "-clear-no-such-hyp".

Open Scope string_scope.
Open Scope list_scope.
Open Scope nat_scope.

(** ** Data model *)

(** [[]byte] *)
Definition bytes : Type := list byte.

(** [*Client]: the address of a client object. *)
Definition ptr : Type := nat.

(** [chan []byte] with a buffer: the queued items, oldest first, and whether
    [close] was called. *)
Record Chan : Type := mkChan {
  buf : list bytes;
  closed : bool
}.

(** [make(chan []byte, 256)] in [HandleWebSocketConnections]. *)
Definition SendCap : nat := 256.

Definition make_chan : Chan := {| buf := []; closed := false |}.

(** [type Client struct].  The transport [Conn] carries no state of the
    registry and is left out. *)
Record Client : Type := mkClient {
  Send : Chan;
  ID : string;
  Data : gmap string (gmap string string)
}.

(** [type Message struct]; [Type] is a reserved word here. *)
Record Message : Type := mkMessage {
  MsgType : string;
  MsgData : gmap string (gmap string string)
}.

(** [sync.RWMutex]: the number of read locks held and the write lock. *)
Record RWMutex : Type := mkRWMutex {
  readers : nat;
  writer : bool
}.

#[global] Instance RWMutex_eq_dec : EqDecision RWMutex.
Proof. solve_decision. Defined.

Definition unlocked : RWMutex := {| readers := 0; writer := false |}.

(** The global source of [math/rand]: an arbitrary sequence of raw draws
    and the number of draws consumed so far. *)
Record Rand : Type := mkRand {
  draws : nat → nat;
  consumed : nat
}.

(** The process state: the manager's [Clients] map and [Mutex], the client
    objects the pointers refer to, and the random source.  The manager's
    channels [Broadcast], [Register] and [Unregister] are unbuffered; a send
    on them is a rendezvous with [Run] and is represented by [received]. *)
Record State : Type := mkState {
  Clients : gmap ptr bool;
  Mutex : RWMutex;
  heap : gmap ptr Client;
  rand : Rand
}.

Definition set_Clients (f : gmap ptr bool → gmap ptr bool) (st : State) : State :=
  {| Clients := f (Clients st); Mutex := Mutex st; heap := heap st; rand := rand st |}.

Definition set_Mutex (mu : RWMutex) (st : State) : State :=
  {| Clients := Clients st; Mutex := mu; heap := heap st; rand := rand st |}.

Definition set_heap (f : gmap ptr Client → gmap ptr Client) (st : State) : State :=
  {| Clients := Clients st; Mutex := Mutex st; heap := f (heap st); rand := rand st |}.

Definition set_rand (r : Rand) (st : State) : State :=
  {| Clients := Clients st; Mutex := Mutex st; heap := heap st; rand := r |}.

Definition set_Send (ch : Chan) (c : Client) : Client :=
  {| Send := ch; ID := ID c; Data := Data c |}.

(** ** The monad of handlers *)

Inductive outcome (A : Type) : Type :=
| Ok (a : A)
| Panic (why : string)
| Blocked.

Arguments Ok {A} a.
Arguments Panic {A} why.
Arguments Blocked {A}.

Definition M (A : Type) : Type := State → outcome (A * State).

Definition ret {A : Type} (a : A) : M A := λ st, Ok (a, st).

Definition bind {A B : Type} (m : M A) (f : A → M B) : M B :=
  λ st, match m st with
        | Ok (a, st') => f a st'
        | Panic why => Panic why
        | Blocked => Blocked
        end.

Definition panic {A : Type} (why : string) : M A := λ _, Panic why.
Definition block {A : Type} : M A := λ _, Blocked.
Definition gets {A : Type} (f : State → A) : M A := λ st, Ok (f st, st).
Definition modify (f : State → State) : M unit := λ st, Ok (tt, f st).

Declare Scope go_scope.
Delimit Scope go_scope with go.
Notation "x <- c ; k" := (bind c (λ x, k))
  (at level 100, c at next level, right associativity) : go_scope.
Notation "c ;; k" := (bind c (λ _, k))
  (at level 100, right associativity) : go_scope.
Open Scope go_scope.

(** ** sync.RWMutex *)

Definition Lock : M unit :=
  mu <- gets Mutex;
  if writer mu || negb (Nat.eqb (readers mu) 0) then block
  else modify (set_Mutex {| readers := readers mu; writer := true |}).

Definition Unlock : M unit :=
  mu <- gets Mutex;
  if writer mu then modify (set_Mutex {| readers := readers mu; writer := false |})
  else panic "sync: Unlock of unlocked RWMutex".

Definition RLock : M unit :=
  mu <- gets Mutex;
  if writer mu then block
  else modify (set_Mutex {| readers := S (readers mu); writer := writer mu |}).

Definition RUnlock : M unit :=
  mu <- gets Mutex;
  match readers mu with
  | O => panic "sync: RUnlock of unlocked RWMutex"
  | S n => modify (set_Mutex {| readers := n; writer := writer mu |})
  end.

(** ** Channels of client objects *)

(** Reading a field through a [*Client]. *)
Definition deref (p : ptr) : M Client :=
  h <- gets heap;
  match h !! p with
  | Some c => ret c
  | None => panic "invalid memory address or nil pointer dereference"
  end.

Definition store_Send (p : ptr) (ch : Chan) : M unit :=
  modify (set_heap (λ h, alter (set_Send ch) p h)).

(** [select { case p.Send <- m: ...; default: ... }]: [true] when the send
    case ran, [false] when the default case ran. *)
Definition try_send (p : ptr) (m : bytes) : M bool :=
  c <- deref p;
  if closed (Send c) then panic "send on closed channel"
  else if Nat.ltb (length (buf (Send c))) SendCap
       then (store_Send p {| buf := buf (Send c) ++ [m]; closed := false |} ;; ret true)
       else ret false.

(** [p.Send <- m] outside a select: blocks while the buffer is full. *)
Definition send (p : ptr) (m : bytes) : M unit :=
  c <- deref p;
  if closed (Send c) then panic "send on closed channel"
  else if Nat.ltb (length (buf (Send c))) SendCap
       then store_Send p {| buf := buf (Send c) ++ [m]; closed := false |}
       else block.

(** [close(p.Send)] *)
Definition close (p : ptr) : M unit :=
  c <- deref p;
  if closed (Send c) then panic "close of closed channel"
  else store_Send p {| buf := buf (Send c); closed := true |}.

(** ** The manager *)

(** [NewWebSocketManager], in a process that holds the given objects. *)
Definition NewWebSocketManager (h : gmap ptr Client) (r : Rand) : State :=
  {| Clients := ∅; Mutex := unlocked; heap := h; rand := r |}.

(** A goroutine started by a [go] statement. *)
Inductive goroutine : Type :=
| GoHandleDeleteUser (client : ptr)
| GoHandleClientRead (client : ptr)
| GoHandleClientWrite (client : ptr)
| GoHandleUserData (client : ptr).

(** A send on one of the manager's channels. *)
Inductive request : Type :=
| SendRegister (client : ptr)
| SendUnregister (client : ptr)
| SendBroadcast (message : bytes).

(** What one turn of the [select] in [Run] receives.  For a broadcast the
    turn also fixes the order in which [range manager.Clients] yields the
    keys, which Go leaves unspecified. *)
Inductive received : Type :=
| RecvRegister (client : ptr)
| RecvUnregister (client : ptr)
| RecvBroadcast (message : bytes) (order : list ptr).

(** The body of [for client := range manager.Clients] in
    [BroadcastToAllClients].  A key deleted before it is reached is not
    produced by [range]. *)
Fixpoint BroadcastToAllClients_range (message : bytes) (order : list ptr) : M unit :=
  match order with
  | [] => ret tt
  | client :: rest =>
      cs <- gets Clients;
      match cs !! client with
      | None => BroadcastToAllClients_range message rest
      | Some _ =>
          sent <- try_send client message;
          (if sent : bool then ret tt
           else
             close client ;;
             RUnlock ;;
             Lock ;;
             modify (set_Clients (delete client)) ;;
             Unlock ;;
             RLock) ;;
          BroadcastToAllClients_range message rest
      end
  end.

Definition BroadcastToAllClients (message : bytes) (order : list ptr) : M unit :=
  RLock ;;
  BroadcastToAllClients_range message order ;;
  RUnlock.

(** One turn of the loop of [Run]; the result lists the goroutines it
    starts.  The [log.Printf] that ends the register and the unregister
    case reads [client.ID] through the pointer it received. *)
Definition Run_step (r : received) : M (list goroutine) :=
  match r with
  | RecvRegister client =>
      Lock ;;
      modify (set_Clients (<[client := true]>)) ;;
      Unlock ;;
      deref client ;;
      ret []
  | RecvUnregister client =>
      Lock ;;
      cs <- gets Clients;
      gs <- match cs !! client with
            | Some _ =>
                modify (set_Clients (delete client)) ;;
                close client ;;
                ret [GoHandleDeleteUser client]
            | None => ret []
            end;
      Unlock ;;
      deref client ;;
      ret gs
  | RecvBroadcast message order =>
      BroadcastToAllClients message order ;;
      ret []
  end.

(** [Run] on the sequence of values its [select] receives. *)
Fixpoint Run (rs : list received) : M (list goroutine) :=
  match rs with
  | [] => ret []
  | r :: rest =>
      gs <- Run_step r;
      gs' <- Run rest;
      ret (gs ++ gs')
  end.

(** [Run] receives what a goroutine sends; [order] is used when it is a
    broadcast. *)
Definition receive (order : list ptr) (q : request) : received :=
  match q with
  | SendRegister client => RecvRegister client
  | SendUnregister client => RecvUnregister client
  | SendBroadcast message => RecvBroadcast message order
  end.

(** ** Identity assignment ([utils.go]) *)

(** [rand.Intn(n)]: the next raw draw, reduced to the range [0, n). *)
Definition Intn (n : nat) : M nat :=
  match n with
  | O => panic "invalid argument to Intn"
  | S _ =>
      r <- gets rand;
      modify (set_rand {| draws := draws r; consumed := S (consumed r) |}) ;;
      ret (draws r (consumed r) mod n)
  end.

Definition randomNames : list string :=
  ["🦊 Fox"; "🐼 Panda"; "🐧 Penguin"; "🦁 Lion"; "🐸 Frog"].

Definition GetRandomName : M string :=
  i <- Intn (length randomNames);
  match randomNames !! i with
  | Some name => ret name
  | None => panic "index out of range"
  end.

(** [fmt.Sprintf("hsl(%d, 70%%, 60%%)", hue)] *)
Definition Sprintf_hsl (hue : nat) : string :=
  ("hsl(" ++ NilEmpty.string_of_uint (Nat.to_uint hue) ++ ", 70%, 60%)")%string.

Definition GetRandomColor : M string :=
  hue <- Intn 360;
  ret (Sprintf_hsl hue).

(** ** Session pumps *)

(** [HandleClientRead] on a transport that yields [frames] and then a read
    error or a close: the sends it performs on the manager's channels, in
    order.  The deferred function sends the client on [Unregister]. *)
Definition HandleClientRead (client : ptr) (frames : list bytes) : list request :=
  map SendBroadcast frames ++ [SendUnregister client].

(** What one turn of the loop of [HandleClientWrite] writes to the
    transport. *)
Inductive written : Type :=
| WroteText (message : bytes)
| WroteClose
| WriteFailed.

(** One turn of the loop of [HandleClientWrite]: a receive on [client.Send]
    and the write that follows; [write_ok] tells whether [WriteMessage]
    succeeds. *)
Definition HandleClientWrite_turn (client : ptr) (write_ok : bool) : M written :=
  c <- deref client;
  match buf (Send c) with
  | message :: rest =>
      store_Send client {| buf := rest; closed := closed (Send c) |} ;;
      ret (if write_ok then WroteText message else WriteFailed)
  | [] => if closed (Send c) then ret WroteClose else block
  end.

(** Allocation of a client object, [&Client{...}]. *)
Definition new (c : Client) : M ptr :=
  h <- gets heap;
  let p := fresh (dom h) in
  modify (set_heap (<[p := c]>)) ;;
  ret p.

(** [HandleWebSocketConnections] for a request from [RemoteAddr];
    [upgraded] tells whether [upgrader.Upgrade] succeeds.  The result is the
    new client, what is sent on [manager.Register] and the goroutines
    started. *)
Definition HandleWebSocketConnections (RemoteAddr : string) (upgraded : bool)
  : M (option ptr * list request * list goroutine) :=
  if upgraded then
    userName <- GetRandomName;
    userColor <- GetRandomColor;
    let data : gmap string (gmap string string) :=
      {[ "userData" :=
           <["userId" := RemoteAddr]>
             (<["userName" := userName]>
                (<["userColor" := userColor]> ∅)) ]} in
    client <- new {| Send := make_chan; ID := RemoteAddr; Data := data |};
    ret (Some client,
         [SendRegister client],
         [GoHandleClientRead client; GoHandleClientWrite client;
          GoHandleUserData client])
  else ret (None, [], []).

(** ** Presence handlers *)

Section Presence.

(** [json.Marshal] of the standard library, [None] when it returns an
    error. *)
Variable marshal : Message → option bytes.

(** The result lists what the handler sends on [manager.Broadcast]. *)
Definition HandleDeleteUser (client : ptr) : M (list request) :=
  c <- deref client;
  match marshal {| MsgType := "user-removed"; MsgData := Data c |} with
  | None => ret []
  | Some jsonData => ret [SendBroadcast jsonData]
  end.

(** The body of [for existingClient := range manager.Clients] in
    [HandleUserData]. *)
Fixpoint HandleUserData_range (client : ptr) (order : list ptr) : M unit :=
  match order with
  | [] => ret tt
  | existingClient :: rest =>
      cs <- gets Clients;
      match cs !! existingClient with
      | None => HandleUserData_range client rest
      | Some _ =>
          e <- deref existingClient;
          c <- deref client;
          if String.eqb (ID e) (ID c) then HandleUserData_range client rest
          else
            match marshal {| MsgType := "user-added"; MsgData := Data e |} with
            | None => HandleUserData_range client rest
            | Some existingUserData =>
                send client existingUserData ;;
                HandleUserData_range client rest
            end
      end
  end.

(** [order] is the order in which [range manager.Clients] yields the keys;
    the result lists what the handler sends on [manager.Broadcast]. *)
Definition HandleUserData (client : ptr) (order : list ptr) : M (list request) :=
  c <- deref client;
  match marshal {| MsgType := "user-data"; MsgData := Data c |} with
  | None => ret []
  | Some jsonData =>
      send client jsonData ;;
      RLock ;;
      HandleUserData_range client order ;;
      RUnlock ;;
      c <- deref client;
      match marshal {| MsgType := "user-added"; MsgData := Data c |} with
      | None => ret []
      | Some newUserData => ret [SendBroadcast newUserData]
      end
  end.

(** What the range loop of [HandleUserData] sends to a new session whose
    identifier is [self], over the objects [h] and the keys [order]. *)
Fixpoint existing_users (self : string) (h : gmap ptr Client)
    (order : list ptr) : list bytes :=
  match order with
  | [] => []
  | p :: rest =>
      match h !! p with
      | Some e =>
          if String.eqb (ID e) self then existing_users self h rest
          else
            match marshal {| MsgType := "user-added"; MsgData := Data e |} with
            | Some m => m :: existing_users self h rest
            | None => existing_users self h rest
            end
      | None => existing_users self h rest
      end
  end.

(** [m] is the user-added envelope about the session at [p]. *)
Definition announces (h : gmap ptr Client) (p : ptr) (m : bytes) : Prop :=
  ∃ e, h !! p = Some e ∧
       marshal {| MsgType := "user-added"; MsgData := Data e |} = Some m.

(** The session at [p] has another identifier than [self] and its
    user-added envelope serializes. *)
Definition listed (self : string) (h : gmap ptr Client) (p : ptr) : Prop :=
  match h !! p with
  | Some e =>
      ID e ≠ self ∧
      is_Some (marshal {| MsgType := "user-added"; MsgData := Data e |})
  | None => False
  end.

#[global] Instance listed_dec self h p : Decision (listed self h p).
Proof. unfold listed. destruct (h !! p); apply _. Defined.

End Presence.

(** ** Observations on a state *)

Definition registered (st : State) (p : ptr) : Prop := is_Some (Clients st !! p).

(** The outbound queue of a client, oldest item first. *)
Definition queue (st : State) (p : ptr) : list bytes :=
  match heap st !! p with
  | Some c => buf (Send c)
  | None => []
  end.

Definition queue_closed (st : State) (p : ptr) : bool :=
  match heap st !! p with
  | Some c => closed (Send c)
  | None => false
  end.

Definition full (st : State) (p : ptr) : Prop := SendCap ≤ length (queue st p).

(** [order] is an enumeration of the keys of [manager.Clients]. *)
Definition ranges_over (order : list ptr) (st : State) : Prop :=
  NoDup order ∧ ∀ p, p ∈ order ↔ registered st p.

(** What holds between two handlers in every state the program reaches: no
    lock is held, and a registered client is an allocated object whose
    queue has not been closed. *)
Definition well_formed (st : State) : Prop :=
  Mutex st = unlocked ∧
  ∀ p, registered st p → ∃ c, heap st !! p = Some c ∧ closed (Send c) = false.

Definition reading : RWMutex := {| readers := 1; writer := false |}.

(** A client object after a send on its queue, and after [close]. *)
Definition enqueue (m : bytes) (c : Client) : Client :=
  set_Send {| buf := buf (Send c) ++ [m]; closed := false |} c.

Definition shut (c : Client) : Client :=
  set_Send {| buf := buf (Send c); closed := true |} c.

(** The effect of one broadcast of [message] over the keys [order], from
    [st] to [st']: a client reached with room gets the message at the back
    of its queue and stays registered; a client reached with a full queue
    has its queue closed, unchanged, and leaves the registry; nothing else
    changes. *)
Definition fanned (message : bytes) (order : list ptr) (st st' : State) : Prop :=
  Mutex st' = Mutex st ∧ rand st' = rand st ∧
  (∀ p, p ∉ order →
     Clients st' !! p = Clients st !! p ∧ heap st' !! p = heap st !! p) ∧
  (∀ p c, p ∈ order → heap st !! p = Some c →
     length (buf (Send c)) < SendCap →
     Clients st' !! p = Clients st !! p ∧
     heap st' !! p = Some (enqueue message c)) ∧
  (∀ p c, p ∈ order → heap st !! p = Some c →
     SendCap ≤ length (buf (Send c)) →
     Clients st' !! p = None ∧ heap st' !! p = Some (shut c)).

(** Decidable forms, for concrete states. *)
Definition all_registered (f : ptr → bool) (st : State) : bool :=
  forallb f (map fst (map_to_list (Clients st))).

Definition openb (st : State) (p : ptr) : bool :=
  match heap st !! p with
  | Some c => negb (closed (Send c))
  | None => false
  end.

Definition roomb (st : State) (p : ptr) : bool :=
  Nat.ltb (length (queue st p)) SendCap.

Definition well_formedb (st : State) : bool :=
  bool_decide (Mutex st = unlocked) && all_registered (openb st) st.

Definition ranges_overb (order : list ptr) (st : State) : bool :=
  bool_decide (NoDup order) &&
  bool_decide (list_to_set order = dom (Clients st)).

(** ** Sample processes *)

Definition text (s : string) : bytes := String.list_byte_of_string s.

(** The identity map built at admission from a remote address, a name and
    a color. *)
Definition identity (userId userName userColor : string)
  : gmap string (gmap string string) :=
  {[ "userData" :=
       <["userId" := userId]>
         (<["userName" := userName]> (<["userColor" := userColor]> ∅)) ]}.

Definition session (userId userName userColor : string) (q : list bytes) : Client :=
  {| Send := {| buf := q; closed := false |};
     ID := userId;
     Data := identity userId userName userColor |}.

Definition sessionA : Client := session "10.0.0.1:5001" "🦊 Fox" "hsl(10, 70%, 60%)" [].
Definition sessionB : Client := session "10.0.0.2:5002" "🐼 Panda" "hsl(20, 70%, 60%)" [].
Definition sessionC : Client := session "10.0.0.3:5003" "🐸 Frog" "hsl(30, 70%, 60%)" [].

Definition no_draws : Rand := {| draws := λ n, n; consumed := 0 |}.

(** Three sessions A, B, C at the addresses 1, 2, 3, all registered, with
    empty queues. *)
Definition three_sessions : State :=
  {| Clients := <[1 := true]> (<[2 := true]> (<[3 := true]> ∅));
     Mutex := unlocked;
     heap := <[1 := sessionA]> (<[2 := sessionB]> (<[3 := sessionC]> ∅));
     rand := no_draws |}.

(** The same, with the queue of B at capacity. *)
Definition B_is_full : State :=
  set_heap (<[2 := set_Send {| buf := replicate SendCap (text "x");
                               closed := false |} sessionB]>)
           three_sessions.

(** [three_sessions] after B has been unregistered: its object is still
    there, with its queue closed. *)
Definition B_has_left : State :=
  set_heap (<[2 := shut sessionB]>) (set_Clients (delete 2) three_sessions).

(** A serializer for the examples: the text [json.Marshal] produces for a
    message whose data is an identity map with strings that need no
    escaping. *)
Definition sample_marshal (m : Message) : option bytes :=
  let dq := String (Ascii.ascii_of_nat 34) EmptyString in
  let u := default ∅ (MsgData m !! "userData") in
  let field k := (dq ++ k ++ dq ++ ":" ++ dq ++ default "" (u !! k) ++ dq)%string in
  Some (text ("{" ++ dq ++ "type" ++ dq ++ ":" ++ dq ++ MsgType m ++ dq ++ ","
              ++ dq ++ "data" ++ dq ++ ":{" ++ dq ++ "userData" ++ dq ++ ":{"
              ++ field "userColor" ++ "," ++ field "userId" ++ ","
              ++ field "userName" ++ "}}}")%string).

(** A [content] frame as the editor page sends it. *)
Definition content_frame : bytes :=
  let dq := String (Ascii.ascii_of_nat 34) EmptyString in
  text ("{" ++ dq ++ "type" ++ dq ++ ":" ++ dq ++ "content" ++ dq ++ ","
        ++ dq ++ "data" ++ dq ++ ":{"
        ++ dq ++ "content" ++ dq ++ ":" ++ dq ++ "<p>hi</p>" ++ dq ++ ","
        ++ dq ++ "position" ++ dq ++ ":{" ++ dq ++ "x" ++ dq ++ ":10,"
        ++ dq ++ "y" ++ dq ++ ":20},"
        ++ dq ++ "userData" ++ dq ++ ":{" ++ dq ++ "userId" ++ dq ++ ":"
        ++ dq ++ "10.0.0.2:5002" ++ dq ++ "}}}")%string.

(** The sentence of the specification on the sender of a content envelope:
    when the inbound pump of [B] forwards [frame] and [Run] has delivered
    it, the queue of [B] holds nothing new. *)
Definition sender_receives_nothing (B : ptr) (frame : bytes) (order : list ptr)
    (st : State) : Prop :=
  ∀ q st',
    head (HandleClientRead B [frame]) = Some q →
    Run_step (receive order q) st = Ok ([], st') →
    queue st' B = queue st B.

(** ** Sequences of register and unregister calls *)

Definition registrations (rs : list received) : list ptr :=
  omap (λ r, match r with RecvRegister c => Some c | _ => None end) rs.

(** The sessions whose unregistration took effect: [Run] starts one
    [HandleDeleteUser] for each. *)
Definition successes (gs : list goroutine) : list ptr :=
  omap (λ g, match g with GoHandleDeleteUser c => Some c | _ => None end) gs.

Definition membership_only (rs : list received) : bool :=
  forallb (λ r, match r with RecvBroadcast _ _ => false | _ => true end) rs.

(** Each unregistered session was registered before; [seen] holds the
    sessions registered so far. *)
Fixpoint in_temporal_order (seen : gset ptr) (rs : list received) : bool :=
  match rs with
  | [] => true
  | RecvRegister c :: rest => in_temporal_order ({[c]} ∪ seen) rest
  | RecvUnregister c :: rest =>
      bool_decide (c ∈ seen) && in_temporal_order seen rest
  | RecvBroadcast _ _ :: rest => in_temporal_order seen rest
  end.

(** No session is registered after an unregister call for it, as in the
    program, where a client object is sent on [Register] once, when it is
    made; [left] holds the sessions unregistered so far. *)
Fixpoint not_registered_again (left : gset ptr) (rs : list received) : bool :=
  match rs with
  | [] => true
  | RecvRegister c :: rest =>
      negb (bool_decide (c ∈ left)) && not_registered_again left rest
  | RecvUnregister c :: rest => not_registered_again ({[c]} ∪ left) rest
  | RecvBroadcast _ _ :: rest => not_registered_again left rest
  end.

(** Every session that is registered is an allocated object with an open
    queue, as [HandleWebSocketConnections] makes it. *)
Definition fresh_sessions (rs : list received) (st : State) : Prop :=
  ∀ p, p ∈ registrations rs →
       ∃ c, heap st !! p = Some c ∧ closed (Send c) = false.

(** The objects of [three_sessions] before any of them is registered. *)
Definition three_connected : State :=
  NewWebSocketManager (heap three_sessions) no_draws.

(** Two sessions behind one remote address, both registered. *)
Definition same_address : State :=
  {| Clients := <[1 := true]> (<[2 := true]> ∅);
     Mutex := unlocked;
     heap := <[1 := session "10.0.0.9:4000" "🦊 Fox" "hsl(10, 70%, 60%)" []]>
               (<[2 := session "10.0.0.9:4000" "🐧 Penguin" "hsl(50, 70%, 60%)" []]> ∅);
     rand := no_draws |}.

(** The sentence of the specification on the admission sequence: the new
    session [S] gets one user-data envelope and one user-added envelope for
    each of the other registered sessions. *)
Definition every_peer_is_listed (marshal : Message → option bytes)
    (S : ptr) (order : list ptr) (st : State) : Prop :=
  ∀ rq st1,
    HandleUserData marshal S order st = Ok (rq, st1) →
    length (queue st1 S) = length (queue st S) + 1 + (size (Clients st) - 1).


(** ** Operations of the program *)

(** Every handler of the package that acts on the process state, with the
    choices its environment makes; [HandleClientRead] only sends on the
    manager's channels, which [OpRun] receives. *)
Inductive op : Type :=
| OpConnect (RemoteAddr : string) (upgraded : bool)
| OpRun (r : received)
| OpHandleUserData (client : ptr) (order : list ptr)
| OpHandleDeleteUser (client : ptr)
| OpHandleClientWrite (client : ptr) (write_ok : bool).

Definition exec (marshal : Message → option bytes) (o : op) : M unit :=
  match o with
  | OpConnect RemoteAddr upgraded =>
      HandleWebSocketConnections RemoteAddr upgraded ;; ret tt
  | OpRun r => Run_step r ;; ret tt
  | OpHandleUserData client order => HandleUserData marshal client order ;; ret tt
  | OpHandleDeleteUser client => HandleDeleteUser marshal client ;; ret tt
  | OpHandleClientWrite client write_ok =>
      HandleClientWrite_turn client write_ok ;; ret tt
  end.

Fixpoint exec_all (marshal : Message → option bytes) (os : list op) : M unit :=
  match os with
  | [] => ret tt
  | o :: rest => exec marshal o ;; exec_all marshal rest
  end.

(** Every object of [st] is still there in [st'], with the same identifier
    and the same identity map. *)
Definition same_identities (st st' : State) : Prop :=
  ∀ p c, heap st !! p = Some c →
         ∃ c', heap st' !! p = Some c' ∧ ID c' = ID c ∧ Data c' = Data c.

(** A computation that, when it finishes, has kept every identity. *)
Definition preserves {A : Type} (m : M A) : Prop :=
  ∀ st a st', m st = Ok (a, st') → same_identities st st'.

(** The sentence of the specification on identity assignment: a second
    assignment yields the same name and the same color as the first. *)
Definition assignment_is_pure (st : State) : Prop :=
  ∀ name1 color1 name2 color2 st1 st2 st3 st4,
    GetRandomName st = Ok (name1, st1) → GetRandomColor st1 = Ok (color1, st2) →
    GetRandomName st2 = Ok (name2, st3) → GetRandomColor st3 = Ok (color2, st4) →
    name1 = name2 ∧ color1 = color2.

(** The random source after one more draw. *)
Definition drawn (r : Rand) : Rand :=
  {| draws := draws r; consumed := S (consumed r) |}.

(** A fourth session connects to [three_sessions] (its object is allocated
    at the address 4), is registered and announced, one item of its queue is
    written out, and it is unregistered. *)
Definition scenario : list op :=
  [OpRun (RecvRegister 4); OpHandleUserData 4 [2; 4; 3; 1];
   OpRun (RecvBroadcast (text "announce") [4; 1; 2; 3]);
   OpHandleClientWrite 4 true; OpRun (RecvUnregister 4)].

(** ** Reachable states *)

(** What the program guarantees when an operation starts: [Run] receives on
    [Register] a client object that [HandleWebSocketConnections] has just
    made, on [Unregister] a client object, from its inbound pump, and
    [range] yields the keys of the map. *)
Definition admissible (o : op) (st : State) : Prop :=
  match o with
  | OpRun (RecvRegister client) =>
      ∃ c, heap st !! client = Some c ∧ closed (Send c) = false
  | OpRun (RecvUnregister client) => is_Some (heap st !! client)
  | OpRun (RecvBroadcast _ order) => ranges_over order st
  | _ => True
  end.


(** A computation that, when it finishes, has changed nothing but the
    contents of the queues. *)
Definition frames {A : Type} (m : M A) : Prop :=
  ∀ st a st', m st = Ok (a, st') →
    Clients st' = Clients st ∧ Mutex st' = Mutex st ∧
    ∀ p c, heap st !! p = Some c →
           ∃ c', heap st' !! p = Some c' ∧ closed (Send c') = closed (Send c).

(** ** The outbound pump as a loop *)

(** The loop of [HandleClientWrite]: at most [fuel] turns, one after the
    other, on a transport whose write number [k] succeeds when
    [write_ok k]; [k] counts the writes made so far.  The result lists what
    the turns wrote and tells whether the function has returned. *)
Fixpoint HandleClientWrite_turns (fuel : nat) (client : ptr)
    (write_ok : nat → bool) (k : nat) : M (list written * bool) :=
  match fuel with
  | O => ret ([], false)
  | S fuel' =>
      w <- HandleClientWrite_turn client (write_ok k);
      match w with
      | WroteText _ =>
          r <- HandleClientWrite_turns fuel' client write_ok (S k);
          ret (w :: fst r, snd r)
      | WroteClose | WriteFailed => ret ([w], true)
      end
  end.

(** [HandleClientWrite]: what it has written when it returns, [None] when
    [fuel] turns were not enough to reach a return. *)
Definition HandleClientWrite (fuel : nat) (client : ptr) (write_ok : nat → bool)
    (k : nat) : M (option (list written)) :=
  r <- HandleClientWrite_turns fuel client write_ok k;
  ret (if snd r then Some (fst r) else None).

(** The identity map of a client object is the one built at admission from
    its own identifier, a name of the pool and an hsl color. *)
Definition well_identified (c : Client) : Prop :=
  ∃ name hue,
    name ∈ randomNames ∧ hue < 360 ∧
    Data c = identity (ID c) name (Sprintf_hsl hue).

(** A computation that, when it finishes, has kept [P] on every object. *)
Definition keeps (P : Client → Prop) {A : Type} (m : M A) : Prop :=
  ∀ st a st', m st = Ok (a, st') →
    (∀ p c, heap st !! p = Some c → P c) →
    ∀ p c, heap st' !! p = Some c → P c.

(** A client connects from 10.0.0.4:5004 to [three_sessions], is
    registered, and its read pump ends before [HandleUserData] has run. *)
Definition early_disconnect : list op :=
  [OpConnect "10.0.0.4:5004" true; OpRun (RecvRegister 4);
   OpRun (RecvUnregister 4)].

(** * The editor page

    The TypeScript of the page: the wrappers [throttle] and [debounce] of
    [utils.ts] and the handlers of [DocPage].  The timers of the browser are
    part of the state: [setTimeout] registers a callback with the time it
    is due, and the browser runs a registered callback at some time not
    before that.  Time is counted in milliseconds.  A call of a function
    returns or throws; an exception leaves the functions on the stack, none
    of which catches it. *)

Section Timers.

(** The arguments a wrapped function is called with. *)
Variable Args : Type.

(** The two arrow functions handed to [setTimeout]: the one of [throttle],
    which sets [timerFlag] to null, and the one of [debounce], which calls
    [mainFunction] with the arguments of the call that made it. *)
Inductive callback : Type :=
| throttle_expired
| debounce_expired (args : Args).

(** How a call ends. *)
Inductive completion : Type := Returns | Throws.

(** Who called [mainFunction]: the function [throttle] returns, and then
    how the call ended, or the timer callback of [debounce]; an exception
    from that one goes to the browser, which reports it, and the state is
    the same as when the call returns. *)
Inductive wrapper : Type := Throttle (c : completion) | Debounce.

(** The timers of the browser, the variable [timerFlag] of the closure of
    one throttled and of one debounced function, and the calls of
    [mainFunction] made so far, each with its time. *)
Record Timers : Type := mkTimers {
  clock : nat;
  next_timer : nat;
  pending : gmap nat (nat * callback);
  throttle_timerFlag : option nat;
  debounce_timerFlag : option nat;
  invoked : list (nat * wrapper * Args)
}.

(** A fresh page at time [t0]; the browser numbers its timers from 1. *)
Definition start (t0 : nat) : Timers :=
  {| clock := t0; next_timer := 1; pending := ∅;
     throttle_timerFlag := None; debounce_timerFlag := None; invoked := [] |}.

Definition mainFunction (w : wrapper) (args : Args) (s : Timers) : Timers :=
  {| clock := clock s; next_timer := next_timer s; pending := pending s;
     throttle_timerFlag := throttle_timerFlag s;
     debounce_timerFlag := debounce_timerFlag s;
     invoked := invoked s ++ [(clock s, w, args)] |}.

Definition setTimeout (cb : callback) (delay : nat) (s : Timers) : nat * Timers :=
  (next_timer s,
   {| clock := clock s; next_timer := S (next_timer s);
      pending := <[next_timer s := (clock s + delay, cb)]> (pending s);
      throttle_timerFlag := throttle_timerFlag s;
      debounce_timerFlag := debounce_timerFlag s;
      invoked := invoked s |}).

Definition clearTimeout (id : nat) (s : Timers) : Timers :=
  {| clock := clock s; next_timer := next_timer s;
     pending := delete id (pending s);
     throttle_timerFlag := throttle_timerFlag s;
     debounce_timerFlag := debounce_timerFlag s;
     invoked := invoked s |}.

Definition set_throttle_timerFlag (flag : option nat) (s : Timers) : Timers :=
  {| clock := clock s; next_timer := next_timer s; pending := pending s;
     throttle_timerFlag := flag;
     debounce_timerFlag := debounce_timerFlag s;
     invoked := invoked s |}.

Definition set_debounce_timerFlag (flag : option nat) (s : Timers) : Timers :=
  {| clock := clock s; next_timer := next_timer s; pending := pending s;
     throttle_timerFlag := throttle_timerFlag s;
     debounce_timerFlag := flag;
     invoked := invoked s |}.

(** A call of the function [throttle(mainFunction, delay)] returns; [c]
    is how the call of [mainFunction] ends, when there is one.  When it
    throws, the exception leaves the function before [timerFlag] is set. *)
Definition throttle (delay : nat) (args : Args) (c : completion) (s : Timers)
    : completion * Timers :=
  match throttle_timerFlag s with
  | None =>
      let s1 := mainFunction (Throttle c) args s in
      match c with
      | Throws => (Throws, s1)
      | Returns =>
          let '(id, s2) := setTimeout throttle_expired delay s1 in
          (Returns, set_throttle_timerFlag (Some id) s2)
      end
  | Some _ => (Returns, s)
  end.

(** A call of the function [debounce(mainFunction, delay)] returns;
    [if (timerFlag)] takes null and 0 for false. *)
Definition debounce (delay : nat) (args : Args) (s : Timers) : Timers :=
  let s1 := match debounce_timerFlag s with
            | Some (S id) => clearTimeout (S id) s
            | Some O | None => s
            end in
  let '(id, s2) := setTimeout (debounce_expired args) delay s1 in
  set_debounce_timerFlag (Some id) s2.

(** The browser runs the callback of timer [id]: possible when the timer
    is registered and due. *)
Definition timeout (id : nat) (s : Timers) : option Timers :=
  match pending s !! id with
  | Some (due, cb) =>
      if Nat.leb due (clock s) then
        let s1 := clearTimeout id s in
        Some match cb with
             | throttle_expired => set_throttle_timerFlag None s1
             | debounce_expired args => mainFunction Debounce args s1
             end
      else None
  | None => None
  end.

Definition elapse (dt : nat) (s : Timers) : Timers :=
  {| clock := clock s + dt; next_timer := next_timer s; pending := pending s;
     throttle_timerFlag := throttle_timerFlag s;
     debounce_timerFlag := debounce_timerFlag s;
     invoked := invoked s |}.

(** What happens to a page that uses one throttled function, with delay
    [dt], and one debounced function, with delay [dd]. *)
Inductive event : Type :=
| Elapse (dt : nat)
| Timeout (id : nat)
| CallThrottled (args : Args) (c : completion)
| CallDebounced (args : Args).

Definition step (dt dd : nat) (e : event) (s : Timers) : option Timers :=
  match e with
  | Elapse d => Some (elapse d s)
  | Timeout id => timeout id s
  | CallThrottled args c => Some (snd (throttle dt args c s))
  | CallDebounced args => Some (debounce dd args s)
  end.

Fixpoint run (dt dd : nat) (es : list event) (s : Timers) : option Timers :=
  match es with
  | [] => Some s
  | e :: rest =>
      match step dt dd e s with
      | Some s' => run dt dd rest s'
      | None => None
      end
  end.

(** The calls of the debounced function in a sequence of events that
    starts at time [t]: the time and the arguments of each. *)
Fixpoint debounced_calls (t : nat) (es : list event) : list (nat * Args) :=
  match es with
  | [] => []
  | Elapse d :: rest => debounced_calls (t + d) rest
  | CallDebounced args :: rest => (t, args) :: debounced_calls t rest
  | _ :: rest => debounced_calls t rest
  end.

(** In the calls [l] of [mainFunction], a call by the throttled function
    that returned is followed by a call by the throttled function [d]
    later at the earliest. *)
Definition held_off (d : nat) (l : list (nat * wrapper * Args)) : Prop :=
  ∀ i j ti tj ai aj cj,
    i < j → l !! i = Some (ti, Throttle Returns, ai) →
    l !! j = Some (tj, Throttle cj, aj) → ti + d ≤ tj.

End Timers.

Arguments throttle_expired {Args}.
Arguments debounce_expired {Args} args.
Arguments clock {Args} _.
Arguments next_timer {Args} _.
Arguments pending {Args} _.
Arguments throttle_timerFlag {Args} _.
Arguments debounce_timerFlag {Args} _.
Arguments invoked {Args} _.
Arguments start {Args} t0.
Arguments mainFunction {Args} w args s.
Arguments setTimeout {Args} cb delay s.
Arguments clearTimeout {Args} id s.
Arguments set_throttle_timerFlag {Args} flag s.
Arguments set_debounce_timerFlag {Args} flag s.
Arguments throttle {Args} delay args c s.
Arguments debounce {Args} delay args s.
Arguments timeout {Args} id s.
Arguments elapse {Args} dt s.
Arguments Elapse {Args} dt.
Arguments Timeout {Args} id.
Arguments CallThrottled {Args} args c.
Arguments CallDebounced {Args} args.
Arguments step {Args} dt dd e s.
Arguments run {Args} dt dd es s.
Arguments debounced_calls {Args} t es.
Arguments held_off {Args} d l.

(** What holds of the timers after the events [es] from [start t0]: timer
    ids are fresh; the only timer of [throttle] that is pending is the one
    [timerFlag] names, and it is due [dt] after the last throttled call of
    [mainFunction] that returned; the only timer of [debounce] that is
    pending is the one its [timerFlag] names, and it carries the latest
    call. *)
Definition timers_inv {Args : Type} (dt dd t0 : nat) (es : list (event Args))
    (s : Timers Args) : Prop :=
  1 ≤ next_timer s ∧
  (∀ id due cb, pending s !! id = Some (due, cb) → 1 ≤ id < next_timer s) ∧
  (∀ d, debounce_timerFlag s = Some d → 1 ≤ d < next_timer s) ∧
  (∀ d due, debounce_timerFlag s = Some d →
            pending s !! d ≠ Some (due, throttle_expired)) ∧
  (∀ id due, pending s !! id = Some (due, throttle_expired) →
             throttle_timerFlag s = Some id) ∧
  (∀ id due a, pending s !! id = Some (due, debounce_expired a) →
     debounce_timerFlag s = Some id ∧
     ∃ tc, last (debounced_calls t0 es) = Some (tc, a) ∧ due = tc + dd) ∧
  match throttle_timerFlag s with
  | None => ∀ t a, (t, Throttle Returns, a) ∈ invoked s → t + dt ≤ clock s
  | Some id =>
      ∃ due, pending s !! id = Some (due, throttle_expired) ∧
             ∀ t a, (t, Throttle Returns, a) ∈ invoked s → t + dt ≤ due
  end ∧
  held_off dt (invoked s).

(** ** The component [DocPage] *)

Section Page.

(** The numbers of JavaScript, which the page only copies and compares
    with zero: [at_most_zero n] is [n <= 0]. *)
Context {number : Type}.
Variable at_most_zero : number → bool.

(** [type UserDataType]; a field is a string or null. *)
Record UserDataType : Type := mkUserDataType {
  userId : option string;
  userName : option string;
  userColor : option string
}.

#[global] Instance UserDataType_eq_dec : EqDecision UserDataType.
Proof. solve_decision. Defined.

(** [interface UserCursor]; a position is the pair of [x] and [y]. *)
Record UserCursor : Type := mkUserCursor {
  cursorUserData : UserDataType;
  cursorPosition : number * number
}.

(** [interface ContentPayload] *)
Record ContentPayload : Type := mkContentPayload {
  content : string;
  position : number * number;
  userData : UserDataType
}.

(** [interface WSMessage], the result of [JSON.parse(event.data)]. *)
Record WSMessage : Type := mkWSMessage {
  wsType : string;
  wsData : ContentPayload
}.

(** What [handleInputTyping] reads from an input event: the markup of the
    edited element and the rectangle of the selection, [left] and [top],
    when there is one. *)
Record InputEvent : Type := mkInputEvent {
  innerHTML : string;
  rect : option (number * number)
}.

(** [WebSocket.readyState] *)
Inductive ReadyState : Type := CONNECTING | OPEN | CLOSING | CLOSED.

(** The state of the component: the socket [ws] refers to, the refs, the
    state variables, the element [contentArea] refers to (none before it is
    mounted) with its markup, and the timers of the throttled and the
    debounced sender, whose [mainFunction] hands the payload to
    [ws.current.send]. *)
Record DocPage : Type := mkDocPage {
  readyState : ReadyState;
  isConnected : bool;
  userDataRef : UserDataType;
  userCursors : list UserCursor;
  users : list UserDataType;
  contentArea : option string;
  timers : Timers ContentPayload
}.

(** The page when its effect has made the socket, at time [t0]: the socket
    is connecting, the element is mounted and empty, the state is the
    initial one. *)
Definition initial_page (t0 : nat) : DocPage :=
  {| readyState := CONNECTING; isConnected := false;
     userDataRef := {| userId := None; userName := Some ""; userColor := Some "" |};
     userCursors := [];
     users := [];
     contentArea := Some "";
     timers := start t0 |}.

Definition applyRemoteUpdate (remoteContent : string) (page : DocPage) : DocPage :=
  match contentArea page with
  | None => page
  | Some _ =>
      {| readyState := readyState page; isConnected := isConnected page;
         userDataRef := userDataRef page; userCursors := userCursors page;
         users := users page; contentArea := Some remoteContent;
         timers := timers page |}
  end.

Definition handleUserCursors (data : ContentPayload) (page : DocPage) : DocPage :=
  let id := userId (userData data) in
  let filteredCursorPositions :=
    filter (λ item, userId (cursorUserData item) ≠ id) (userCursors page) in
  {| readyState := readyState page; isConnected := isConnected page;
     userDataRef := userDataRef page;
     userCursors :=
       if decide (userId (userDataRef page) = id) then filteredCursorPositions
       else filteredCursorPositions
            ++ [{| cursorUserData := userData data;
                   cursorPosition := position data |}];
     users := users page; contentArea := contentArea page;
     timers := timers page |}.

Definition addNewUser (user : UserDataType) (page : DocPage) : DocPage :=
  {| readyState := readyState page; isConnected := isConnected page;
     userDataRef := userDataRef page; userCursors := userCursors page;
     users := users page ++ [user];
     contentArea := contentArea page; timers := timers page |}.

Definition removeUser (user : UserDataType) (page : DocPage) : DocPage :=
  {| readyState := readyState page; isConnected := isConnected page;
     userDataRef := userDataRef page; userCursors := userCursors page;
     users := filter (λ u, userId u ≠ userId user) (users page);
     contentArea := contentArea page; timers := timers page |}.

Definition set_userDataRef (user : UserDataType) (page : DocPage) : DocPage :=
  {| readyState := readyState page; isConnected := isConnected page;
     userDataRef := user; userCursors := userCursors page;
     users := users page; contentArea := contentArea page;
     timers := timers page |}.

Definition set_timers (t : Timers ContentPayload) (page : DocPage) : DocPage :=
  {| readyState := readyState page; isConnected := isConnected page;
     userDataRef := userDataRef page; userCursors := userCursors page;
     users := users page; contentArea := contentArea page; timers := t |}.

Definition set_readyState (r : ReadyState) (connected : bool) (page : DocPage)
    : DocPage :=
  {| readyState := r; isConnected := connected;
     userDataRef := userDataRef page; userCursors := userCursors page;
     users := users page; contentArea := contentArea page;
     timers := timers page |}.

(** How [ws.current?.send(data)] ends: [send] throws an InvalidStateError
    while the socket is connecting; on a socket that is closing or closed
    it returns and the data is discarded. *)
Definition send_completion (page : DocPage) : completion :=
  match readyState page with
  | CONNECTING => Throws
  | _ => Returns
  end.

(** [handleServerResponse] on the parsed message. *)
Definition handleServerResponse (parsedData : WSMessage) (page : DocPage) : DocPage :=
  let eventType := wsType parsedData in
  let page1 :=
    if String.eqb eventType "content" then
      if decide (userId (userData (wsData parsedData)) ≠ userId (userDataRef page))
      then handleUserCursors (wsData parsedData)
             (applyRemoteUpdate (content (wsData parsedData)) page)
      else page
    else page in
  let page2 :=
    if String.eqb eventType "user-data"
    then set_userDataRef (userData (wsData parsedData)) page1 else page1 in
  let page3 :=
    if String.eqb eventType "user-added"
    then addNewUser (userData (wsData parsedData)) page2 else page2 in
  if String.eqb eventType "user-removed"
  then removeUser (userData (wsData parsedData)) page3 else page3.

(** [handleInputTyping]; the throttled sender has a delay of 200 and the
    debounced one of 400.  An exception from the throttled sender leaves
    the handler before the debounced sender is called. *)
Definition handleInputTyping (e : option InputEvent) (page : DocPage) : DocPage :=
  match e with
  | None => page
  | Some ev =>
      match rect ev with
      | None => page
      | Some (rectLeft, rectTop) =>
          if at_most_zero rectTop then page
          else
            let payload := {| content := innerHTML ev;
                              position := (rectLeft, rectTop);
                              userData := userDataRef page |} in
            match throttle 200 payload (send_completion page) (timers page) with
            | (Throws, t) => set_timers t page
            | (Returns, t) => set_timers (debounce 400 payload t) page
            end
      end
  end.

(** What happens to the page: an input event, the open event of the
    socket (its listener sets [isConnected]), a message event, the socket
    closes or fails to connect, time passes, the browser runs a timer. *)
Inductive page_event : Type :=
| Typing (e : option InputEvent)
| Opens
| Received (parsedData : WSMessage)
| Closes
| Passes (dt : nat)
| Fires (id : nat).

Definition page_step (e : page_event) (page : DocPage) : option DocPage :=
  match e with
  | Typing ev => Some (handleInputTyping ev page)
  | Opens =>
      match readyState page with
      | CONNECTING => Some (set_readyState OPEN true page)
      | _ => None
      end
  | Received parsedData =>
      match readyState page with
      | OPEN => Some (handleServerResponse parsedData page)
      | _ => None
      end
  | Closes =>
      match readyState page with
      | CLOSED => None
      | _ => Some (set_readyState CLOSED (isConnected page) page)
      end
  | Passes dt => Some (set_timers (elapse dt (timers page)) page)
  | Fires id =>
      match timeout id (timers page) with
      | Some t => Some (set_timers t page)
      | None => None
      end
  end.

Fixpoint page_run (es : list page_event) (page : DocPage) : option DocPage :=
  match es with
  | [] => Some page
  | e :: rest =>
      match page_step e page with
      | Some page' => page_run rest page'
      | None => None
      end
  end.

Definition is_typing (e : page_event) : bool :=
  match e with Typing _ => true | _ => false end.

End Page.

Arguments is_typing {number} e.

(** The messages among the events, in their order. *)
Definition messages {number : Type} (es : list (@page_event number))
    : list (@WSMessage number) :=
  omap (λ e, match e with Received m => Some m | _ => None end) es.

(** The users of the user-added messages of [ms] that no later user-removed
    message of [ms] with the same user id follows: one entry for each such
    message, in the order of the messages. *)
Fixpoint announced_and_not_removed {number : Type} (ms : list (@WSMessage number))
    : list UserDataType :=
  match ms with
  | [] => []
  | m :: rest =>
      let u := userData (wsData m) in
      if String.eqb (wsType m) "user-added"
         && forallb (λ m', negb (String.eqb (wsType m') "user-removed"
                                 && bool_decide (userId (userData (wsData m'))
                                                 = userId u))) rest
      then u :: announced_and_not_removed rest
      else announced_and_not_removed rest
  end.

(** The identifiers of the users whose cursors are shown. *)
Definition cursor_ids {number : Type} (l : list (@UserCursor number))
    : list (option string) :=
  (λ item, userId (cursorUserData item)) <$> l.

(** The arguments [p] of the debounced function are waiting for its timer,
    or no timer of [debounce] is pending and the last call of
    [mainFunction] was the one of [debounce] with [p]. *)
Definition waiting_or_sent {Args : Type} (p : Args) (s : Timers Args) : Prop :=
  (∃ id due, debounce_timerFlag s = Some id ∧
             pending s !! id = Some (due, debounce_expired p)) ∨
  ((∀ id due a, pending s !! id ≠ Some (due, debounce_expired a)) ∧
   ∃ tc, last (invoked s) = Some (tc, Debounce, p)).

(** No timer is pending, and every call of [mainFunction] so far was made
    by the throttled function and threw. *)
Definition never_sent {Args : Type} (s : Timers Args) : Prop :=
  pending s = ∅ ∧
  ∀ x, x ∈ invoked s → ∃ t a, x = (t, Throttle Throws, a).

(** A page with the numbers of [Z]. *)
Definition Z_at_most_zero (z : Z) : bool := (z <=? 0)%Z.

(** Sample pages, with the numbers of [Z]. *)
Definition alice : UserDataType :=
  {| userId := Some "1f0c"; userName := Some "Fox"; userColor := Some "hsl(10, 70%, 60%)" |}.

Definition bob : UserDataType :=
  {| userId := Some "77aa"; userName := Some "Owl"; userColor := Some "hsl(200, 70%, 60%)" |}.

Definition carol : UserDataType :=
  {| userId := Some "c4f3"; userName := Some "Cat"; userColor := Some "hsl(90, 70%, 60%)" |}.

Definition about (type : string) (u : UserDataType) : @WSMessage Z :=
  {| wsType := type;
     wsData := {| content := ""; position := (0, 0)%Z; userData := u |} |}.

Definition edit (markup : string) (x y : Z) (u : UserDataType) : @WSMessage Z :=
  {| wsType := "content";
     wsData := {| content := markup; position := (x, y); userData := u |} |}.

Definition comings_and_goings : list (@page_event Z) :=
  [Opens; Received (about "user-data" carol);
   Received (about "user-added" alice);
   Received (about "user-added" bob);
   Received (about "user-removed" alice);
   Received (about "user-added" bob)].

Definition remote_edits : list (@page_event Z) :=
  [Opens; Received (about "user-data" carol);
   Received (edit "<p>a</p>" 40 60 alice);
   Received (edit "<p>ab</p>" 48 60 bob);
   Received (edit "<p>abc</p>" 56 60 alice)].

Definition keystroke : @InputEvent Z :=
  {| innerHTML := "<p>abcd</p>"; rect := Some (64, 60)%Z |}.

(** ** Evaluation of the primitives *)

Lemma bind_Ok {A B : Type} (m : M A) (f : A → M B) st a st' :
  m st = Ok (a, st') → bind m f st = f a st'.
Proof. intros H. unfold bind. by rewrite H. Qed.

Lemma Lock_eval st :
  Mutex st = unlocked →
  Lock st = Ok (tt, set_Mutex {| readers := 0; writer := true |} st).
Proof. intros H. unfold Lock, bind, gets, modify. by rewrite H. Qed.

Lemma Unlock_eval st n :
  Mutex st = {| readers := n; writer := true |} →
  Unlock st = Ok (tt, set_Mutex {| readers := n; writer := false |} st).
Proof. intros H. unfold Unlock, bind, gets, modify. by rewrite H. Qed.

Lemma RLock_eval st n :
  Mutex st = {| readers := n; writer := false |} →
  RLock st = Ok (tt, set_Mutex {| readers := S n; writer := false |} st).
Proof. intros H. unfold RLock, bind, gets, modify. by rewrite H. Qed.

Lemma RUnlock_eval st n w :
  Mutex st = {| readers := S n; writer := w |} →
  RUnlock st = Ok (tt, set_Mutex {| readers := n; writer := w |} st).
Proof. intros H. unfold RUnlock, bind, gets, modify. by rewrite H. Qed.

Lemma deref_eval st p c : heap st !! p = Some c → deref p st = Ok (c, st).
Proof. intros H. unfold deref, bind, gets, ret. by rewrite H. Qed.

Lemma store_Send_eval st p ch c :
  heap st !! p = Some c →
  store_Send p ch st = Ok (tt, set_heap (<[p := set_Send ch c]>) st).
Proof.
  intros H. unfold store_Send, modify, set_heap. do 3 f_equal.
  apply map_eq. intros q. destruct (decide (p = q)) as [->|Hne].
  - rewrite lookup_alter_eq, lookup_insert_eq, H. done.
  - rewrite lookup_alter_ne, lookup_insert_ne; done.
Qed.

Lemma try_send_room st p m c :
  heap st !! p = Some c → closed (Send c) = false →
  length (buf (Send c)) < SendCap →
  try_send p m st = Ok (true, set_heap (<[p := enqueue m c]>) st).
Proof.
  intros H Hc Hl. unfold try_send.
  rewrite (bind_Ok _ _ _ _ _ (deref_eval _ _ _ H)), Hc.
  apply Nat.ltb_lt in Hl. rewrite Hl.
  by rewrite (bind_Ok _ _ _ _ _ (store_Send_eval _ _ _ _ H)).
Qed.

Lemma try_send_full st p m c :
  heap st !! p = Some c → closed (Send c) = false →
  SendCap ≤ length (buf (Send c)) →
  try_send p m st = Ok (false, st).
Proof.
  intros H Hc Hl. unfold try_send.
  rewrite (bind_Ok _ _ _ _ _ (deref_eval _ _ _ H)), Hc.
  apply Nat.ltb_ge in Hl. by rewrite Hl.
Qed.

Lemma send_room st p m c :
  heap st !! p = Some c → closed (Send c) = false →
  length (buf (Send c)) < SendCap →
  send p m st = Ok (tt, set_heap (<[p := enqueue m c]>) st).
Proof.
  intros H Hc Hl. unfold send.
  rewrite (bind_Ok _ _ _ _ _ (deref_eval _ _ _ H)), Hc.
  apply Nat.ltb_lt in Hl. rewrite Hl.
  apply (store_Send_eval _ _ _ _ H).
Qed.

Lemma close_open st p c :
  heap st !! p = Some c → closed (Send c) = false →
  close p st = Ok (tt, set_heap (<[p := shut c]>) st).
Proof.
  intros H Hc. unfold close.
  rewrite (bind_Ok _ _ _ _ _ (deref_eval _ _ _ H)), Hc.
  apply (store_Send_eval _ _ _ _ H).
Qed.

(** ** The dispatcher loop *)

Lemma evict_eval st p c :
  Mutex st = reading → heap st !! p = Some c → closed (Send c) = false →
  (close p ;; RUnlock ;; Lock ;; modify (set_Clients (delete p)) ;; Unlock ;; RLock) st
  = Ok (tt, set_Clients (delete p) (set_heap (<[p := shut c]>) st)).
Proof.
  intros Hmu Hh Hc.
  rewrite (bind_Ok _ _ _ _ _ (close_open _ _ _ Hh Hc)).
  erewrite bind_Ok; [|apply (RUnlock_eval _ 0 false); simpl; exact Hmu].
  erewrite bind_Ok; [|apply Lock_eval; reflexivity].
  erewrite bind_Ok; [|reflexivity].
  erewrite bind_Ok; [|apply (Unlock_eval _ 0); reflexivity].
  erewrite RLock_eval; [|reflexivity].
  destruct st as [cs mu h r]. simpl in Hmu. subst mu. reflexivity.
Qed.

Lemma fanned_nil message st : fanned message [] st st.
Proof.
  split; [done|]. split; [done|]. split; [done|].
  split; intros p c Hp; by apply not_elem_of_nil in Hp.
Qed.

(** One turn of the range loop that ran the send case, then the turns for
    the other keys. *)
Lemma fanned_cons_room message p rest c st st' :
  p ∉ rest → heap st !! p = Some c → length (buf (Send c)) < SendCap →
  fanned message rest (set_heap (<[p := enqueue message c]>) st) st' →
  fanned message (p :: rest) st st'.
Proof.
  intros Hp Hc Hroom (Hmu & Hr & Hout & Hin & Hev).
  split; [done|]. split; [done|]. split; [|split].
  - intros q Hq. apply not_elem_of_cons in Hq as [Hne Hq].
    destruct (Hout q Hq) as [Hcs ->]. split; [done|].
    simpl. by rewrite lookup_insert_ne.
  - intros q cq Hq Hcq Hl. apply elem_of_cons in Hq as [->|Hq].
    + destruct (Hout p Hp) as [Hcs ->]. split; [done|].
      simpl. rewrite lookup_insert_eq. congruence.
    + assert (q ≠ p) by (intros ->; done).
      apply Hin; [done| |done]. simpl. by rewrite lookup_insert_ne.
  - intros q cq Hq Hcq Hl. apply elem_of_cons in Hq as [->|Hq].
    + assert (cq = c) by congruence. subst cq. lia.
    + assert (q ≠ p) by (intros ->; done).
      apply Hev; [done| |done]. simpl. by rewrite lookup_insert_ne.
Qed.

(** One turn of the range loop that ran the default case, then the turns
    for the other keys. *)
Lemma fanned_cons_full message p rest c st st' :
  p ∉ rest → heap st !! p = Some c → SendCap ≤ length (buf (Send c)) →
  fanned message rest
         (set_Clients (delete p) (set_heap (<[p := shut c]>) st)) st' →
  fanned message (p :: rest) st st'.
Proof.
  intros Hp Hc Hfull (Hmu & Hr & Hout & Hin & Hev).
  split; [done|]. split; [done|]. split; [|split].
  - intros q Hq. apply not_elem_of_cons in Hq as [Hne Hq].
    destruct (Hout q Hq) as [-> ->]. simpl.
    by rewrite lookup_delete_ne, lookup_insert_ne.
  - intros q cq Hq Hcq Hl. apply elem_of_cons in Hq as [->|Hq].
    + assert (cq = c) by congruence. subst cq. lia.
    + assert (q ≠ p) by (intros ->; done).
      destruct (Hin q cq) as [-> ->]; [done| |done|].
      * simpl. by rewrite lookup_insert_ne.
      * simpl. by rewrite lookup_delete_ne.
  - intros q cq Hq Hcq Hl. apply elem_of_cons in Hq as [->|Hq].
    + destruct (Hout p Hp) as [-> ->]. simpl.
      rewrite lookup_delete_eq, lookup_insert_eq. split; [done|congruence].
    + assert (q ≠ p) by (intros ->; done).
      apply Hev; [done| |done]. simpl. by rewrite lookup_insert_ne.
Qed.

Lemma BroadcastToAllClients_range_fanned message order : ∀ st,
  NoDup order → Mutex st = reading →
  (∀ p, p ∈ order →
     registered st p ∧ ∃ c, heap st !! p = Some c ∧ closed (Send c) = false) →
  ∃ st', BroadcastToAllClients_range message order st = Ok (tt, st') ∧
         fanned message order st st'.
Proof.
  induction order as [|p rest IH]; intros st Hnd Hmu Hreg.
  - exists st. split; [done|]. apply fanned_nil.
  - apply NoDup_cons in Hnd as [Hp Hnd].
    destruct (Hreg p) as [[b Hb] (c & Hc & Hopen)]; [left|].
    assert (Hrest : ∀ st1,
      (∀ q, q ≠ p → Clients st1 !! q = Clients st !! q) →
      (∀ q, q ≠ p → heap st1 !! q = heap st !! q) →
      ∀ q, q ∈ rest →
        registered st1 q ∧
        ∃ cq, heap st1 !! q = Some cq ∧ closed (Send cq) = false).
    { intros st1 Hcs Hh q Hq. assert (q ≠ p) by (intros ->; done).
      unfold registered. rewrite Hcs, Hh by done. apply Hreg. by right. }
    simpl. erewrite bind_Ok; [|reflexivity]. rewrite Hb.
    destruct (decide (length (buf (Send c)) < SendCap)) as [Hroom|Hfull].
    + rewrite (bind_Ok _ _ _ _ _ (try_send_room _ _ message _ Hc Hopen Hroom)).
      erewrite bind_Ok; [|reflexivity].
      destruct (IH (set_heap (<[p := enqueue message c]>) st))
        as (st' & Hrun & Hf); [done|done| |].
      { apply Hrest; intros q Hne; simpl; [done|by rewrite lookup_insert_ne]. }
      exists st'. split; [done|]. by apply (fanned_cons_room _ _ _ c).
    + apply Nat.nlt_ge in Hfull.
      rewrite (bind_Ok _ _ _ _ _ (try_send_full _ _ message _ Hc Hopen Hfull)).
      rewrite (bind_Ok _ _ _ _ _ (evict_eval _ _ _ Hmu Hc Hopen)).
      destruct (IH (set_Clients (delete p) (set_heap (<[p := shut c]>) st)))
        as (st' & Hrun & Hf); [done|done| |].
      { apply Hrest; intros q Hne; simpl;
          [by rewrite lookup_delete_ne|by rewrite lookup_insert_ne]. }
      exists st'. split; [done|]. by apply (fanned_cons_full _ _ _ c).
Qed.

Lemma BroadcastToAllClients_fanned message order st :
  well_formed st → ranges_over order st →
  ∃ st', BroadcastToAllClients message order st = Ok (tt, st') ∧
         fanned message order st st' ∧ Mutex st' = unlocked.
Proof.
  intros [Hmu Hwf] [Hnd Hkeys].
  set (st1 := set_Mutex reading st).
  destruct (BroadcastToAllClients_range_fanned message order st1)
    as (st2 & Hrun & Hmu2 & Hr2 & Hout & Hin & Hev); [done|done| |].
  { intros p Hp. apply Hkeys in Hp. split; [done|]. by apply Hwf. }
  exists (set_Mutex unlocked st2). split; [|split; [|done]].
  - unfold BroadcastToAllClients.
    erewrite bind_Ok; [|apply (RLock_eval _ 0); exact Hmu].
    fold reading. fold st1.
    rewrite (bind_Ok _ _ _ _ _ Hrun).
    apply (RUnlock_eval _ 0 false). exact Hmu2.
  - split; [simpl; by rewrite Hmu|]. split; [exact Hr2|]. split; [|split].
    + intros p Hp. apply (Hout p Hp).
    + intros p c Hp Hc Hl. apply (Hin p c Hp Hc Hl).
    + intros p c Hp Hc Hl. apply (Hev p c Hp Hc Hl).
Qed.

Lemma fanned_room message order st st' p c :
  fanned message order st st' → p ∈ order → heap st !! p = Some c →
  ¬ full st p →
  Clients st' !! p = Clients st !! p ∧ queue st' p = queue st p ++ [message] ∧
  queue_closed st' p = false.
Proof.
  intros (_ & _ & _ & Hin & _) Hp Hc Hroom.
  unfold full, queue in Hroom. rewrite Hc in Hroom.
  destruct (Hin p c Hp Hc) as [Hcs Hh]; [lia|].
  unfold queue, queue_closed. by rewrite Hh, Hc.
Qed.

Lemma fanned_full message order st st' p c :
  fanned message order st st' → p ∈ order → heap st !! p = Some c →
  full st p →
  Clients st' !! p = None ∧ queue st' p = queue st p ∧
  queue_closed st' p = true.
Proof.
  intros (_ & _ & _ & _ & Hev) Hp Hc Hfull.
  unfold full, queue in Hfull. rewrite Hc in Hfull.
  destruct (Hev p c Hp Hc Hfull) as [Hcs Hh].
  unfold queue, queue_closed. by rewrite Hh, Hc.
Qed.

Lemma fanned_wf message order st st' :
  well_formed st → ranges_over order st → fanned message order st st' →
  Mutex st' = unlocked → well_formed st'.
Proof.
  intros [Hmu Hwf] [Hnd Hkeys] Hf Hmu'. split; [done|].
  intros p [b Hb].
  destruct (decide (p ∈ order)) as [Hp|Hp].
  - destruct (Hwf p) as (c & Hc & Hopen); [by apply Hkeys|].
    destruct Hf as (_ & _ & _ & Hin & Hev).
    destruct (decide (length (buf (Send c)) < SendCap)) as [Hroom|Hfull].
    + destruct (Hin p c Hp Hc Hroom) as [_ Hh]. eauto.
    + destruct (Hev p c Hp Hc) as [Hn _]; [lia|]. congruence.
  - destruct Hf as (_ & _ & Hout & _). destruct (Hout p Hp) as [Hcs Hh].
    destruct (Hwf p) as (c & Hc & Hopen).
    + exists b. congruence.
    + exists c. split; [congruence|done].
Qed.

(** ** Unregister *)

Lemma Run_step_Unregister_absent st client :
  Mutex st = unlocked → Clients st !! client = None →
  is_Some (heap st !! client) →
  Run_step (RecvUnregister client) st = Ok ([], st).
Proof.
  intros Hmu Hc [c Hh]. simpl.
  erewrite bind_Ok; [|apply Lock_eval; exact Hmu].
  erewrite bind_Ok; [|reflexivity]. simpl. rewrite Hc.
  erewrite bind_Ok; [|reflexivity].
  erewrite bind_Ok; [|apply (Unlock_eval _ 0); reflexivity].
  erewrite bind_Ok; [|apply (deref_eval _ _ c); exact Hh].
  destruct st as [cs mu h r]. simpl in Hmu. subst mu. reflexivity.
Qed.

Lemma Run_step_Unregister_member st client b c :
  Mutex st = unlocked → Clients st !! client = Some b →
  heap st !! client = Some c → closed (Send c) = false →
  Run_step (RecvUnregister client) st
  = Ok ([GoHandleDeleteUser client],
        set_heap (<[client := shut c]>) (set_Clients (delete client) st)).
Proof.
  intros Hmu Hb Hc Hopen. simpl.
  erewrite bind_Ok; [|apply Lock_eval; exact Hmu].
  erewrite bind_Ok; [|reflexivity]. simpl. rewrite Hb.
  erewrite bind_Ok; [|].
  2:{ erewrite bind_Ok; [|reflexivity].
      erewrite bind_Ok; [|apply (close_open _ _ c); [exact Hc|exact Hopen]].
      reflexivity. }
  erewrite bind_Ok; [|apply (Unlock_eval _ 0); reflexivity].
  erewrite bind_Ok; [|apply (deref_eval _ _ (shut c)); simpl; apply lookup_insert_eq].
  destruct st as [cs mu h r]. simpl in Hmu. subst mu. reflexivity.
Qed.

Lemma Run_step_Register st client :
  Mutex st = unlocked → is_Some (heap st !! client) →
  Run_step (RecvRegister client) st
  = Ok ([], set_Clients (<[client := true]>) st).
Proof.
  intros Hmu [c Hh]. simpl.
  erewrite bind_Ok; [|apply Lock_eval; exact Hmu].
  erewrite bind_Ok; [|reflexivity].
  erewrite bind_Ok; [|apply (Unlock_eval _ 0); reflexivity].
  erewrite bind_Ok; [|apply (deref_eval _ _ c); exact Hh].
  destruct st as [cs mu h r]. simpl in Hmu. subst mu. reflexivity.
Qed.

Lemma Run_step_Broadcast st message order st' :
  BroadcastToAllClients message order st = Ok (tt, st') →
  Run_step (RecvBroadcast message order) st = Ok ([], st').
Proof. intros H. simpl. by rewrite (bind_Ok _ _ _ _ _ H). Qed.

(** ** Decidable forms *)

Lemma all_registered_spec f st :
  all_registered f st = true → ∀ p, registered st p → f p = true.
Proof.
  unfold all_registered. rewrite forallb_forall. intros H p [b Hb].
  apply H. apply list_elem_of_In. apply list_elem_of_fmap.
  exists (p, b). split; [done|]. by apply elem_of_map_to_list.
Qed.

Lemma well_formedb_spec st : well_formedb st = true → well_formed st.
Proof.
  unfold well_formedb. rewrite andb_true_iff. intros [Hmu Hall].
  apply bool_decide_eq_true in Hmu. split; [done|].
  intros p Hp. pose proof (all_registered_spec _ _ Hall p Hp) as Ho.
  unfold openb in Ho. destruct (heap st !! p) as [c|]; [|done].
  exists c. split; [done|]. by destruct (closed (Send c)).
Qed.

Lemma ranges_overb_spec order st :
  ranges_overb order st = true → ranges_over order st.
Proof.
  unfold ranges_overb. rewrite andb_true_iff. intros [Hnd Hdom].
  apply bool_decide_eq_true in Hnd. apply bool_decide_eq_true in Hdom.
  split; [done|]. intros p. unfold registered.
  rewrite <- elem_of_dom, <- Hdom. by rewrite elem_of_list_to_set.
Qed.

Lemma roomb_spec st :
  all_registered (roomb st) st = true → ∀ p, registered st p → ¬ full st p.
Proof.
  intros H p Hp. pose proof (all_registered_spec _ _ H p Hp) as Hr.
  unfold roomb in Hr. apply Nat.ltb_lt in Hr. unfold full. lia.
Qed.

Lemma broadcast_fanout message order st :
  well_formed st → ranges_over order st →
  (∀ p, registered st p → ¬ full st p) →
  ∃ st', BroadcastToAllClients message order st = Ok (tt, st') ∧
         Clients st' = Clients st ∧
         (∀ p, registered st p → queue st' p = queue st p ++ [message]) ∧
         (∀ p, ¬ registered st p → heap st' !! p = heap st !! p) ∧
         well_formed st'.
Proof.
  intros Hwf Hro Hroom.
  destruct (BroadcastToAllClients_fanned message order st Hwf Hro)
    as (st' & Hrun & Hf & Hmu').
  pose proof (fanned_wf _ _ _ _ Hwf Hro Hf Hmu') as Hwf'.
  destruct Hwf as [Hmu Hwf]. destruct Hro as [Hnd Hkeys].
  exists st'. split; [done|]. split; [|split; [|split; [|done]]].
  - apply map_eq. intros p.
    destruct (decide (p ∈ order)) as [Hp|Hp].
    + destruct (Hwf p) as (c & Hc & _); [by apply Hkeys|].
      destruct (fanned_room message order st st' p c Hf Hp Hc) as [Hs _];
        [|done].
      apply Hroom. by apply Hkeys.
    + destruct Hf as (_ & _ & Hout & _). by destruct (Hout p Hp).
  - intros p Hp. destruct (Hwf p Hp) as (c & Hc & _).
    destruct (fanned_room message order st st' p c Hf) as (_ & Hq & _);
      [by apply Hkeys|done|by apply Hroom|done].
  - intros p Hp. destruct Hf as (_ & _ & Hout & _).
    apply Hout. intros Hin. by apply Hp, Hkeys.
Qed.

Lemma three_sessions_registered p :
  registered three_sessions p ↔ p = 1 ∨ p = 2 ∨ p = 3.
Proof.
  unfold registered, three_sessions. simpl. split.
  - intros [b Hb].
    destruct (decide (p = 1)) as [->|?]; [by left|].
    destruct (decide (p = 2)) as [->|?]; [by right; left|].
    destruct (decide (p = 3)) as [->|?]; [by right; right|].
    rewrite !lookup_insert_ne in Hb by done. done.
  - intros [ -> | [ -> | -> ] ]; exists true; reflexivity.
Qed.

(** ** Unregister of a session that is not registered *)

(** C5: unregistering a session, a client object, that is not a member of
    the registry is a no-op.  The turn of [Run] finishes (no panic, nothing
    blocks), starts no goroutine, so nothing is broadcast, and leaves the
    whole state as it was: the membership set, every queue and every closed
    flag; a queue that was closed when the session left is not closed a
    second time. *)
Theorem unregister_absent_is_noop (client : ptr) (st : State) :
  Mutex st = unlocked → is_Some (heap st !! client) →
  ¬ registered st client →
  Run_step (RecvUnregister client) st = Ok ([], st).
Proof.
  intros Hmu Hobj Hno. apply Run_step_Unregister_absent; [done| |done].
  destruct (Clients st !! client) eqn:E; [|done].
  exfalso. apply Hno. by exists b.
Qed.

Lemma unregister_absent_is_noop_witness :
  queue_closed B_has_left 2 = true ∧
  Run_step (RecvUnregister 2) B_has_left = Ok ([], B_has_left).
Proof.
  split; [reflexivity|].
  apply (unregister_absent_is_noop 2 B_has_left).
  - reflexivity.
  - by eexists.
  - intros [b Hb]. vm_compute in Hb. discriminate.
Defined.

(** ** Broadcast *)

(** C1: one broadcast with K registered sessions always returns.  When no
    queue is full the registry is unchanged and every registered session
    has the envelope at the back of its queue.  When exactly one session
    [e] has its queue at capacity, [e] leaves the registry with its queue
    closed and unchanged, each of the other K-1 sessions stays registered
    and has the envelope at the back of its queue, and the registry is
    smaller by exactly one. *)
Theorem broadcast_delivers_or_evicts (message : bytes) (order : list ptr) (st : State) :
  well_formed st → ranges_over order st →
  ∃ st',
    BroadcastToAllClients message order st = Ok (tt, st') ∧
    ((∀ p, registered st p → ¬ full st p) →
       Clients st' = Clients st ∧
       ∀ p, registered st p → queue st' p = queue st p ++ [message]) ∧
    (∀ e, registered st e → full st e →
       (∀ p, registered st p → p ≠ e → ¬ full st p) →
       ¬ registered st' e ∧ queue_closed st' e = true ∧
       queue st' e = queue st e ∧
       (∀ p, registered st p → p ≠ e →
          registered st' p ∧ queue st' p = queue st p ++ [message]) ∧
       size (Clients st') + 1 = size (Clients st)).
Proof.
  intros Hwf Hro.
  destruct (BroadcastToAllClients_fanned message order st Hwf Hro)
    as (st' & Hrun & Hf & Hmu').
  destruct Hwf as [Hmu Hwf]. destruct Hro as [Hnd Hkeys].
  exists st'. split; [done|]. split.
  - intros Hroom. split.
    + apply map_eq. intros p.
      destruct (decide (p ∈ order)) as [Hp|Hp].
      * destruct (Hwf p) as (c & Hc & _); [by apply Hkeys|].
        destruct (fanned_room message order st st' p c Hf Hp Hc) as [Hs _];
          [|done].
        apply Hroom. by apply Hkeys.
      * destruct Hf as (_ & _ & Hout & _). by destruct (Hout p Hp).
    + intros p Hp. destruct (Hwf p Hp) as (c & Hc & _).
      destruct (fanned_room message order st st' p c Hf) as (_ & Hq & _);
        [by apply Hkeys|done|by apply Hroom|done].
  - intros e He Hfull Hothers.
    destruct (Hwf e He) as (ce & Hce & _).
    destruct (fanned_full _ _ _ _ _ _ Hf (proj2 (Hkeys e) He) Hce Hfull)
      as (Hgone & Hq & Hcl).
    assert (Hcs : Clients st' = delete e (Clients st)).
    { apply map_eq. intros p. destruct (decide (p = e)) as [->|Hne].
      - by rewrite lookup_delete_eq.
      - rewrite lookup_delete_ne by done.
        destruct (decide (p ∈ order)) as [Hp|Hp].
        + destruct (Hwf p) as (c & Hc & _); [by apply Hkeys|].
          destruct (fanned_room message order st st' p c Hf Hp Hc) as [Hs _];
            [|done].
          apply Hothers; [by apply Hkeys|done].
        + destruct Hf as (_ & _ & Hout & _). by destruct (Hout p Hp). }
    split; [|split; [done|split; [done|split]]].
    + unfold registered. rewrite Hgone. by intros [? ?].
    + intros p Hp Hne. destruct (Hwf p Hp) as (c & Hc & _).
      destruct (fanned_room _ _ _ _ _ _ Hf (proj2 (Hkeys p) Hp) Hc)
        as (Hsame & Hqp & _); [by apply Hothers|].
      split; [|done]. unfold registered. by rewrite Hsame.
    + rewrite Hcs, map_size_delete_Some by done.
      assert (size (Clients st) ≠ 0); [|lia].
      apply map_size_ne_0_lookup. by exists e.
Qed.

Lemma broadcast_delivers_or_evicts_witness :
  ∃ st',
    BroadcastToAllClients (text "hello") [3; 1; 2] B_is_full = Ok (tt, st') ∧
    ¬ registered st' 2 ∧ queue_closed st' 2 = true ∧
    queue st' 1 = [text "hello"] ∧ queue st' 3 = [text "hello"] ∧
    size (Clients st') + 1 = 3.
Proof.
  destruct (broadcast_delivers_or_evicts (text "hello") [3; 1; 2] B_is_full)
    as (st' & Hrun & _ & Hone).
  - apply well_formedb_spec. vm_compute. reflexivity.
  - apply ranges_overb_spec. vm_compute. reflexivity.
  - destruct (Hone 2) as (Hgone & Hcl & _ & Hrest & Hsize).
    + exists true. vm_compute. reflexivity.
    + unfold full. vm_compute. lia.
    + intros p Hp Hne.
      assert (Hr : roomb B_is_full p = true ∨ p = 2).
      { destruct Hp as [b Hb].
        destruct (decide (p = 1)) as [->|?]; [by left|].
        destruct (decide (p = 2)) as [->|?]; [by right|].
        destruct (decide (p = 3)) as [->|?]; [by left|].
        exfalso. unfold B_is_full, three_sessions in Hb. simpl in Hb.
        rewrite !lookup_insert_ne in Hb by done. done. }
      destruct Hr as [Hr| ->]; [|done].
      unfold roomb in Hr. apply Nat.ltb_lt in Hr. unfold full. lia.
    + exists st'. split; [done|]. split; [done|]. split; [done|].
      destruct (Hrest 1) as [_ H1]; [exists true; vm_compute; reflexivity|done|].
      destruct (Hrest 3) as [_ H3]; [exists true; vm_compute; reflexivity|done|].
      split; [exact H1|]. split; [exact H3|]. exact Hsize.
Defined.

(** C10: a session evicted during a broadcast because its queue is full has
    its queue closed and leaves the registry, and no user-removed envelope
    is emitted for it: the turn of [Run] starts no goroutine (only
    [HandleDeleteUser] builds that envelope), every session that remains
    gets the broadcast envelope and nothing else, and the unregister that
    the evicted session's inbound pump sends later finds it absent and
    starts no [HandleDeleteUser] either. *)
Theorem eviction_emits_no_removal (message : bytes) (order : list ptr)
    (e : ptr) (st : State) :
  well_formed st → ranges_over order st → registered st e → full st e →
  ∃ st',
    Run_step (RecvBroadcast message order) st = Ok ([], st') ∧
    ¬ registered st' e ∧ queue_closed st' e = true ∧
    (∀ p, registered st' p → queue st' p = queue st p ++ [message]) ∧
    Run_step (RecvUnregister e) st' = Ok ([], st').
Proof.
  intros Hwf Hro He Hfull.
  destruct (BroadcastToAllClients_fanned message order st Hwf Hro)
    as (st' & Hrun & Hf & Hmu').
  destruct Hwf as [Hmu Hwf]. destruct Hro as [Hnd Hkeys].
  destruct (Hwf e He) as (ce & Hce & _).
  destruct (fanned_full _ _ _ _ _ _ Hf (proj2 (Hkeys e) He) Hce Hfull)
    as (Hgone & Hq & Hcl).
  exists st'. split; [by apply Run_step_Broadcast|].
  split; [|split; [done|split]].
  - unfold registered. rewrite Hgone. by intros [? ?].
  - intros p [b Hb].
    destruct (decide (p ∈ order)) as [Hp|Hp].
    + destruct (Hwf p) as (c & Hc & _); [by apply Hkeys|].
      destruct (decide (SendCap ≤ length (queue st p))) as [Hfp|Hfp].
      * destruct (fanned_full _ _ _ _ _ _ Hf Hp Hc Hfp) as (Hn & _).
        congruence.
      * by destruct (fanned_room _ _ _ _ _ _ Hf Hp Hc Hfp) as (_ & ? & _).
    + exfalso. destruct Hf as (_ & _ & Hout & _).
      destruct (Hout p Hp) as [Hcs _]. apply Hp, Hkeys.
      exists b. congruence.
  - apply Run_step_Unregister_absent; [done|done|].
    unfold queue_closed in Hcl. by destruct (heap st' !! e).
Qed.

Lemma eviction_emits_no_removal_witness :
  ∃ st',
    Run_step (RecvBroadcast (text "hello") [1; 2; 3]) B_is_full = Ok ([], st') ∧
    ¬ registered st' 2 ∧
    Run_step (RecvUnregister 2) st' = Ok ([], st').
Proof.
  destruct (eviction_emits_no_removal (text "hello") [1; 2; 3] 2 B_is_full)
    as (st' & Hrun & Hgone & _ & _ & Hun).
  - apply well_formedb_spec. vm_compute. reflexivity.
  - apply ranges_overb_spec. vm_compute. reflexivity.
  - exists true. vm_compute. reflexivity.
  - unfold full. vm_compute. lia.
  - exists st'. split; [exact Hrun|]. split; [exact Hgone|exact Hun].
Defined.

(** ** Content envelopes *)

(** C2, as the code has it: with three registered sessions A, B, C, none
    with a full queue, when the inbound pump of B forwards one frame, [Run]
    puts exactly that frame, unchanged, at the back of the queue of A, of C
    and also of B itself: the dispatcher does not exclude the sender. *)
Theorem content_reaches_every_session (A B C : ptr) (frame : bytes)
    (more : list bytes) (order : list ptr) (st : State) :
  well_formed st → ranges_over order st →
  A ≠ B → B ≠ C → A ≠ C →
  (∀ p, registered st p ↔ p = A ∨ p = B ∨ p = C) →
  (∀ p, registered st p → ¬ full st p) →
  ∃ q st',
    head (HandleClientRead B (frame :: more)) = Some q ∧
    Run_step (receive order q) st = Ok ([], st') ∧
    Clients st' = Clients st ∧
    queue st' A = queue st A ++ [frame] ∧
    queue st' C = queue st C ++ [frame] ∧
    queue st' B = queue st B ++ [frame].
Proof.
  intros Hwf Hro _ _ _ Hthree Hroom.
  destruct (broadcast_fanout frame order st Hwf Hro Hroom)
    as (st' & Hrun & Hcs & Hq & _).
  exists (SendBroadcast frame), st'. split; [done|].
  split; [by apply Run_step_Broadcast|]. split; [done|].
  repeat split; apply Hq, Hthree; auto.
Qed.

Lemma content_reaches_every_session_witness :
  ∃ q st',
    head (HandleClientRead 2 [content_frame]) = Some q ∧
    Run_step (receive [3; 2; 1] q) three_sessions = Ok ([], st') ∧
    Clients st' = Clients three_sessions ∧
    queue st' 1 = queue three_sessions 1 ++ [content_frame] ∧
    queue st' 3 = queue three_sessions 3 ++ [content_frame] ∧
    queue st' 2 = queue three_sessions 2 ++ [content_frame].
Proof.
  apply (content_reaches_every_session 1 2 3 content_frame [] [3; 2; 1]
           three_sessions).
  - apply well_formedb_spec. vm_compute. reflexivity.
  - apply ranges_overb_spec. vm_compute. reflexivity.
  - lia.
  - lia.
  - lia.
  - apply three_sessions_registered.
  - apply roomb_spec. vm_compute. reflexivity.
Defined.

(** C2, as the specification words it, fails: B does receive its own
    broadcast. *)
Lemma sender_receives_own_content :
  ¬ sender_receives_nothing 2 content_frame [1; 2; 3] three_sessions.
Proof.
  intros H.
  destruct (Run_step (receive [1; 2; 3] (SendBroadcast content_frame))
              three_sessions) as [[gs st']| |] eqn:E;
    [|vm_compute in E; discriminate..].
  assert (Hgs : gs = []) by (vm_compute in E; congruence).
  subst gs. specialize (H _ _ eq_refl E).
  vm_compute in E. injection E as <-. vm_compute in H. discriminate.
Qed.

(** ** Unregister of a member *)

Section PresenceProperties.

Variable marshal : Message → option bytes.

Lemma HandleDeleteUser_eval st client c :
  heap st !! client = Some c →
  HandleDeleteUser marshal client st
  = Ok (match marshal {| MsgType := "user-removed"; MsgData := Data c |} with
        | Some jsonData => [SendBroadcast jsonData]
        | None => []
        end, st).
Proof.
  intros Hc. unfold HandleDeleteUser.
  rewrite (bind_Ok _ _ _ _ _ (deref_eval _ _ _ Hc)).
  by destruct (marshal _).
Qed.

(** C4: unregistering a session that is a member removes it from the
    membership set (the other members stay), closes its queue, and starts
    exactly one [HandleDeleteUser], which sends exactly one envelope on
    [Broadcast]: the user-removed message carrying the identity map of the
    removed session.  The queue is already closed in the state in which that
    envelope is built and delivered; [Run] then puts it at the back of the
    queue of every remaining session and the removed one gets nothing. *)
Theorem unregister_member_broadcasts_removal (client : ptr) (c : Client)
    (jsonData : bytes) (st : State) :
  well_formed st → registered st client → heap st !! client = Some c →
  marshal {| MsgType := "user-removed"; MsgData := Data c |} = Some jsonData →
  ∃ st1,
    Run_step (RecvUnregister client) st = Ok ([GoHandleDeleteUser client], st1) ∧
    ¬ registered st1 client ∧
    (∀ p, p ≠ client → Clients st1 !! p = Clients st !! p) ∧
    queue_closed st1 client = true ∧ queue st1 client = queue st client ∧
    HandleDeleteUser marshal client st1 = Ok ([SendBroadcast jsonData], st1) ∧
    ∀ order, ranges_over order st1 →
      (∀ p, registered st1 p → ¬ full st1 p) →
      ∃ st2,
        Run_step (receive order (SendBroadcast jsonData)) st1 = Ok ([], st2) ∧
        (∀ p, registered st1 p → queue st2 p = queue st1 p ++ [jsonData]) ∧
        queue st2 client = queue st client ∧ queue_closed st2 client = true.
Proof.
  intros [Hmu Hwf] [b Hb] Hc Hm.
  destruct (Hwf client) as (c' & Hc' & Hopen); [by exists b|].
  assert (c' = c) by congruence. subst c'.
  set (st1 := set_heap (<[client := shut c]>) (set_Clients (delete client) st)).
  assert (Hh1 : heap st1 !! client = Some (shut c))
    by (simpl; by rewrite lookup_insert_eq).
  assert (Hgone : ¬ registered st1 client).
  { unfold registered. simpl. rewrite lookup_delete_eq. by intros [? ?]. }
  assert (Hwf1 : well_formed st1).
  { split; [done|]. intros p [bp Hp]. simpl in Hp.
    destruct (decide (p = client)) as [->|Hne];
      [by rewrite lookup_delete_eq in Hp|].
    rewrite lookup_delete_ne in Hp by done.
    destruct (Hwf p) as (cp & Hcp & Hop); [by exists bp|].
    exists cp. split; [|done]. simpl. by rewrite lookup_insert_ne. }
  exists st1. split; [by apply (Run_step_Unregister_member _ _ b c)|].
  split; [done|]. split.
  { intros p Hne. simpl. by rewrite lookup_delete_ne. }
  split; [unfold queue_closed; by rewrite Hh1|].
  split; [unfold queue; by rewrite Hh1, Hc|].
  split.
  { rewrite (HandleDeleteUser_eval _ _ _ Hh1). simpl. by rewrite Hm. }
  intros order Hro Hroom.
  destruct (broadcast_fanout jsonData order st1 Hwf1 Hro Hroom)
    as (st2 & Hrun & _ & Hq & Hrest & _).
  exists st2. split; [by apply Run_step_Broadcast|]. split; [done|].
  specialize (Hrest client Hgone).
  unfold queue, queue_closed. by rewrite Hrest, Hh1, Hc.
Qed.

End PresenceProperties.

Lemma unregister_member_broadcasts_removal_witness :
  ∃ jsonData st1 st2,
    sample_marshal {| MsgType := "user-removed"; MsgData := Data sessionB |}
      = Some jsonData ∧
    Run_step (RecvUnregister 2) three_sessions = Ok ([GoHandleDeleteUser 2], st1) ∧
    HandleDeleteUser sample_marshal 2 st1 = Ok ([SendBroadcast jsonData], st1) ∧
    queue_closed st1 2 = true ∧
    Run_step (receive [3; 1] (SendBroadcast jsonData)) st1 = Ok ([], st2) ∧
    queue st2 1 = [jsonData] ∧ queue st2 3 = [jsonData] ∧ queue st2 2 = [].
Proof.
  destruct (sample_marshal {| MsgType := "user-removed"; MsgData := Data sessionB |})
    as [jsonData|] eqn:Hm; [|discriminate].
  destruct (unregister_member_broadcasts_removal sample_marshal 2 sessionB
              jsonData three_sessions)
    as (st1 & Hun & Hgone & Hkeep & Hcl & _ & Hdel & Hbc).
  - apply well_formedb_spec. vm_compute. reflexivity.
  - exists true. reflexivity.
  - reflexivity.
  - exact Hm.
  - assert (Hst1 : st1 = set_heap (<[2 := shut sessionB]>)
                           (set_Clients (delete 2) three_sessions)).
    { rewrite (Run_step_Unregister_member three_sessions 2 true sessionB)
        in Hun by reflexivity. by injection Hun as <-. }
    destruct (Hbc [3; 1]) as (st2 & Hrun & Hq & Hq2 & _).
    + subst st1. apply ranges_overb_spec. vm_compute. reflexivity.
    + subst st1. apply roomb_spec. vm_compute. reflexivity.
    + exists jsonData, st1, st2. split; [done|]. split; [done|].
      split; [done|]. split; [done|]. split; [done|].
      split; [|split; [|done]].
      * rewrite Hq; [subst st1; reflexivity|].
        subst st1. exists true. vm_compute. reflexivity.
      * rewrite Hq; [subst st1; reflexivity|].
        subst st1. exists true. vm_compute. reflexivity.
Defined.

(** ** The size of the registry *)

Lemma size_list_to_set_remove_dups (l : list ptr) :
  size (list_to_set l : gset ptr) = length (remove_dups l).
Proof.
  rewrite <- (size_list_to_set (C := gset ptr) (remove_dups l))
    by apply NoDup_remove_dups.
  f_equal. apply set_eq. intros x.
  by rewrite !elem_of_list_to_set, elem_of_remove_dups.
Qed.

Lemma not_registered_again_registrations rs : ∀ (U : gset ptr) p,
  not_registered_again U rs = true → p ∈ registrations rs → p ∉ U.
Proof.
  induction rs as [|[c|c|m o] rest IH]; intros U p Hnr Hp; simpl in *.
  - by apply not_elem_of_nil in Hp.
  - apply andb_true_iff in Hnr as [Hc Hnr].
    apply elem_of_cons in Hp as [->|Hp]; [|by apply IH].
    apply negb_true_iff, bool_decide_eq_false in Hc. done.
  - specialize (IH _ p Hnr Hp). set_solver.
  - by apply IH.
Qed.

Lemma Run_cons r rest st gs st1 gs' st' :
  Run_step r st = Ok (gs, st1) → Run rest st1 = Ok (gs', st') →
  Run (r :: rest) st = Ok (gs ++ gs', st').
Proof.
  intros H1 H2. simpl. rewrite (bind_Ok _ _ _ _ _ H1).
  by rewrite (bind_Ok _ _ _ _ _ H2).
Qed.

Lemma Run_membership rs : ∀ st (R G U seen : gset ptr),
  Mutex st = unlocked →
  dom (Clients st) = R ∖ G → G ⊆ R → G ⊆ U →
  (∀ p, p ∈ registrations rs ∨ registered st p →
        ∃ c, heap st !! p = Some c ∧ closed (Send c) = false) →
  (∀ p, p ∈ seen → is_Some (heap st !! p)) →
  membership_only rs = true → not_registered_again U rs = true →
  in_temporal_order seen rs = true →
  ∃ gs st',
    Run rs st = Ok (gs, st') ∧
    dom (Clients st') =
      (R ∪ list_to_set (registrations rs)) ∖ (G ∪ list_to_set (successes gs)) ∧
    G ∪ list_to_set (successes gs) ⊆ R ∪ list_to_set (registrations rs).
Proof.
  induction rs as [|[c|c|m o] rest IH];
    intros st R G U seen Hmu Hdom HGR HGU Hopen Hseen Hmem Hnr Hord.
  - exists [], st. split; [done|]. simpl. rewrite Hdom. set_solver.
  - simpl in Hmem, Hnr, Hord. apply andb_true_iff in Hnr as [Hc Hnr].
    apply negb_true_iff, bool_decide_eq_false in Hc.
    set (st1 := set_Clients (<[c := true]>) st).
    assert (Hobj : is_Some (heap st !! c)).
    { destruct (Hopen c) as (cl & Hcl & _); [left; simpl; by left|].
      by exists cl. }
    destruct (IH st1 ({[c]} ∪ R) G U ({[c]} ∪ seen))
      as (gs & st' & Hrun & Hdom' & Hsub).
    + done.
    + simpl. rewrite dom_insert_L, Hdom. set_solver.
    + set_solver.
    + done.
    + intros p [Hp|[b Hb]].
      * apply Hopen. left. simpl. by right.
      * simpl in Hb. destruct (decide (p = c)) as [->|Hne].
        -- apply Hopen. left. simpl. by left.
        -- rewrite lookup_insert_ne in Hb by done. apply Hopen. right.
           by exists b.
    + intros p Hp. simpl. apply elem_of_union in Hp as [Hp|Hp]; [|by apply Hseen].
      apply elem_of_singleton in Hp as ->. exact Hobj.
    + done.
    + done.
    + done.
    + exists gs, st'. split.
      * apply (Run_cons _ _ _ [] st1); [by apply Run_step_Register|done].
      * simpl. rewrite Hdom'. set_solver.
  - simpl in Hmem, Hnr, Hord. apply andb_true_iff in Hord as [Hcseen Hord].
    apply bool_decide_eq_true in Hcseen.
    destruct (Clients st !! c) as [b|] eqn:Hb.
    + destruct (Hopen c) as (cl & Hcl & Hop); [right; by exists b|].
      set (st1 := set_heap (<[c := shut cl]>) (set_Clients (delete c) st)).
      assert (Hc : c ∈ R ∧ c ∉ G).
      { assert (c ∈ dom (Clients st)) by (apply elem_of_dom; by exists b).
        set_solver. }
      destruct (IH st1 R ({[c]} ∪ G) ({[c]} ∪ U) seen)
        as (gs & st' & Hrun & Hdom' & Hsub).
      * done.
      * simpl. rewrite dom_delete_L, Hdom. set_solver.
      * set_solver.
      * set_solver.
      * intros p Hp.
        assert (p ≠ c).
        { destruct Hp as [Hp|[bp Hbp]].
          - pose proof (not_registered_again_registrations _ _ _ Hnr Hp).
            set_solver.
          - simpl in Hbp. intros ->. by rewrite lookup_delete_eq in Hbp. }
        destruct (Hopen p) as (cp & Hcp & Hopp).
        { destruct Hp as [Hp|[bp Hbp]]; [by left|right].
          simpl in Hbp. rewrite lookup_delete_ne in Hbp by done. by exists bp. }
        exists cp. split; [|done]. simpl. by rewrite lookup_insert_ne.
      * intros p Hp. simpl. destruct (decide (p = c)) as [->|Hne].
        -- rewrite lookup_insert_eq. by eexists.
        -- rewrite lookup_insert_ne by done. by apply Hseen.
      * done.
      * done.
      * done.
      * exists (GoHandleDeleteUser c :: gs), st'. split.
        -- apply (Run_cons _ _ _ [GoHandleDeleteUser c] st1); [|done].
           by apply (Run_step_Unregister_member _ _ b cl).
        -- simpl. rewrite Hdom'. set_solver.
    + destruct (IH st R G ({[c]} ∪ U) seen) as (gs & st' & Hrun & Hdom' & Hsub).
      * done.
      * done.
      * done.
      * set_solver.
      * intros p Hp. apply Hopen. done.
      * done.
      * done.
      * done.
      * done.
      * exists gs, st'. split; [|done].
        apply (Run_cons _ _ _ [] st); [|done].
        apply Run_step_Unregister_absent; [done|done|by apply Hseen].
  - simpl in Hmem. discriminate.
Qed.

(** C6: for every finite sequence of register and unregister calls, from
    the new manager, in which each unregistered session was registered
    before, [Run] processes the whole sequence and the registry then holds
    as many sessions as there are distinct sessions registered minus
    distinct sessions whose unregistration took effect.  The sessions are
    the client objects [HandleWebSocketConnections] makes, with an open
    queue, and, as the program has it, none is registered again after an
    unregister call for it; a repeated register or unregister call is
    allowed and counts once. *)
Theorem registry_size_after_calls (rs : list received)
    (h : gmap ptr Client) (r : Rand) :
  membership_only rs = true → in_temporal_order ∅ rs = true →
  not_registered_again ∅ rs = true →
  fresh_sessions rs (NewWebSocketManager h r) →
  ∃ gs st',
    Run rs (NewWebSocketManager h r) = Ok (gs, st') ∧
    size (Clients st') =
    length (remove_dups (registrations rs)) - length (remove_dups (successes gs)).
Proof.
  intros Hmem Hord Hnr Hfresh.
  destruct (Run_membership rs (NewWebSocketManager h r) ∅ ∅ ∅ ∅)
    as (gs & st' & Hrun & Hdom & Hsub); try done.
  - intros p [Hp|[b Hb]]; [by apply Hfresh|]. simpl in Hb.
    by rewrite lookup_empty in Hb.
  - exists gs, st'. split; [done|].
    rewrite <- size_dom, Hdom, size_difference by done.
    rewrite !union_empty_l_L. by rewrite !size_list_to_set_remove_dups.
Qed.

Lemma registry_size_after_calls_witness :
  ∃ gs st',
    Run [RecvRegister 1; RecvRegister 2; RecvRegister 1; RecvUnregister 2;
         RecvUnregister 2; RecvRegister 3] three_connected = Ok (gs, st') ∧
    size (Clients st') = 3 - 1.
Proof.
  destruct (registry_size_after_calls
              [RecvRegister 1; RecvRegister 2; RecvRegister 1; RecvUnregister 2;
               RecvUnregister 2; RecvRegister 3] (heap three_sessions) no_draws)
    as (gs & st' & Hrun & Hsize).
  - reflexivity.
  - vm_compute. reflexivity.
  - vm_compute. reflexivity.
  - intros p Hp. simpl in Hp.
    assert (Hcases : p = 1 ∨ p = 2 ∨ p = 3) by set_solver.
    destruct Hcases as [ -> | [ -> | -> ] ]; eexists; split; reflexivity.
  - exists gs, st'. split; [exact Hrun|].
    assert (Hgs : gs = [GoHandleDeleteUser 2]).
    { unfold three_connected in *. vm_compute in Hrun. by injection Hrun as <- _. }
    subst gs. exact Hsize.
Defined.

(** ** Admission *)

Section AdmissionProperties.

Variable marshal : Message → option bytes.

Lemma existing_users_insert self h client c c' order :
  h !! client = Some c → ID c' = ID c → Data c' = Data c →
  existing_users marshal self (<[client := c']> h) order
  = existing_users marshal self h order.
Proof.
  intros Hc Hid Hdata. induction order as [|p rest IH]; [done|].
  simpl. destruct (decide (p = client)) as [->|Hne].
  - rewrite lookup_insert_eq, Hc, Hid, Hdata, IH. done.
  - rewrite lookup_insert_ne by done. by rewrite IH.
Qed.

Lemma existing_users_length self h order :
  length (existing_users marshal self h order) ≤ length order.
Proof.
  induction order as [|p rest IH]; simpl; [lia|].
  destruct (h !! p) as [e|]; [|lia].
  destruct (String.eqb (ID e) self); [lia|].
  destruct (marshal _); simpl; lia.
Qed.

Lemma existing_users_listed self h order :
  Forall2 (announces marshal h) (filter (listed marshal self h) order)
          (existing_users marshal self h order).
Proof.
  induction order as [|p rest IH]; [constructor|].
  simpl. destruct (h !! p) as [e|] eqn:He.
  - destruct (String.eqb (ID e) self) eqn:Hid.
    + apply String.eqb_eq in Hid. rewrite filter_cons_False; [done|].
      unfold listed. rewrite He. by intros [? _].
    + apply String.eqb_neq in Hid.
      destruct (marshal {| MsgType := "user-added"; MsgData := Data e |})
        as [m|] eqn:Hm.
      * rewrite filter_cons_True.
        -- constructor; [|done]. by exists e.
        -- unfold listed. rewrite He, Hm. by split.
      * rewrite filter_cons_False; [done|].
        unfold listed. rewrite He, Hm. by intros [_ [? ?]].
  - rewrite filter_cons_False; [done|]. unfold listed. rewrite He. tauto.
Qed.

Lemma set_heap_insert_insert st p (c c' : Client) :
  set_heap (<[p := c']>) (set_heap (<[p := c]>) st) = set_heap (<[p := c']>) st.
Proof.
  destruct st as [cs mu h r]. unfold set_heap. simpl. f_equal.
  apply insert_insert_eq.
Qed.

Lemma HandleUserData_range_eval client cS order : ∀ st q,
  heap st !! client = Some (set_Send {| buf := q; closed := false |} cS) →
  (∀ p, p ∈ order → registered st p ∧ is_Some (heap st !! p)) →
  length q + length (existing_users marshal (ID cS) (heap st) order) ≤ SendCap →
  HandleUserData_range marshal client order st
  = Ok (tt, set_heap
              (<[client :=
                   set_Send {| buf := q ++ existing_users marshal (ID cS) (heap st) order;
                               closed := false |} cS]>) st).
Proof.
  induction order as [|p rest IH]; intros st q Hc Hreg Hlen.
  - simpl. rewrite app_nil_r. unfold ret. do 2 f_equal.
    destruct st as [cs mu h r]. unfold set_heap. simpl in *. f_equal.
    symmetry. by apply insert_id.
  - destruct (Hreg p) as [[b Hb] [e He]]; [left|].
    assert (Hrest : ∀ p', p' ∈ rest → registered st p' ∧ is_Some (heap st !! p'))
      by (intros p' Hp'; apply Hreg; by right).
    simpl in Hlen |- *. rewrite He in Hlen |- *.
    erewrite bind_Ok; [|reflexivity]. rewrite Hb.
    rewrite (bind_Ok _ _ _ _ _ (deref_eval _ _ _ He)).
    rewrite (bind_Ok _ _ _ _ _ (deref_eval _ _ _ Hc)).
    simpl. destruct (String.eqb (ID e) (ID cS)); [by apply IH|].
    destruct (marshal {| MsgType := "user-added"; MsgData := Data e |})
      as [m|]; [|by apply IH].
    simpl in Hlen.
    erewrite bind_Ok; [|apply (send_room _ _ _ _ Hc); [done|simpl; lia]].
    set (c1 := set_Send {| buf := q ++ [m]; closed := false |} cS).
    set (st1 := set_heap (<[client := enqueue m _]>) st).
    assert (Hh1 : heap st1 !! client = Some c1)
      by (simpl; by rewrite lookup_insert_eq).
    assert (Heq : existing_users marshal (ID cS) (heap st1) rest
                  = existing_users marshal (ID cS) (heap st) rest)
      by (by apply (existing_users_insert _ _ _ _ _ _ Hc)).
    rewrite (IH st1 (q ++ [m])).
    + rewrite Heq. unfold st1. rewrite set_heap_insert_insert.
      by rewrite <- app_assoc.
    + exact Hh1.
    + intros p' Hp'. destruct (Hrest p' Hp') as [Hr [e' He']].
      split; [done|]. simpl. destruct (decide (p' = client)) as [->|Hne].
      * rewrite lookup_insert_eq. eauto.
      * rewrite lookup_insert_ne by done. eauto.
    + rewrite Heq, length_app. simpl. lia.
Qed.

(** [HandleUserData] when the user-data message does not serialize. *)
Lemma HandleUserData_unserializable client c order st :
  heap st !! client = Some c →
  marshal {| MsgType := "user-data"; MsgData := Data c |} = None →
  HandleUserData marshal client order st = Ok ([], st).
Proof.
  intros Hc Hm. unfold HandleUserData.
  rewrite (bind_Ok _ _ _ _ _ (deref_eval _ _ _ Hc)). by rewrite Hm.
Qed.

(** [HandleUserData] when the user-data message serializes. *)
Lemma HandleUserData_eval client c jsonData order st :
  well_formed st → registered st client → heap st !! client = Some c →
  (∀ p, p ∈ order → registered st p) →
  marshal {| MsgType := "user-data"; MsgData := Data c |} = Some jsonData →
  length (buf (Send c)) + 1 + length order ≤ SendCap →
  HandleUserData marshal client order st
  = Ok (match marshal {| MsgType := "user-added"; MsgData := Data c |} with
        | Some newUserData => [SendBroadcast newUserData]
        | None => []
        end,
        set_heap
          (<[client :=
               set_Send {| buf := buf (Send c) ++ [jsonData]
                                  ++ existing_users marshal (ID c) (heap st) order;
                           closed := false |} c]>) st).
Proof.
  intros [Hmu Hwf] Hreg Hc Horder Hm Hlen.
  destruct (Hwf client Hreg) as (c' & Hc' & Hopen).
  assert (c' = c) by congruence. subst c'.
  pose proof (existing_users_length (ID c) (heap st) order) as Hle.
  unfold HandleUserData.
  rewrite (bind_Ok _ _ _ _ _ (deref_eval _ _ _ Hc)). rewrite Hm.
  erewrite bind_Ok; [|apply (send_room _ _ _ _ Hc); [done|lia]].
  set (c1 := enqueue jsonData c).
  set (st1 := set_heap (<[client := c1]>) st).
  erewrite bind_Ok; [|apply (RLock_eval _ 0); exact Hmu].
  set (st2 := set_Mutex _ st1).
  assert (Heq : existing_users marshal (ID c) (heap st2) order
                = existing_users marshal (ID c) (heap st) order)
    by (by apply (existing_users_insert _ _ _ _ _ _ Hc)).
  erewrite bind_Ok.
  2:{ apply (HandleUserData_range_eval client c order st2
               (buf (Send c) ++ [jsonData])).
      - simpl. by rewrite lookup_insert_eq.
      - intros p Hp. split; [by apply Horder|].
        destruct (Hwf p (Horder p Hp)) as (cp & Hcp & _). simpl.
        destruct (decide (p = client)) as [->|Hne].
        + rewrite lookup_insert_eq. eauto.
        + rewrite lookup_insert_ne by done. eauto.
      - rewrite Heq, length_app. simpl. lia. }
  rewrite Heq.
  erewrite bind_Ok; [|apply (RUnlock_eval _ 0 false); reflexivity].
  erewrite bind_Ok.
  2:{ apply deref_eval. simpl. apply lookup_insert_eq. }
  simpl. rewrite <- app_assoc.
  destruct st as [cs mu h r]. simpl in *. subst mu.
  unfold set_heap, set_Mutex. simpl. rewrite insert_insert_eq.
  by destruct (marshal {| MsgType := "user-added"; MsgData := Data c |}).
Qed.

Lemma ranges_over_length order st :
  ranges_over order st → length order = size (Clients st).
Proof.
  intros [Hnd Hkeys]. rewrite <- size_dom.
  rewrite <- (size_list_to_set (C := gset ptr) order) by done.
  f_equal. apply set_eq. intros p.
  by rewrite elem_of_list_to_set, elem_of_dom, Hkeys.
Qed.


(** C3, as the code has it.  In the admission of [S], when every message
    serializes and the queues have room, [S] gets exactly one user-data
    envelope about itself, then exactly one user-added envelope for each
    registered session whose identifier differs from that of [S] (in the
    order of the range loop), then the announcement about itself; every
    other registered session gets exactly the announcement; the registry
    is unchanged.  Before the announcement is delivered the queue of [S]
    already holds the user-data envelope and the per-peer envelopes. *)
Theorem admission_sequence (S : ptr) (cS : Client) (ud ua : bytes)
    (order1 order2 : list ptr) (st : State) :
  well_formed st → ranges_over order1 st → ranges_over order2 st →
  registered st S → heap st !! S = Some cS →
  marshal {| MsgType := "user-data"; MsgData := Data cS |} = Some ud →
  marshal {| MsgType := "user-added"; MsgData := Data cS |} = Some ua →
  (∀ p c, registered st p → heap st !! p = Some c →
     is_Some (marshal {| MsgType := "user-added"; MsgData := Data c |})) →
  length (queue st S) + size (Clients st) + 2 ≤ SendCap →
  (∀ p, registered st p → p ≠ S → ¬ full st p) →
  ∃ st1 st2 peers items,
    HandleUserData marshal S order1 st = Ok ([SendBroadcast ua], st1) ∧
    Run_step (receive order2 (SendBroadcast ua)) st1 = Ok ([], st2) ∧
    NoDup peers ∧
    (∀ p, p ∈ peers ↔
          registered st p ∧ ∃ c, heap st !! p = Some c ∧ ID c ≠ ID cS) ∧
    Forall2 (announces marshal (heap st)) peers items ∧
    queue st1 S = queue st S ++ [ud] ++ items ∧
    queue st2 S = queue st S ++ [ud] ++ items ++ [ua] ∧
    (∀ p, registered st p → p ≠ S → queue st2 p = queue st p ++ [ua]) ∧
    Clients st2 = Clients st.
Proof.
  intros Hwf Hro1 Hro2 Hreg Hc Hud Hua Hser Hlen Hroom.
  pose proof (ranges_over_length _ _ Hro1) as Hlen1.
  pose proof (existing_users_length (ID cS) (heap st) order1) as Hle.
  set (items := existing_users marshal (ID cS) (heap st) order1) in *.
  set (c1 := set_Send {| buf := buf (Send cS) ++ [ud] ++ items;
                         closed := false |} cS).
  set (st1 := set_heap (<[S := c1]>) st).
  assert (HqS : queue st S = buf (Send cS)) by (unfold queue; by rewrite Hc).
  assert (Hrun1 : HandleUserData marshal S order1 st = Ok ([SendBroadcast ua], st1)).
  { rewrite (HandleUserData_eval S cS ud order1 st); try done.
    - by rewrite Hua.
    - intros p Hp. by apply Hro1.
    - rewrite <- HqS. lia. }
  assert (Hq1S : queue st1 S = queue st S ++ [ud] ++ items).
  { unfold queue at 1. simpl. by rewrite lookup_insert_eq, HqS. }
  assert (Hq1 : ∀ p, p ≠ S → queue st1 p = queue st p).
  { intros p Hne. unfold queue. simpl. by rewrite lookup_insert_ne. }
  assert (Hwf1 : well_formed st1).
  { destruct Hwf as [Hmu Hwf]. split; [done|]. intros p Hp.
    destruct (decide (p = S)) as [->|Hne].
    - exists c1. split; [|done]. simpl. by rewrite lookup_insert_eq.
    - destruct (Hwf p Hp) as (cp & Hcp & Hop). exists cp. split; [|done].
      simpl. by rewrite lookup_insert_ne. }
  assert (Hroom1 : ∀ p, registered st1 p → ¬ full st1 p).
  { intros p Hp. unfold full. destruct (decide (p = S)) as [->|Hne].
    - rewrite Hq1S, !length_app. simpl. lia.
    - rewrite Hq1 by done. by apply Hroom. }
  destruct (broadcast_fanout ua order2 st1 Hwf1 Hro2 Hroom1)
    as (st2 & Hrun2 & Hcs & Hq2 & _).
  exists st1, st2, (filter (listed marshal (ID cS) (heap st)) order1), items.
  split; [done|]. split; [by apply Run_step_Broadcast|].
  split; [apply NoDup_filter, Hro1|]. split.
  { intros p. rewrite list_elem_of_filter. destruct Hro1 as [_ Hkeys].
    rewrite Hkeys. unfold listed. split.
    - intros [Hl Hp]. split; [done|].
      destruct (heap st !! p) as [e|]; [|done]. exists e. by destruct Hl.
    - intros [Hp (e & He & Hid)]. split; [|done]. rewrite He.
      split; [done|]. by apply (Hser p). }
  split; [apply existing_users_listed|]. split; [done|]. split.
  { rewrite (Hq2 S Hreg), Hq1S. by rewrite <- !app_assoc. }
  split; [|done].
  intros p Hp Hne. rewrite (Hq2 p Hp). by rewrite Hq1.
Qed.

End AdmissionProperties.

Lemma sample_marshal_total m : is_Some (sample_marshal m).
Proof. unfold sample_marshal. eexists. reflexivity. Qed.

Lemma admission_sequence_witness :
  ∃ ud ua st1 st2 peers items,
    HandleUserData sample_marshal 1 [3; 1; 2] three_sessions
      = Ok ([SendBroadcast ua], st1) ∧
    Run_step (receive [2; 3; 1] (SendBroadcast ua)) st1 = Ok ([], st2) ∧
    NoDup peers ∧
    (∀ p, p ∈ peers ↔
          registered three_sessions p ∧
          ∃ c, heap three_sessions !! p = Some c ∧ ID c ≠ ID sessionA) ∧
    Forall2 (announces sample_marshal (heap three_sessions)) peers items ∧
    queue st1 1 = queue three_sessions 1 ++ [ud] ++ items ∧
    queue st2 1 = queue three_sessions 1 ++ [ud] ++ items ++ [ua] ∧
    (∀ p, registered three_sessions p → p ≠ 1 →
          queue st2 p = queue three_sessions p ++ [ua]) ∧
    Clients st2 = Clients three_sessions.
Proof.
  destruct (sample_marshal {| MsgType := "user-data"; MsgData := Data sessionA |})
    as [ud|] eqn:Hud; [|discriminate].
  destruct (sample_marshal {| MsgType := "user-added"; MsgData := Data sessionA |})
    as [ua|] eqn:Hua; [|discriminate].
  exists ud, ua.
  apply (admission_sequence sample_marshal 1 sessionA ud ua [3; 1; 2] [2; 3; 1]
           three_sessions).
  - apply well_formedb_spec. vm_compute. reflexivity.
  - apply ranges_overb_spec. vm_compute. reflexivity.
  - apply ranges_overb_spec. vm_compute. reflexivity.
  - exists true. reflexivity.
  - reflexivity.
  - exact Hud.
  - exact Hua.
  - intros p c _ _. apply sample_marshal_total.
  - vm_compute. lia.
  - intros p Hp _. revert p Hp. apply roomb_spec. vm_compute. reflexivity.
Defined.

(** C3, as the specification words it, fails: a registered session that
    shares the identifier of the new one is not listed to it. *)
Lemma colliding_peer_is_not_listed :
  ¬ every_peer_is_listed sample_marshal 1 [1; 2] same_address.
Proof.
  intros H.
  destruct (HandleUserData sample_marshal 1 [1; 2] same_address)
    as [[rq st1]| |] eqn:E; [|vm_compute in E; discriminate..].
  specialize (H _ _ E).
  vm_compute in E. injection E as <- <-. vm_compute in H. discriminate.
Qed.


(** ** Identity assignment *)

Lemma Intn_eval n st :
  Intn (S n) st
  = Ok (draws (rand st) (consumed (rand st)) mod S n, set_rand (drawn (rand st)) st).
Proof. reflexivity. Qed.

Lemma GetRandomName_eval st :
  ∃ name,
    randomNames !! (draws (rand st) (consumed (rand st)) mod 5) = Some name ∧
    GetRandomName st = Ok (name, set_rand (drawn (rand st)) st).
Proof.
  destruct (lookup_lt_is_Some_2 randomNames
              (draws (rand st) (consumed (rand st)) mod 5)) as [name Hn].
  { change (length randomNames) with 5. apply Nat.mod_upper_bound. lia. }
  exists name. split; [done|].
  unfold GetRandomName. change (length randomNames) with 5.
  rewrite (bind_Ok _ _ _ _ _ (Intn_eval 4 st)). by rewrite Hn.
Qed.

Lemma GetRandomColor_eval st :
  GetRandomColor st
  = Ok (Sprintf_hsl (draws (rand st) (consumed (rand st)) mod 360),
        set_rand (drawn (rand st)) st).
Proof.
  unfold GetRandomColor. by rewrite (bind_Ok _ _ _ _ _ (Intn_eval 359 st)).
Qed.

(** C8, as the code has it: the identity assignment takes no request and
    reads the random source of the process.  In every state [GetRandomName]
    returns the entry of the pool of five names selected by the next draw
    modulo 5 and [GetRandomColor] returns the hsl text whose hue is the next
    draw modulo 360, a number below 360; each consumes one draw, so a later
    invocation reads another draw. *)
Theorem identity_from_random_source (st : State) :
  let r := rand st in
  let d := draws r (consumed r) in
  ∃ name,
    randomNames !! (d mod 5) = Some name ∧ name ∈ randomNames ∧
    GetRandomName st = Ok (name, set_rand (drawn r) st) ∧
    d mod 360 < 360 ∧
    GetRandomColor st = Ok (Sprintf_hsl (d mod 360), set_rand (drawn r) st).
Proof.
  cbv zeta. destruct (GetRandomName_eval st) as (name & Hn & Hrun).
  exists name. split; [done|]. split; [by eapply list_elem_of_lookup_2|].
  split; [done|]. split; [apply Nat.mod_upper_bound; lia|].
  apply GetRandomColor_eval.
Qed.

(** C8, as the specification words it, fails: two assignments in a row
    yield different names and different colors. *)
Lemma second_assignment_differs :
  ¬ assignment_is_pure (NewWebSocketManager ∅ no_draws).
Proof.
  intros H.
  destruct (H _ _ _ _ _ _ _ _ eq_refl eq_refl eq_refl eq_refl) as [Hname _].
  vm_compute in Hname. discriminate.
Qed.

(** ** Identities are never mutated *)

Lemma bind_inv {A B : Type} (m : M A) (f : A → M B) st b st' :
  bind m f st = Ok (b, st') →
  ∃ a st1, m st = Ok (a, st1) ∧ f a st1 = Ok (b, st').
Proof.
  unfold bind. destruct (m st) as [[a st1]| |]; [|done..]. eauto.
Qed.

Lemma same_identities_refl st : same_identities st st.
Proof. intros p c Hc. eauto. Qed.

Lemma same_identities_trans st1 st2 st3 :
  same_identities st1 st2 → same_identities st2 st3 → same_identities st1 st3.
Proof.
  intros H12 H23 p c Hc. destruct (H12 p c Hc) as (c2 & Hc2 & Hid & Hdata).
  destruct (H23 p c2 Hc2) as (c3 & Hc3 & Hid3 & Hdata3).
  exists c3. split; [done|]. split; congruence.
Qed.

Lemma preserves_ret {A : Type} (a : A) : preserves (ret a).
Proof. intros st a' st' [= <- <-]. apply same_identities_refl. Qed.

Lemma preserves_panic {A : Type} why : preserves (@panic A why).
Proof. intros st a st' H. discriminate. Qed.

Lemma preserves_block {A : Type} : preserves (@block A).
Proof. intros st a st' H. discriminate. Qed.

Lemma preserves_gets {A : Type} (f : State → A) : preserves (gets f).
Proof. intros st a st' [= <- <-]. apply same_identities_refl. Qed.

Lemma preserves_bind {A B : Type} (m : M A) (f : A → M B) :
  preserves m → (∀ a, preserves (f a)) → preserves (bind m f).
Proof.
  intros Hm Hf st b st' H. apply bind_inv in H as (a & st1 & H1 & H2).
  eapply same_identities_trans; [by eapply Hm|by eapply Hf].
Qed.

Lemma same_identities_heap st st' : heap st' = heap st → same_identities st st'.
Proof. intros Hh p c Hc. rewrite Hh. eauto. Qed.

Lemma preserves_set_Mutex mu : preserves (modify (set_Mutex mu)).
Proof. intros st a st' [= <- <-]. by apply same_identities_heap. Qed.

Lemma preserves_set_Clients f : preserves (modify (set_Clients f)).
Proof. intros st a st' [= <- <-]. by apply same_identities_heap. Qed.

Lemma preserves_set_rand r : preserves (modify (set_rand r)).
Proof. intros st a st' [= <- <-]. by apply same_identities_heap. Qed.

Lemma preserves_store_Send p ch : preserves (store_Send p ch).
Proof.
  intros st a st' [= <- <-] q c Hc. simpl.
  destruct (decide (p = q)) as [->|Hne].
  - rewrite lookup_alter_eq, Hc. simpl. eauto.
  - rewrite lookup_alter_ne by done. eauto.
Qed.

Lemma preserves_new c : preserves (new c).
Proof.
  intros st a st' H. unfold new, bind, gets, modify, ret in H.
  injection H as <- <-. intros q cq Hq. simpl.
  assert (fresh (dom (heap st)) ≠ q).
  { intros <-. apply (is_fresh (dom (heap st))). apply elem_of_dom. eauto. }
  rewrite lookup_insert_ne by done. eauto.
Qed.

Create HintDb identities.

#[local] Hint Resolve preserves_ret preserves_panic preserves_block
  preserves_gets preserves_set_Mutex preserves_set_Clients preserves_set_rand
  preserves_store_Send preserves_new : identities.

(** Goes through the binds and the case distinctions of a handler. *)
Ltac preserve :=
  repeat first
    [ progress auto with identities
    | apply preserves_bind; [|intros ?]
    | match goal with
      | |- preserves (match ?x with _ => _ end) => destruct x
      end ].

Lemma preserves_Lock : preserves Lock.
Proof. unfold Lock. preserve. Qed.

Lemma preserves_Unlock : preserves Unlock.
Proof. unfold Unlock. preserve. Qed.

Lemma preserves_RLock : preserves RLock.
Proof. unfold RLock. preserve. Qed.

Lemma preserves_RUnlock : preserves RUnlock.
Proof. unfold RUnlock. preserve. Qed.

Lemma preserves_deref p : preserves (deref p).
Proof. unfold deref. preserve. Qed.

#[local] Hint Resolve preserves_Lock preserves_Unlock preserves_RLock
  preserves_RUnlock preserves_deref : identities.

Lemma preserves_try_send p m : preserves (try_send p m).
Proof. unfold try_send. preserve. Qed.

Lemma preserves_send p m : preserves (send p m).
Proof. unfold send. preserve. Qed.

Lemma preserves_close p : preserves (close p).
Proof. unfold close. preserve. Qed.

Lemma preserves_Intn n : preserves (Intn n).
Proof. unfold Intn. preserve. Qed.

#[local] Hint Resolve preserves_try_send preserves_send preserves_close
  preserves_Intn : identities.

Lemma preserves_GetRandomName : preserves GetRandomName.
Proof. unfold GetRandomName. preserve. Qed.

Lemma preserves_GetRandomColor : preserves GetRandomColor.
Proof. unfold GetRandomColor. preserve. Qed.

#[local] Hint Resolve preserves_GetRandomName preserves_GetRandomColor : identities.

Lemma preserves_BroadcastToAllClients_range message order :
  preserves (BroadcastToAllClients_range message order).
Proof. induction order as [|p rest IH]; simpl; preserve. Qed.

#[local] Hint Resolve preserves_BroadcastToAllClients_range : identities.

Lemma preserves_BroadcastToAllClients message order :
  preserves (BroadcastToAllClients message order).
Proof. unfold BroadcastToAllClients. preserve. Qed.

#[local] Hint Resolve preserves_BroadcastToAllClients : identities.

Lemma preserves_Run_step r : preserves (Run_step r).
Proof. destruct r; simpl; preserve. Qed.

Lemma preserves_HandleWebSocketConnections RemoteAddr upgraded :
  preserves (HandleWebSocketConnections RemoteAddr upgraded).
Proof. unfold HandleWebSocketConnections. preserve. Qed.

Lemma preserves_HandleClientWrite_turn client write_ok :
  preserves (HandleClientWrite_turn client write_ok).
Proof. unfold HandleClientWrite_turn. preserve. Qed.

#[local] Hint Resolve preserves_Run_step preserves_HandleWebSocketConnections
  preserves_HandleClientWrite_turn : identities.

Section IdentityProperties.

Variable marshal : Message → option bytes.

Lemma preserves_HandleDeleteUser client : preserves (HandleDeleteUser marshal client).
Proof. unfold HandleDeleteUser. preserve. Qed.

Lemma preserves_HandleUserData_range client order :
  preserves (HandleUserData_range marshal client order).
Proof. induction order as [|p rest IH]; simpl; preserve. Qed.

Hint Resolve preserves_HandleDeleteUser preserves_HandleUserData_range : identities.

Lemma preserves_HandleUserData client order :
  preserves (HandleUserData marshal client order).
Proof. unfold HandleUserData. preserve. Qed.

Hint Resolve preserves_HandleUserData : identities.

Lemma preserves_exec o : preserves (exec marshal o).
Proof. destruct o; simpl; preserve. Qed.

Hint Resolve preserves_exec : identities.

Lemma preserves_exec_all os : preserves (exec_all marshal os).
Proof. induction os as [|o rest IH]; simpl; preserve. Qed.

Lemma deref_inv p st c st' :
  deref p st = Ok (c, st') → st' = st ∧ heap st !! p = Some c.
Proof.
  unfold deref, bind, gets, ret, panic. destruct (heap st !! p); [|done].
  by intros [= <- <-].
Qed.

Lemma send_inv p m st st' :
  send p m st = Ok (tt, st') → queue st' p = queue st p ++ [m].
Proof.
  unfold send. intros H. apply bind_inv in H as (c & st1 & Hd & H).
  apply deref_inv in Hd as [-> Hc].
  destruct (closed (Send c)); [done|].
  destruct (Nat.ltb _ _); [|done].
  injection H as <-. unfold queue. simpl.
  by rewrite lookup_alter_eq, Hc.
Qed.

Lemma HandleUserData_range_appends client order : ∀ st st',
  HandleUserData_range marshal client order st = Ok (tt, st') →
  ∃ items, queue st' client = queue st client ++ items.
Proof.
  induction order as [|p rest IH]; intros st st' H; simpl in H.
  - injection H as <-. exists []. by rewrite app_nil_r.
  - apply bind_inv in H as (cs & st0 & Hg & H). injection Hg as <- <-.
    destruct (Clients st !! p); [|by apply IH].
    apply bind_inv in H as (e & st1 & He & H). apply deref_inv in He as [-> He].
    apply bind_inv in H as (c & st1 & Hc & H). apply deref_inv in Hc as [-> Hc].
    destruct (String.eqb (ID e) (ID c)); [by apply IH|].
    destruct (marshal _) as [m|]; [|by apply IH].
    apply bind_inv in H as ([] & st1 & Hs & H).
    apply send_inv in Hs. destruct (IH _ _ H) as [items Hi].
    exists (m :: items). by rewrite Hi, Hs, <- app_assoc.
Qed.

Lemma HandleUserData_envelopes client c order st sends st' :
  heap st !! client = Some c →
  HandleUserData marshal client order st = Ok (sends, st') →
  (marshal {| MsgType := "user-data"; MsgData := Data c |} = None ∧
   sends = [] ∧ st' = st) ∨
  (∃ ud items,
     marshal {| MsgType := "user-data"; MsgData := Data c |} = Some ud ∧
     queue st' client = queue st client ++ ud :: items ∧
     sends = match marshal {| MsgType := "user-added"; MsgData := Data c |} with
             | Some ua => [SendBroadcast ua]
             | None => []
             end).
Proof.
  intros Hc H. unfold HandleUserData in H.
  rewrite (bind_Ok _ _ _ _ _ (deref_eval _ _ _ Hc)) in H.
  destruct (marshal {| MsgType := "user-data"; MsgData := Data c |}) as [ud|];
    [right|left; by injection H as <- <-].
  apply bind_inv in H as ([] & st1 & Hs & H).
  pose proof (preserves_send _ _ _ _ _ Hs client c Hc) as (c1 & Hc1 & _ & Hd1).
  apply send_inv in Hs.
  apply bind_inv in H as ([] & st2 & Hl & H).
  pose proof (preserves_RLock _ _ _ Hl client c1 Hc1) as (c2 & Hc2 & _ & Hd2).
  assert (Hq2 : queue st2 client = queue st1 client).
  { unfold RLock, bind, gets in Hl. destruct (writer (Mutex st1)); [done|].
    by injection Hl as <-. }
  apply bind_inv in H as ([] & st3 & Hr & H).
  pose proof (preserves_HandleUserData_range _ _ _ _ _ Hr client c2 Hc2)
    as (c3 & Hc3 & _ & Hd3).
  apply HandleUserData_range_appends in Hr as [items Hi].
  apply bind_inv in H as ([] & st4 & Hu & H).
  pose proof (preserves_RUnlock _ _ _ Hu client c3 Hc3) as (c4 & Hc4 & _ & Hd4).
  assert (Hq4 : queue st4 client = queue st3 client).
  { unfold RUnlock, bind, gets in Hu. destruct (readers (Mutex st3)); [done|].
    by injection Hu as <-. }
  apply bind_inv in H as (c5 & st5 & Hd & H).
  apply deref_inv in Hd as [-> Hc5].
  assert (c5 = c4) by congruence. subst c5.
  assert (Hdata : Data c4 = Data c) by congruence. rewrite Hdata in H.
  exists ud, items. split; [done|]. split.
  - destruct (marshal {| MsgType := "user-added"; MsgData := Data c |});
      injection H as <- <-;
      by rewrite Hq4, Hi, Hq2, Hs, <- app_assoc.
  - by destruct (marshal {| MsgType := "user-added"; MsgData := Data c |});
      injection H as <- <-.
Qed.

Lemma HandleWebSocketConnections_eval RemoteAddr st :
  ∃ userName userColor,
    userName ∈ randomNames ∧
    let client := fresh (dom (heap st)) in
    HandleWebSocketConnections RemoteAddr true st
    = Ok ((Some client, [SendRegister client],
           [GoHandleClientRead client; GoHandleClientWrite client;
            GoHandleUserData client]),
          set_heap (<[client := {| Send := make_chan; ID := RemoteAddr;
                                   Data := identity RemoteAddr userName userColor |}]>)
                   (set_rand (drawn (drawn (rand st))) st)).
Proof.
  destruct (GetRandomName_eval st) as (userName & Hn & Hname).
  eexists userName, _. split; [by eapply list_elem_of_lookup_2|].
  cbv zeta. unfold HandleWebSocketConnections.
  rewrite (bind_Ok _ _ _ _ _ Hname).
  rewrite (bind_Ok _ _ _ _ _ (GetRandomColor_eval _)).
  reflexivity.
Qed.

(** C9: the identifier and the identity map of a session are set when
    [HandleWebSocketConnections] creates its object, at an address that
    held no object before, and no later operation of the program changes
    them; the user-removed, user-added and user-data envelopes built about
    the session afterwards carry exactly that identity map. *)
Theorem identity_assigned_once (RemoteAddr : string) (os : list op)
    (client : ptr) (rq : list request) (gs : list goroutine)
    (st st1 st2 : State) :
  HandleWebSocketConnections RemoteAddr true st = Ok ((Some client, rq, gs), st1) →
  exec_all marshal os st1 = Ok (tt, st2) →
  ∃ userName userColor c1 c2,
    let data := identity RemoteAddr userName userColor in
    userName ∈ randomNames ∧
    heap st !! client = None ∧
    heap st1 !! client = Some c1 ∧ ID c1 = RemoteAddr ∧ Data c1 = data ∧
    heap st2 !! client = Some c2 ∧ ID c2 = RemoteAddr ∧ Data c2 = data ∧
    HandleDeleteUser marshal client st2
    = Ok (match marshal {| MsgType := "user-removed"; MsgData := data |} with
          | Some m => [SendBroadcast m]
          | None => []
          end, st2) ∧
    (∀ m, announces marshal (heap st2) client m ↔
          marshal {| MsgType := "user-added"; MsgData := data |} = Some m) ∧
    (∀ order sends st3,
       HandleUserData marshal client order st2 = Ok (sends, st3) →
       (marshal {| MsgType := "user-data"; MsgData := data |} = None ∧
        sends = [] ∧ st3 = st2) ∨
       (∃ ud items,
          marshal {| MsgType := "user-data"; MsgData := data |} = Some ud ∧
          queue st3 client = queue st2 client ++ ud :: items ∧
          sends = match marshal {| MsgType := "user-added"; MsgData := data |} with
                  | Some ua => [SendBroadcast ua]
                  | None => []
                  end)).
Proof.
  intros Hadm Hexec.
  destruct (HandleWebSocketConnections_eval RemoteAddr st)
    as (userName & userColor & Hname & Heval).
  cbv zeta in Heval. rewrite Heval in Hadm. injection Hadm as <- _ _ <-.
  set (client := fresh (dom (heap st))) in *.
  set (c1 := {| Send := make_chan; ID := RemoteAddr;
                Data := identity RemoteAddr userName userColor |}).
  assert (Hc1 : heap (set_heap (<[client := c1]>)
                        (set_rand (drawn (drawn (rand st))) st)) !! client
                = Some c1) by (simpl; apply lookup_insert_eq).
  destruct (preserves_exec_all os _ _ _ Hexec client c1 Hc1)
    as (c2 & Hc2 & Hid & Hdata).
  exists userName, userColor, c1, c2. cbv zeta.
  split; [done|]. split.
  { apply not_elem_of_dom. apply is_fresh. }
  split; [done|]. split; [done|]. split; [done|].
  split; [done|]. split; [done|]. split; [done|]. split.
  { rewrite (HandleDeleteUser_eval marshal _ _ _ Hc2). by rewrite Hdata. }
  split.
  { intros m. unfold announces. split.
    - intros (e & He & Hm). assert (e = c2) by congruence. subst e.
      by rewrite Hdata in Hm.
    - intros Hm. exists c2. split; [done|]. by rewrite Hdata. }
  intros order sends st3 Hrun.
  pose proof (HandleUserData_envelopes client c2 order st2 sends st3 Hc2 Hrun) as H.
  by rewrite Hdata in H.
Qed.

End IdentityProperties.

Lemma identity_assigned_once_witness :
  ∃ st1 st2 userName userColor c2,
    HandleWebSocketConnections "10.0.0.4:5004" true three_sessions
    = Ok ((Some 4, [SendRegister 4],
           [GoHandleClientRead 4; GoHandleClientWrite 4; GoHandleUserData 4]), st1) ∧
    exec_all sample_marshal scenario st1 = Ok (tt, st2) ∧
    heap st2 !! 4 = Some c2 ∧ ID c2 = "10.0.0.4:5004" ∧
    Data c2 = identity "10.0.0.4:5004" userName userColor ∧
    queue_closed st2 4 = true.
Proof.
  destruct (HandleWebSocketConnections "10.0.0.4:5004" true three_sessions)
    as [[[[oc rq] gs] st1]| |] eqn:E; [|vm_compute in E; discriminate..].
  assert (Hres : oc = Some 4 ∧ rq = [SendRegister 4] ∧
                 gs = [GoHandleClientRead 4; GoHandleClientWrite 4;
                       GoHandleUserData 4]).
  { pose proof E as E'. vm_compute in E'. by injection E' as <- <- <- _. }
  destruct Hres as (-> & -> & ->).
  destruct (exec_all sample_marshal scenario st1) as [[[] st2]| |] eqn:E2.
  - destruct (identity_assigned_once sample_marshal "10.0.0.4:5004" scenario 4
                _ _ three_sessions st1 st2 E E2)
      as (userName & userColor & c1 & c2 & _ & _ & _ & _ & _ & H2 & Hid & Hdata & _).
    exists st1, st2, userName, userColor, c2.
    split; [done|]. split; [done|]. split; [done|]. split; [done|].
    split; [done|].
    vm_compute in E. injection E as <-. vm_compute in E2. by injection E2 as <-.
  - exfalso. vm_compute in E. injection E as <-. vm_compute in E2. discriminate.
  - exfalso. vm_compute in E. injection E as <-. vm_compute in E2. discriminate.
Defined.

(** ** Reachable states are well formed *)

Lemma frames_ret {A : Type} (a : A) : frames (ret a).
Proof. intros st a' st' [= <- <-]. eauto. Qed.

Lemma frames_gets {A : Type} (f : State → A) : frames (gets f).
Proof. intros st a st' [= <- <-]. eauto. Qed.

Lemma frames_panic {A : Type} why : frames (@panic A why).
Proof. intros st a st' H. discriminate. Qed.

Lemma frames_block {A : Type} : frames (@block A).
Proof. intros st a st' H. discriminate. Qed.

Lemma frames_bind {A B : Type} (m : M A) (f : A → M B) :
  frames m → (∀ a, frames (f a)) → frames (bind m f).
Proof.
  intros Hm Hf st b st' H. apply bind_inv in H as (a & st1 & H1 & H2).
  destruct (Hm _ _ _ H1) as (Hc1 & Hm1 & Hh1).
  destruct (Hf _ _ _ _ H2) as (Hc2 & Hm2 & Hh2).
  split; [congruence|]. split; [congruence|].
  intros p c Hp. destruct (Hh1 p c Hp) as (c1 & Hp1 & Hcl1).
  destruct (Hh2 p c1 Hp1) as (c2 & Hp2 & Hcl2).
  exists c2. split; [done|]. congruence.
Qed.

Lemma frames_store_Send p ch c :
  closed ch = closed (Send c) →
  ∀ st a st', heap st !! p = Some c → store_Send p ch st = Ok (a, st') →
    Clients st' = Clients st ∧ Mutex st' = Mutex st ∧
    ∀ q cq, heap st !! q = Some cq →
            ∃ c', heap st' !! q = Some c' ∧ closed (Send c') = closed (Send cq).
Proof.
  intros Hch st a st' Hc [= <- <-]. split; [done|]. split; [done|].
  intros q cq Hq. simpl. destruct (decide (p = q)) as [->|Hne].
  - rewrite lookup_alter_eq, Hq. simpl. eexists. split; [done|].
    simpl. congruence.
  - rewrite lookup_alter_ne by done. eauto.
Qed.

Lemma frames_deref p : frames (deref p).
Proof. intros st c st' H. apply deref_inv in H as [-> _]. eauto. Qed.

Lemma frames_send p m : frames (send p m).
Proof.
  intros st a st' H. unfold send in H.
  apply bind_inv in H as (c & st1 & Hd & H). apply deref_inv in Hd as [-> Hc].
  destruct (closed (Send c)) eqn:Hcl; [done|].
  destruct (Nat.ltb _ _); [|done].
  by apply (frames_store_Send p _ c) in H.
Qed.

Lemma frames_HandleClientWrite_turn client write_ok :
  frames (HandleClientWrite_turn client write_ok).
Proof.
  intros st a st' H. unfold HandleClientWrite_turn in H.
  apply bind_inv in H as (c & st1 & Hd & H). apply deref_inv in Hd as [-> Hc].
  destruct (buf (Send c)) as [|message rest].
  - destruct (closed (Send c)); [|done]. injection H as <- <-. eauto.
  - apply bind_inv in H as ([] & st1 & Hs & H). injection H as <- <-.
    by apply (frames_store_Send client _ c) in Hs.
Qed.

Create HintDb framing.

#[local] Hint Resolve frames_ret frames_gets frames_panic frames_block
  frames_deref frames_send : framing.

(** Goes through the binds and the case distinctions of a handler. *)
Ltac frame :=
  repeat first
    [ progress auto with framing
    | apply frames_bind; [|intros ?]
    | match goal with
      | |- frames (match ?x with _ => _ end) => destruct x
      end ].

Section ReachableStates.

Variable marshal : Message → option bytes.

Lemma frames_HandleDeleteUser client : frames (HandleDeleteUser marshal client).
Proof. unfold HandleDeleteUser. frame. Qed.

Lemma frames_HandleUserData_range client order :
  frames (HandleUserData_range marshal client order).
Proof. induction order as [|p rest IH]; simpl; frame. Qed.

Lemma well_formed_framed st st' :
  well_formed st →
  Clients st' = Clients st → Mutex st' = Mutex st →
  (∀ p c, heap st !! p = Some c →
          ∃ c', heap st' !! p = Some c' ∧ closed (Send c') = closed (Send c)) →
  well_formed st'.
Proof.
  intros [Hmu Hwf] Hcs Hmu' Hh. split; [congruence|].
  intros p Hp. unfold registered in Hp. rewrite Hcs in Hp.
  destruct (Hwf p Hp) as (c & Hc & Hopen).
  destruct (Hh p c Hc) as (c' & Hc' & Hcl). exists c'. split; [done|].
  congruence.
Qed.

Lemma HandleUserData_well_formed client order st sends st' :
  well_formed st →
  HandleUserData marshal client order st = Ok (sends, st') →
  well_formed st'.
Proof.
  intros Hwf H. unfold HandleUserData in H.
  apply bind_inv in H as (c & st0 & Hd & H). apply deref_inv in Hd as [-> Hc].
  destruct (marshal {| MsgType := "user-data"; MsgData := Data c |});
    [|by injection H as <- <-].
  apply bind_inv in H as ([] & st1 & Hs & H).
  apply frames_send in Hs as (Hc1 & Hm1 & Hh1).
  pose proof (well_formed_framed _ _ Hwf Hc1 Hm1 Hh1) as Hwf1.
  apply bind_inv in H as ([] & st2 & Hl & H).
  rewrite (RLock_eval st1 0) in Hl by apply Hwf1. injection Hl as <-.
  apply bind_inv in H as ([] & st3 & Hr & H).
  apply frames_HandleUserData_range in Hr as (Hc3 & Hm3 & Hh3).
  apply bind_inv in H as ([] & st4 & Hu & H).
  rewrite (RUnlock_eval st3 0 false) in Hu by (by rewrite Hm3).
  injection Hu as <-.
  apply bind_inv in H as (c5 & st5 & Hd & H). apply deref_inv in Hd as [-> _].
  assert (st' = set_Mutex unlocked st3)
    by (destruct (marshal _); by injection H as <- <-).
  subst st'. apply (well_formed_framed st1); [done|done|by destruct Hwf1|].
  intros p cp Hp. by apply Hh3.
Qed.

Lemma exec_well_formed o st st' :
  well_formed st → admissible o st →
  exec marshal o st = Ok (tt, st') → well_formed st'.
Proof.
  intros Hwf Hadm H. destruct o as [RemoteAddr upgraded|r|client order|client|client write_ok];
    simpl in H; apply bind_inv in H as (a & st1 & H & Hret);
    injection Hret as <-.
  - destruct upgraded; [|by injection H as <- <-].
    destruct (HandleWebSocketConnections_eval RemoteAddr st)
      as (userName & userColor & _ & Heval).
    cbv zeta in Heval. rewrite Heval in H. injection H as <- <-.
    apply (well_formed_framed st); [done|done|done|].
    intros p c Hp. simpl.
    assert (fresh (dom (heap st)) ≠ p).
    { intros <-. apply (is_fresh (dom (heap st))). apply elem_of_dom. eauto. }
    rewrite lookup_insert_ne by done. eauto.
  - destruct Hwf as [Hmu Hwf].
    destruct r as [client|client|message order].
    + rewrite Run_step_Register in H; [|done|].
      2:{ destruct Hadm as (c & Hc & _). by exists c. }
      injection H as <- <-. split; [done|]. intros p [b Hb]. simpl in Hb |- *.
      destruct (decide (p = client)) as [->|Hne]; [exact Hadm|].
      rewrite lookup_insert_ne in Hb by done. apply Hwf. by exists b.
    + destruct (Clients st !! client) as [b|] eqn:Hb.
      * destruct (Hwf client) as (c & Hc & Hopen); [by exists b|].
        rewrite (Run_step_Unregister_member st client b c) in H by done.
        injection H as <- <-. split; [done|]. intros p [bp Hp]. simpl in Hp |- *.
        destruct (decide (p = client)) as [->|Hne];
          [by rewrite lookup_delete_eq in Hp|].
        rewrite lookup_delete_ne in Hp by done.
        rewrite lookup_insert_ne by done. apply Hwf. by exists bp.
      * rewrite Run_step_Unregister_absent in H by done.
        by injection H as <- <-.
    + destruct (BroadcastToAllClients_fanned message order st)
        as (st2 & Hrun & Hf & Hmu2); [done|exact Hadm|].
      rewrite (Run_step_Broadcast _ _ _ _ Hrun) in H. injection H as <- <-.
      by apply (fanned_wf message order st).
  - by apply (HandleUserData_well_formed client order st a).
  - apply frames_HandleDeleteUser in H as (Hc & Hm & Hh).
    by apply (well_formed_framed st).
  - apply frames_HandleClientWrite_turn in H as (Hc & Hm & Hh).
    by apply (well_formed_framed st).
Qed.


End ReachableStates.

(** * Further properties of the package *)

(** ** The dispatcher with any number of full queues *)

(** X1: one broadcast returns and keeps in the registry exactly the
    sessions whose queue had room; each of them has the envelope at the
    back of its queue; every session whose queue was full is closed with
    its queue unchanged; an object that was not registered is not touched;
    the state is again well formed. *)
Theorem broadcast_keeps_the_serviceable (message : bytes) (order : list ptr)
    (st : State) :
  well_formed st → ranges_over order st →
  ∃ st',
    BroadcastToAllClients message order st = Ok (tt, st') ∧
    (∀ p, registered st' p ↔ registered st p ∧ ¬ full st p) ∧
    (∀ p, registered st p → ¬ full st p →
          queue st' p = queue st p ++ [message] ∧ queue_closed st' p = false) ∧
    (∀ p, registered st p → full st p →
          queue st' p = queue st p ∧ queue_closed st' p = true) ∧
    (∀ p, ¬ registered st p → heap st' !! p = heap st !! p) ∧
    well_formed st'.
Proof.
  intros Hwf Hro.
  destruct (BroadcastToAllClients_fanned message order st Hwf Hro)
    as (st' & Hrun & Hf & Hmu').
  pose proof (fanned_wf _ _ _ _ Hwf Hro Hf Hmu') as Hwf'.
  destruct Hwf as [Hmu Hwf]. destruct Hro as [Hnd Hkeys].
  exists st'. split; [done|].
  split; [|split; [|split; [|split; [|done]]]].
  - intros p. unfold registered at 1. split.
    + intros Hp'. destruct (decide (p ∈ order)) as [Hp|Hp].
      * split; [by apply Hkeys|]. intros Hfull.
        destruct (Hwf p) as (c & Hc & _); [by apply Hkeys|].
        destruct (fanned_full _ _ _ _ _ _ Hf Hp Hc Hfull) as (Hn & _).
        rewrite Hn in Hp'. by destruct Hp'.
      * exfalso. destruct Hf as (_ & _ & Hout & _).
        destruct (Hout p Hp) as [Hcs _]. rewrite Hcs in Hp'. by apply Hp, Hkeys.
    + intros [Hp Hroom]. destruct (Hwf p Hp) as (c & Hc & _).
      destruct (fanned_room _ _ _ _ _ _ Hf (proj2 (Hkeys p) Hp) Hc Hroom)
        as (Hcs & _). by rewrite Hcs.
  - intros p Hp Hroom. destruct (Hwf p Hp) as (c & Hc & _).
    by destruct (fanned_room _ _ _ _ _ _ Hf (proj2 (Hkeys p) Hp) Hc Hroom)
      as (_ & ? & ?).
  - intros p Hp Hfull. destruct (Hwf p Hp) as (c & Hc & _).
    by destruct (fanned_full _ _ _ _ _ _ Hf (proj2 (Hkeys p) Hp) Hc Hfull)
      as (_ & ? & ?).
  - intros p Hp. destruct Hf as (_ & _ & Hout & _).
    apply Hout. intros Hin. by apply Hp, Hkeys.
Qed.

Lemma broadcast_keeps_the_serviceable_witness :
  ∃ st',
    BroadcastToAllClients (text "hello") [2; 3; 1] B_is_full = Ok (tt, st') ∧
    (∀ p, registered st' p ↔ registered B_is_full p ∧ ¬ full B_is_full p) ∧
    well_formed st'.
Proof.
  destruct (broadcast_keeps_the_serviceable (text "hello") [2; 3; 1] B_is_full)
    as (st' & Hrun & Hreg & _ & _ & _ & Hwf).
  - apply well_formedb_spec. vm_compute. reflexivity.
  - apply ranges_overb_spec. vm_compute. reflexivity.
  - exists st'. split; [exact Hrun|]. split; [exact Hreg|exact Hwf].
Defined.

(** ** The arbiter on the states the program reaches *)

(** X2: in a well-formed state a turn of [Run] always finishes, whatever
    it receives from the program: it neither panics (no queue is closed
    twice, nothing is sent on a closed queue) nor blocks on the lock, and
    it leaves a well-formed state. *)
Theorem Run_step_never_faults (r : received) (st : State) :
  well_formed st → admissible (OpRun r) st →
  ∃ gs st', Run_step r st = Ok (gs, st') ∧ well_formed st'.
Proof.
  intros Hwf Hadm.
  assert (Hok : ∃ gs st', Run_step r st = Ok (gs, st')).
  { destruct Hwf as [Hmu Hwf]. destruct r as [client|client|message order].
    - rewrite Run_step_Register; [eauto|done|].
      destruct Hadm as (c & Hc & _). by exists c.
    - destruct (Clients st !! client) as [b|] eqn:Hb.
      + destruct (Hwf client) as (c & Hc & Hopen); [by exists b|].
        rewrite (Run_step_Unregister_member st client b c) by done. eauto.
      + rewrite Run_step_Unregister_absent by done. eauto.
    - destruct (BroadcastToAllClients_fanned message order st)
        as (st2 & Hrun & _); [done|exact Hadm|].
      rewrite (Run_step_Broadcast _ _ _ _ Hrun). eauto. }
  destruct Hok as (gs & st' & Hrun). exists gs, st'. split; [done|].
  apply (exec_well_formed (λ _, None) (OpRun r) st st' Hwf Hadm).
  simpl. by rewrite (bind_Ok _ _ _ _ _ Hrun).
Qed.

Lemma Run_step_never_faults_witness :
  ∃ gs st',
    Run_step (RecvBroadcast (text "hello") [1; 2; 3]) B_is_full = Ok (gs, st') ∧
    well_formed st'.
Proof.
  apply (Run_step_never_faults (RecvBroadcast (text "hello") [1; 2; 3])
           B_is_full).
  - apply well_formedb_spec. vm_compute. reflexivity.
  - apply ranges_overb_spec. vm_compute. reflexivity.
Defined.



(** ** Register and unregister *)

(** X4: a register turn of [Run] makes the client object it receives a
    member and changes nothing else: every other key, every object and
    queue stay as they were, and no goroutine is started.  Registering a
    member again changes nothing, so the registry grows by one exactly when
    the client was not a member. *)
Theorem register_adds_one_member (client : ptr) (st : State) :
  Mutex st = unlocked → is_Some (heap st !! client) →
  ∃ st',
    Run_step (RecvRegister client) st = Ok ([], st') ∧
    Clients st' !! client = Some true ∧
    (∀ p, p ≠ client → Clients st' !! p = Clients st !! p) ∧
    heap st' = heap st ∧ Mutex st' = unlocked ∧
    size (Clients st') =
      (if decide (registered st client) then size (Clients st)
       else S (size (Clients st))) ∧
    Run_step (RecvRegister client) st' = Ok ([], st').
Proof.
  intros Hmu Hobj. exists (set_Clients (<[client := true]>) st).
  split; [by apply Run_step_Register|].
  split; [simpl; apply lookup_insert_eq|].
  split; [intros p Hne; simpl; by rewrite lookup_insert_ne|].
  split; [done|]. split; [done|]. split.
  - simpl. destruct (decide (registered st client)) as [Hin|Hout].
    + by apply map_size_insert_Some.
    + apply map_size_insert_None. destruct (Clients st !! client) eqn:E; [|done].
      exfalso. apply Hout. by eexists.
  - rewrite Run_step_Register by done. do 2 f_equal.
    destruct st as [cs mu h r]. unfold set_Clients. simpl. f_equal.
    apply insert_insert_eq.
Qed.

Lemma register_adds_one_member_witness :
  ∃ st',
    Run_step (RecvRegister 2) three_connected = Ok ([], st') ∧
    Clients st' !! 2 = Some true ∧ size (Clients st') = 1 ∧
    Run_step (RecvRegister 2) st' = Ok ([], st').
Proof.
  destruct (register_adds_one_member 2 three_connected)
    as (st' & Hrun & Hin & _ & _ & _ & Hsize & Hagain);
    [reflexivity|by eexists|].
  exists st'. split; [exact Hrun|]. split; [exact Hin|]. split; [|exact Hagain].
  rewrite Hsize. destruct (decide (registered three_connected 2)) as [[b Hb]|_].
  - vm_compute in Hb. discriminate.
  - reflexivity.
Defined.

(** X5: two unregister calls for a member, as when both code paths remove
    the same session, have the effect of one: the second changes nothing,
    the queue is closed once and exactly one [HandleDeleteUser] is
    started. *)
Theorem unregister_twice_removes_once (client : ptr) (st : State) :
  well_formed st → registered st client →
  ∃ st1,
    Run_step (RecvUnregister client) st = Ok ([GoHandleDeleteUser client], st1) ∧
    Run [RecvUnregister client; RecvUnregister client] st
    = Ok ([GoHandleDeleteUser client], st1) ∧
    ¬ registered st1 client ∧ queue_closed st1 client = true.
Proof.
  intros [Hmu Hwf] [b Hb]. destruct (Hwf client) as (c & Hc & Hopen); [by exists b|].
  set (st1 := set_heap (<[client := shut c]>) (set_Clients (delete client) st)).
  assert (Hone : Run_step (RecvUnregister client) st
                 = Ok ([GoHandleDeleteUser client], st1))
    by (by apply (Run_step_Unregister_member _ _ b c)).
  assert (Hgone : Clients st1 !! client = None) by (simpl; apply lookup_delete_eq).
  exists st1. split; [done|]. split; [|split].
  - apply (Run_cons _ _ _ [GoHandleDeleteUser client] st1 [] st1); [done|].
    apply (Run_cons _ _ _ [] st1 [] st1); [|done].
    apply Run_step_Unregister_absent; [done|done|].
    simpl. rewrite lookup_insert_eq. by eexists.
  - unfold registered. rewrite Hgone. by intros [? ?].
  - unfold queue_closed. simpl. by rewrite lookup_insert_eq.
Qed.

Lemma unregister_twice_removes_once_witness :
  ∃ st1,
    Run_step (RecvUnregister 2) three_sessions = Ok ([GoHandleDeleteUser 2], st1) ∧
    Run [RecvUnregister 2; RecvUnregister 2] three_sessions
    = Ok ([GoHandleDeleteUser 2], st1) ∧
    ¬ registered st1 2 ∧ queue_closed st1 2 = true.
Proof.
  apply (unregister_twice_removes_once 2 three_sessions).
  - apply well_formedb_spec. vm_compute. reflexivity.
  - exists true. reflexivity.
Defined.

(** ** Admission of a session that is already gone *)

Section LateAdmission.

Variable marshal : Message → option bytes.

(** X6: [HandleUserData] sends to the new session with a plain channel
    send.  When the queue of the session has been closed in the meantime
    (its read pump ended, or a broadcast evicted it) and the user-data
    message serializes, the handler panics with a send on a closed
    channel. *)
Theorem HandleUserData_after_removal_panics (client : ptr) (c : Client)
    (order : list ptr) (st : State) :
  heap st !! client = Some c → closed (Send c) = true →
  is_Some (marshal {| MsgType := "user-data"; MsgData := Data c |}) →
  HandleUserData marshal client order st = Panic "send on closed channel".
Proof.
  intros Hc Hcl [jsonData Hm]. unfold HandleUserData.
  rewrite (bind_Ok _ _ _ _ _ (deref_eval _ _ _ Hc)), Hm.
  unfold bind at 1, send. rewrite (bind_Ok _ _ _ _ _ (deref_eval _ _ _ Hc)).
  by rewrite Hcl.
Qed.

End LateAdmission.

Lemma HandleUserData_after_removal_panics_witness :
  ∃ st,
    exec_all sample_marshal early_disconnect three_sessions = Ok (tt, st) ∧
    HandleUserData sample_marshal 4 [1; 2; 3] st = Panic "send on closed channel".
Proof.
  destruct (exec_all sample_marshal early_disconnect three_sessions)
    as [[[] st]| |] eqn:E; [|vm_compute in E; discriminate..].
  exists st. split; [reflexivity|].
  destruct (heap st !! 4) as [c|] eqn:Hc;
    [|vm_compute in E; injection E as <-; vm_compute in Hc; discriminate].
  apply (HandleUserData_after_removal_panics sample_marshal 4 c [1; 2; 3] st Hc).
  - vm_compute in E. injection E as <-. vm_compute in Hc. by injection Hc as <-.
  - apply sample_marshal_total.
Defined.

(** ** The outbound pump *)

Lemma HandleClientWrite_turn_text client c message rest ok st :
  heap st !! client = Some c → buf (Send c) = message :: rest →
  HandleClientWrite_turn client ok st
  = Ok (if ok then WroteText message else WriteFailed,
        set_heap (<[client := set_Send {| buf := rest; closed := closed (Send c) |} c]>) st).
Proof.
  intros Hc Hb. unfold HandleClientWrite_turn.
  rewrite (bind_Ok _ _ _ _ _ (deref_eval _ _ _ Hc)), Hb.
  by rewrite (bind_Ok _ _ _ _ _ (store_Send_eval _ _ _ _ Hc)).
Qed.

Lemma HandleClientWrite_turn_empty client c ok st :
  heap st !! client = Some c → buf (Send c) = [] →
  HandleClientWrite_turn client ok st
  = if closed (Send c) then Ok (WroteClose, st) else Blocked.
Proof.
  intros Hc Hb. unfold HandleClientWrite_turn.
  rewrite (bind_Ok _ _ _ _ _ (deref_eval _ _ _ Hc)), Hb.
  by destruct (closed (Send c)).
Qed.

Lemma set_heap_insert_same st p (c : Client) :
  heap st !! p = Some c → set_heap (<[p := c]>) st = st.
Proof.
  intros Hc. destruct st as [cs mu h r]. unfold set_heap. simpl in *. f_equal.
  by apply insert_id.
Qed.

Lemma HandleClientWrite_turns_written client write_ok : ∀ q k st c,
  heap st !! client = Some c → buf (Send c) = q →
  (∀ i, i < length q → write_ok (k + i) = true) →
  HandleClientWrite_turns (length q) client write_ok k st
  = Ok ((map WroteText q, false),
        set_heap (<[client := set_Send {| buf := []; closed := closed (Send c) |} c]>)
                 st).
Proof.
  induction q as [|message rest IH]; intros k st c Hc Hb Hok; simpl.
  - unfold ret. do 2 f_equal. symmetry.
    replace (set_Send _ c) with c; [by apply set_heap_insert_same|].
    destruct c as [[b cl] i d]. simpl in *. by subst.
  - rewrite (bind_Ok _ _ _ _ _ (HandleClientWrite_turn_text _ _ _ _ _ _ Hc Hb)).
    replace (write_ok k) with true
      by (symmetry; rewrite <- (Nat.add_0_r k); apply Hok; simpl; lia).
    set (c1 := set_Send {| buf := rest; closed := closed (Send c) |} c).
    unfold bind at 1.
    rewrite (IH (S k) _ c1); simpl.
    + unfold ret. simpl. by rewrite set_heap_insert_insert.
    + apply lookup_insert_eq.
    + done.
    + intros i Hi. replace (S (k + i)) with (k + S i) by lia.
      apply Hok. simpl. lia.
Qed.

Lemma HandleClientWrite_turns_drains client write_ok : ∀ q fuel k st c,
  heap st !! client = Some c → buf (Send c) = q → length q < fuel →
  (∀ i, i < length q → write_ok (k + i) = true) →
  HandleClientWrite_turns fuel client write_ok k st
  = if closed (Send c)
    then Ok ((map WroteText q ++ [WroteClose], true),
             set_heap (<[client := set_Send {| buf := []; closed := true |} c]>) st)
    else Blocked.
Proof.
  induction q as [|message rest IH]; intros fuel k st c Hc Hb Hfuel Hok;
    (destruct fuel as [|fuel]; [simpl in Hfuel; lia|]); simpl.
  - unfold bind. rewrite (HandleClientWrite_turn_empty _ _ _ _ Hc Hb).
    destruct (closed (Send c)) eqn:Hcl; [|done]. unfold ret. do 2 f_equal.
    symmetry. replace (set_Send _ c) with c; [by apply set_heap_insert_same|].
    destruct c as [[b cl] i d]. simpl in *. by subst.
  - rewrite (bind_Ok _ _ _ _ _ (HandleClientWrite_turn_text _ _ _ _ _ _ Hc Hb)).
    replace (write_ok k) with true
      by (symmetry; rewrite <- (Nat.add_0_r k); apply Hok; simpl; lia).
    set (c1 := set_Send {| buf := rest; closed := closed (Send c) |} c).
    unfold bind at 1.
    rewrite (IH fuel (S k) _ c1); simpl.
    + destruct (closed (Send c)); [|done]. unfold ret. simpl.
      by rewrite set_heap_insert_insert.
    + apply lookup_insert_eq.
    + done.
    + simpl in Hfuel. lia.
    + intros i Hi. replace (S (k + i)) with (k + S i) by lia.
      apply Hok. simpl. lia.
Qed.

Lemma HandleClientWrite_turns_fails client write_ok : ∀ j q fuel k st c,
  heap st !! client = Some c → buf (Send c) = q →
  j < length q → j < fuel →
  (∀ i, i < j → write_ok (k + i) = true) → write_ok (k + j) = false →
  HandleClientWrite_turns fuel client write_ok k st
  = Ok ((map WroteText (take j q) ++ [WriteFailed], true),
        set_heap (<[client := set_Send {| buf := drop (S j) q;
                                          closed := closed (Send c) |} c]>) st).
Proof.
  induction j as [|j IH]; intros q fuel k st c Hc Hb Hj Hfuel Hok Hbad;
    (destruct fuel as [|fuel]; [lia|]);
    (destruct q as [|message rest]; [simpl in Hj; lia|]); simpl.
  - rewrite (bind_Ok _ _ _ _ _ (HandleClientWrite_turn_text _ _ _ _ _ _ Hc Hb)).
    rewrite Nat.add_0_r in Hbad. rewrite Hbad. by rewrite drop_0.
  - rewrite (bind_Ok _ _ _ _ _ (HandleClientWrite_turn_text _ _ _ _ _ _ Hc Hb)).
    replace (write_ok k) with true
      by (symmetry; rewrite <- (Nat.add_0_r k); apply Hok; lia).
    set (c1 := set_Send {| buf := rest; closed := closed (Send c) |} c).
    unfold bind at 1.
    rewrite (IH rest fuel (S k) _ c1); simpl.
    + unfold ret. simpl. by rewrite set_heap_insert_insert.
    + apply lookup_insert_eq.
    + done.
    + simpl in Hj. lia.
    + lia.
    + intros i Hi. replace (S (k + i)) with (k + S i) by lia. apply Hok. lia.
    + replace (S (k + j)) with (k + S j) by lia. done.
Qed.

Lemma HandleClientWrite_fails client write_ok j q fuel k st c :
  heap st !! client = Some c → buf (Send c) = q →
  j < length q → j < fuel →
  (∀ i, i < j → write_ok (k + i) = true) → write_ok (k + j) = false →
  HandleClientWrite fuel client write_ok k st
  = Ok (Some (map WroteText (take j q) ++ [WriteFailed]),
        set_heap (<[client := set_Send {| buf := drop (S j) q;
                                          closed := closed (Send c) |} c]>) st).
Proof.
  intros Hc Hb Hj Hfuel Hok Hbad. unfold HandleClientWrite.
  by rewrite (bind_Ok _ _ _ _ _
                (HandleClientWrite_turns_fails client write_ok j q fuel k st c
                   Hc Hb Hj Hfuel Hok Hbad)).
Qed.

(** X7: with a transport that takes every write, the outbound pump writes
    the queued items in the order they were queued, one a turn: after as
    many turns as the queue had items it has written exactly these, the
    queue is empty and the pump has not returned.  On the empty queue it
    then writes the close frame and returns when the queue is closed, and
    waits while the queue is open.  It never touches the registry. *)
Theorem write_pump_drains_in_order (client : ptr) (c : Client)
    (write_ok : nat → bool) (st : State) :
  heap st !! client = Some c →
  (∀ i, i < length (buf (Send c)) → write_ok i = true) →
  ∃ st',
    HandleClientWrite_turns (length (buf (Send c))) client write_ok 0 st
    = Ok ((map WroteText (buf (Send c)), false), st') ∧
    queue st' client = [] ∧ queue_closed st' client = closed (Send c) ∧
    Clients st' = Clients st ∧ Mutex st' = Mutex st ∧
    ∀ fuel, length (buf (Send c)) < fuel →
      HandleClientWrite_turns fuel client write_ok 0 st
      = (if closed (Send c)
         then Ok ((map WroteText (buf (Send c)) ++ [WroteClose], true), st')
         else Blocked) ∧
      HandleClientWrite fuel client write_ok 0 st
      = (if closed (Send c)
         then Ok (Some (map WroteText (buf (Send c)) ++ [WroteClose]), st')
         else Blocked).
Proof.
  intros Hc Hok. eexists. split.
  - by apply (HandleClientWrite_turns_written client write_ok _ 0 st c).
  - unfold queue, queue_closed. simpl. rewrite lookup_insert_eq. simpl.
    split; [done|]. split; [done|]. split; [done|]. split; [done|].
    intros fuel Hfuel.
    pose proof (HandleClientWrite_turns_drains client write_ok _ fuel 0 st c
                  Hc eq_refl Hfuel Hok) as H.
    unfold HandleClientWrite, bind at 1. rewrite H.
    by destruct (closed (Send c)).
Qed.

(** X8: the first write the transport refuses ends the outbound pump: the
    items before it were written in order, the refused item is lost, the
    later items stay in the queue, and the session is neither unregistered
    nor closed. *)
Theorem write_error_ends_the_pump (client : ptr) (c : Client)
    (write_ok : nat → bool) (fuel j : nat) (st : State) :
  heap st !! client = Some c → j < length (buf (Send c)) → j < fuel →
  (∀ i, i < j → write_ok i = true) → write_ok j = false →
  ∃ st',
    HandleClientWrite fuel client write_ok 0 st
    = Ok (Some (map WroteText (take j (buf (Send c))) ++ [WriteFailed]), st') ∧
    queue st' client = drop (S j) (buf (Send c)) ∧
    queue_closed st' client = closed (Send c) ∧
    Clients st' = Clients st ∧ Mutex st' = Mutex st.
Proof.
  intros Hc Hj Hfuel Hok Hbad. eexists. split.
  - by apply (HandleClientWrite_fails client write_ok j _ fuel 0 st c).
  - unfold queue, queue_closed. simpl. by rewrite lookup_insert_eq.
Qed.

Lemma write_pump_drains_in_order_witness :
  ∃ gs st st',
    Run [RecvBroadcast (text "a") [1; 2; 3]; RecvBroadcast (text "b") [3; 2; 1];
         RecvUnregister 1] three_sessions = Ok (gs, st) ∧
    HandleClientWrite_turns 2 1 (λ _, true) 0 st
    = Ok (([WroteText (text "a"); WroteText (text "b")], false), st') ∧
    HandleClientWrite 3 1 (λ _, true) 0 st
    = Ok (Some [WroteText (text "a"); WroteText (text "b"); WroteClose], st') ∧
    queue st' 1 = [].
Proof.
  destruct (Run [RecvBroadcast (text "a") [1; 2; 3];
                 RecvBroadcast (text "b") [3; 2; 1]; RecvUnregister 1]
              three_sessions) as [[gs st]| |] eqn:E;
    [|vm_compute in E; discriminate..].
  destruct (heap st !! 1) as [c|] eqn:Hc;
    [|vm_compute in E; injection E as <- <-; vm_compute in Hc; discriminate].
  assert (Hsend : Send c = {| buf := [text "a"; text "b"]; closed := true |}).
  { vm_compute in E. injection E as <- <-. vm_compute in Hc.
    by injection Hc as <-. }
  destruct (write_pump_drains_in_order 1 c (λ _, true) st Hc)
    as (st' & Hturns & Hempty & _ & _ & _ & Hmore); [done|].
  rewrite Hsend in Hturns, Hmore. simpl in Hturns, Hmore.
  exists gs, st, st'. split; [reflexivity|]. split; [exact Hturns|].
  split; [|exact Hempty].
  destruct (Hmore 3) as [_ H]; [lia|]. exact H.
Defined.

Lemma write_error_ends_the_pump_witness :
  ∃ gs st st',
    Run [RecvBroadcast (text "a") [1; 2; 3]; RecvBroadcast (text "b") [3; 2; 1];
         RecvBroadcast (text "c") [2; 1; 3]] three_sessions = Ok (gs, st) ∧
    HandleClientWrite 3 1 (λ i, Nat.ltb i 1) 0 st
    = Ok (Some [WroteText (text "a"); WriteFailed], st') ∧
    queue st' 1 = [text "c"] ∧ queue_closed st' 1 = false ∧
    Clients st' = Clients st.
Proof.
  destruct (Run [RecvBroadcast (text "a") [1; 2; 3];
                 RecvBroadcast (text "b") [3; 2; 1];
                 RecvBroadcast (text "c") [2; 1; 3]]
              three_sessions) as [[gs st]| |] eqn:E;
    [|vm_compute in E; discriminate..].
  destruct (heap st !! 1) as [c|] eqn:Hc;
    [|vm_compute in E; injection E as <- <-; vm_compute in Hc; discriminate].
  assert (Hsend : Send c = {| buf := [text "a"; text "b"; text "c"];
                              closed := false |}).
  { vm_compute in E. injection E as <- <-. vm_compute in Hc.
    by injection Hc as <-. }
  destruct (write_error_ends_the_pump 1 c (λ i, Nat.ltb i 1) 3 1 st Hc)
    as (st' & Hrun & Hq & Hcl & Hcs & _).
  - rewrite Hsend. simpl. lia.
  - lia.
  - intros i Hi. apply Nat.ltb_lt. lia.
  - reflexivity.
  - rewrite Hsend in Hrun, Hq, Hcl. simpl in Hrun, Hq, Hcl.
    exists gs, st, st'. by repeat split.
Defined.

(** ** The inbound pump through the arbiter *)

Lemma ranges_over_Clients order st st' :
  Clients st' = Clients st → ranges_over order st → ranges_over order st'.
Proof. unfold ranges_over, registered. by intros ->. Qed.

(** X9: what the inbound pump of a registered session sends is carried out
    by [Run] in order: when the queues have room for all the frames, every
    session that was registered has the frames at the back of its queue,
    in the order they were read and unchanged, the sender included; then
    the sender is removed, its queue is closed and exactly one
    [HandleDeleteUser] is started; the other sessions stay registered. *)
Theorem read_pump_relays_in_order (client : ptr) (frames : list bytes)
    (orders : list (list ptr)) (st : State) :
  well_formed st → registered st client →
  length orders = length frames →
  Forall (λ order, ranges_over order st) orders →
  (∀ p, registered st p → length (queue st p) + length frames ≤ SendCap) →
  ∃ st',
    Run (zip_with receive (orders ++ [[]]) (HandleClientRead client frames)) st
    = Ok ([GoHandleDeleteUser client], st') ∧
    (∀ p, registered st' p ↔ registered st p ∧ p ≠ client) ∧
    queue_closed st' client = true ∧
    (∀ p, registered st p → queue st' p = queue st p ++ frames).
Proof.
  revert orders st.
  induction frames as [|frame frames IH]; intros orders st Hwf Hreg Hlen Hro Hroom.
  - destruct orders; [|done].
    unfold HandleClientRead. cbn [zip_with map app receive].
    destruct Hwf as [Hmu Hwf]. destruct Hreg as [b Hb].
    destruct (Hwf client) as (c & Hc & Hopen); [by exists b|].
    set (st1 := set_heap (<[client := shut c]>) (set_Clients (delete client) st)).
    exists st1. split.
    { apply (Run_cons _ _ _ [GoHandleDeleteUser client] st1 [] st1); [|done].
      by apply (Run_step_Unregister_member _ _ b c). }
    split; [|split].
    + intros p. unfold registered. simpl.
      destruct (decide (p = client)) as [->|Hne].
      * rewrite lookup_delete_eq. split; [by intros [? ?]|by intros [_ ?]].
      * rewrite lookup_delete_ne by done. naive_solver.
    + unfold queue_closed. simpl. by rewrite lookup_insert_eq.
    + intros p Hp. rewrite app_nil_r. unfold queue. simpl.
      destruct (decide (p = client)) as [->|Hne].
      * by rewrite lookup_insert_eq, Hc.
      * by rewrite lookup_insert_ne.
  - destruct orders as [|order orders]; [done|].
    apply Forall_cons in Hro as [Ho Hro]. simpl in Hlen.
    destruct (broadcast_fanout frame order st Hwf Ho)
      as (st1 & Hrun1 & Hcs & Hq & _ & Hwf1).
    { intros p Hp. specialize (Hroom p Hp). unfold full. simpl in Hroom. lia. }
    destruct (IH orders st1) as (st' & Hrun & Hmem & Hcl & Hqs).
    + done.
    + unfold registered. by rewrite Hcs.
    + lia.
    + eapply Forall_impl; [exact Hro|]. intros o. by apply ranges_over_Clients.
    + intros p Hp. unfold registered in Hp. rewrite Hcs in Hp.
      rewrite (Hq p Hp), length_app. specialize (Hroom p Hp). simpl in *. lia.
    + exists st'. split; [|split; [|split]].
      * unfold HandleClientRead in Hrun |- *.
        cbn [zip_with map app receive] in Hrun |- *.
        apply (Run_cons _ _ _ [] st1); [|done].
        by apply Run_step_Broadcast.
      * intros p. rewrite Hmem. unfold registered. by rewrite Hcs.
      * done.
      * intros p Hp. rewrite Hqs by (unfold registered; by rewrite Hcs).
        rewrite (Hq p Hp). by rewrite <- app_assoc.
Qed.

Lemma read_pump_relays_in_order_witness :
  ∃ st',
    Run (zip_with receive [[1; 2; 3]; [3; 1; 2]; []]
           (HandleClientRead 2 [text "one"; text "two"])) three_sessions
    = Ok ([GoHandleDeleteUser 2], st') ∧
    (∀ p, registered st' p ↔ registered three_sessions p ∧ p ≠ 2) ∧
    queue_closed st' 2 = true ∧
    (∀ p, registered three_sessions p →
          queue st' p = queue three_sessions p ++ [text "one"; text "two"]).
Proof.
  apply (read_pump_relays_in_order 2 [text "one"; text "two"]
           [[1; 2; 3]; [3; 1; 2]] three_sessions).
  - apply well_formedb_spec. vm_compute. reflexivity.
  - exists true. reflexivity.
  - reflexivity.
  - constructor; [apply ranges_overb_spec; vm_compute; reflexivity|].
    constructor; [apply ranges_overb_spec; vm_compute; reflexivity|].
    constructor.
  - intros p Hp. apply three_sessions_registered in Hp.
    destruct Hp as [ -> | [ -> | -> ] ]; vm_compute; lia.
Defined.

(** ** Identity maps of the sessions *)

Create HintDb keeping.

Section Keeping.

Variable P : Client → Prop.
Hypothesis P_set_Send : ∀ ch c, P c → P (set_Send ch c).

Lemma keeps_ret {A : Type} (a : A) : keeps P (ret a).
Proof. by intros st a' st' [= <- <-]. Qed.

Lemma keeps_gets {A : Type} (f : State → A) : keeps P (gets f).
Proof. by intros st a st' [= <- <-]. Qed.

Lemma keeps_panic {A : Type} why : keeps P (@panic A why).
Proof. intros st a st' H. discriminate. Qed.

Lemma keeps_block {A : Type} : keeps P (@block A).
Proof. intros st a st' H. discriminate. Qed.

Lemma keeps_bind {A B : Type} (m : M A) (f : A → M B) :
  keeps P m → (∀ a, keeps P (f a)) → keeps P (bind m f).
Proof.
  intros Hm Hf st b st' H HP. apply bind_inv in H as (a & st1 & H1 & H2).
  eapply Hf; [exact H2|]. by eapply Hm.
Qed.

Lemma keeps_set_Mutex mu : keeps P (modify (set_Mutex mu)).
Proof. by intros st a st' [= <- <-]. Qed.

Lemma keeps_set_Clients f : keeps P (modify (set_Clients f)).
Proof. by intros st a st' [= <- <-]. Qed.

Lemma keeps_set_rand r : keeps P (modify (set_rand r)).
Proof. by intros st a st' [= <- <-]. Qed.

Lemma keeps_store_Send p ch : keeps P (store_Send p ch).
Proof.
  intros st a st' [= <- <-] HP q c. simpl.
  destruct (decide (p = q)) as [->|Hne].
  - rewrite lookup_alter_eq. destruct (heap st !! q) as [c0|] eqn:Hq; [|done].
    intros [= <-]. apply P_set_Send. by apply (HP q).
  - rewrite lookup_alter_ne by done. apply HP.
Qed.

Hint Resolve keeps_ret keeps_gets keeps_panic keeps_block keeps_set_Mutex
  keeps_set_Clients keeps_set_rand keeps_store_Send : keeping.

(** Goes through the binds and the case distinctions of a handler. *)
Ltac keep :=
  repeat first
    [ progress auto with keeping
    | apply keeps_bind; [|intros ?]
    | match goal with
      | |- keeps P (match ?x with _ => _ end) => destruct x
      end ].

Lemma keeps_Run_step r : keeps P (Run_step r).
Proof.
  assert (Hrange : ∀ message order,
            keeps P (BroadcastToAllClients_range message order)).
  { intros message order. induction order as [|p rest IH]; simpl;
      unfold try_send, close, deref, RUnlock, Lock, Unlock, RLock; keep. }
  destruct r; simpl;
    unfold BroadcastToAllClients, close, deref, RUnlock, Lock, Unlock, RLock;
    keep.
Qed.

Lemma keeps_HandleClientWrite_turn client write_ok :
  keeps P (HandleClientWrite_turn client write_ok).
Proof. unfold HandleClientWrite_turn, deref. keep. Qed.

Variable marshal : Message → option bytes.

Lemma keeps_HandleDeleteUser client : keeps P (HandleDeleteUser marshal client).
Proof. unfold HandleDeleteUser, deref. keep. Qed.

Lemma keeps_HandleUserData client order :
  keeps P (HandleUserData marshal client order).
Proof.
  assert (Hrange : keeps P (HandleUserData_range marshal client order)).
  { induction order as [|p rest IH]; simpl; unfold send, deref; keep. }
  unfold HandleUserData, send, deref, RLock, RUnlock. keep.
Qed.

End Keeping.

Lemma HandleWebSocketConnections_identity RemoteAddr st :
  ∃ userName hue,
    userName ∈ randomNames ∧ hue < 360 ∧
    let client := fresh (dom (heap st)) in
    HandleWebSocketConnections RemoteAddr true st
    = Ok ((Some client, [SendRegister client],
           [GoHandleClientRead client; GoHandleClientWrite client;
            GoHandleUserData client]),
          set_heap (<[client := {| Send := make_chan; ID := RemoteAddr;
                                   Data := identity RemoteAddr userName
                                             (Sprintf_hsl hue) |}]>)
                   (set_rand (drawn (drawn (rand st))) st)).
Proof.
  destruct (GetRandomName_eval st) as (userName & Hn & Hname).
  eexists userName, _. split; [by eapply list_elem_of_lookup_2|].
  split; [|cbv zeta; unfold HandleWebSocketConnections;
           rewrite (bind_Ok _ _ _ _ _ Hname);
           rewrite (bind_Ok _ _ _ _ _ (GetRandomColor_eval _)); reflexivity].
  apply Nat.mod_upper_bound. lia.
Qed.

Lemma well_identified_set_Send ch c :
  well_identified c → well_identified (set_Send ch c).
Proof. by intros (name & hue & ? & ? & ?); exists name, hue. Qed.

(** X10: every client object the program creates keeps, through every
    later operation, the identity map built at its admission: the user id
    in the map is the identifier of the connection, the name is one of the
    pool and the color is an hsl text with a hue below 360. *)
Theorem sessions_stay_well_identified (marshal : Message → option bytes)
    (os : list op) (st st' : State) :
  (∀ p c, heap st !! p = Some c → well_identified c) →
  exec_all marshal os st = Ok (tt, st') →
  ∀ p c, heap st' !! p = Some c → well_identified c.
Proof.
  revert st. induction os as [|o rest IH]; intros st HP H; simpl in H.
  - by injection H as <-.
  - apply bind_inv in H as ([] & st1 & Ho & H). apply (IH st1); [|done].
    clear IH H. destruct o as [RemoteAddr upgraded|r|client order|client|client write_ok];
      simpl in Ho; apply bind_inv in Ho as (a & st2 & Ho & Hret);
      injection Hret as <-.
    + destruct upgraded; [|by injection Ho as <- <-].
      destruct (HandleWebSocketConnections_identity RemoteAddr st)
        as (userName & hue & Hname & Hhue & Heval).
      cbv zeta in Heval. rewrite Heval in Ho. injection Ho as <- <-.
      intros p c. simpl.
      destruct (decide (fresh (dom (heap st)) = p)) as [->|Hne].
      * rewrite lookup_insert_eq. intros [= <-]. by exists userName, hue.
      * rewrite lookup_insert_ne by done. apply HP.
    + by apply (keeps_Run_step _ well_identified_set_Send r st a).
    + by apply (keeps_HandleUserData _ well_identified_set_Send marshal
                  client order st a).
    + by apply (keeps_HandleDeleteUser _ marshal client st a).
    + by apply (keeps_HandleClientWrite_turn _ well_identified_set_Send
                  client write_ok st a).
Qed.

Lemma sessions_stay_well_identified_witness :
  ∃ st',
    exec_all sample_marshal
      [OpConnect "10.0.0.1:5001" true; OpRun (RecvRegister 0);
       OpHandleUserData 0 [0]; OpConnect "10.0.0.2:5002" true;
       OpRun (RecvRegister 1); OpRun (RecvUnregister 0)]
      (NewWebSocketManager ∅ no_draws) = Ok (tt, st') ∧
    ∀ p c, heap st' !! p = Some c → well_identified c.
Proof.
  destruct (exec_all sample_marshal
      [OpConnect "10.0.0.1:5001" true; OpRun (RecvRegister 0);
       OpHandleUserData 0 [0]; OpConnect "10.0.0.2:5002" true;
       OpRun (RecvRegister 1); OpRun (RecvUnregister 0)]
      (NewWebSocketManager ∅ no_draws)) as [[[] st']| |] eqn:E;
    [|vm_compute in E; discriminate..].
  exists st'. split; [reflexivity|].
  eapply (sessions_stay_well_identified sample_marshal); [|exact E].
  intros p c Hc. simpl in Hc. by rewrite lookup_empty in Hc.
Defined.

(** * Properties of the editor page *)

(** ** Timers *)

Section TimerProperties.

Context {Args : Type}.
Implicit Types (s : Timers Args) (es : list (event Args)) (e : event Args).

Lemma run_snoc dt dd es e s0 :
  run dt dd (es ++ [e]) s0
  = match run dt dd es s0 with
    | Some s => step dt dd e s
    | None => None
    end.
Proof.
  revert s0. induction es as [|e0 es IH]; intros s0; simpl.
  - by destruct (step dt dd e s0).
  - destruct (step dt dd e0 s0); [apply IH|done].
Qed.

Lemma debounced_calls_snoc dt dd es e : ∀ s0 s,
  run dt dd es s0 = Some s →
  debounced_calls (clock s0) (es ++ [e])
  = debounced_calls (clock s0) es
    ++ match e with CallDebounced a => [(clock s, a)] | _ => [] end.
Proof.
  induction es as [|e0 es IH]; intros s0 s Hrun; simpl in Hrun.
  - injection Hrun as <-. simpl. by destruct e.
  - destruct (step dt dd e0 s0) as [s1|] eqn:Hs; [|done].
    specialize (IH s1 s Hrun).
    assert (Hclock : clock s1 = match e0 with Elapse d => clock s0 + d
                                         | _ => clock s0 end).
    { destruct e0 as [d|id|a c|a]; simpl in Hs.
      - by injection Hs as <-.
      - unfold timeout in Hs. destruct (pending s0 !! id) as [[due cb]|]; [|done].
        destruct (Nat.leb due (clock s0)); [|done]. injection Hs as <-.
        by destruct cb.
      - injection Hs as <-. unfold throttle.
        by destruct (throttle_timerFlag s0), c.
      - injection Hs as <-. unfold debounce.
        by destruct (debounce_timerFlag s0) as [[|d]|]. }
    destruct e0 as [d|id|a c|a]; simpl; rewrite Hclock in IH; by rewrite IH.
Qed.

Lemma held_off_snoc d (l : list (nat * wrapper * Args)) t w a :
  held_off d l →
  (∀ c, w = Throttle c → ∀ ti ai, (ti, Throttle Returns, ai) ∈ l → ti + d ≤ t) →
  held_off d (l ++ [(t, w, a)]).
Proof.
  intros Hl Ht i j ti tj ai aj cj Hij Hi Hj.
  destruct (decide (j < length l)) as [Hlt|Hge].
  - rewrite lookup_app_l in Hi, Hj by lia. exact (Hl i j ti tj ai aj cj Hij Hi Hj).
  - rewrite lookup_app_l in Hi.
    + rewrite lookup_app_r in Hj by lia.
      destruct (j - length l) as [|n] eqn:E; [|by destruct n].
      injection Hj as <- -> <-. apply (Ht cj eq_refl ti ai).
      by eapply list_elem_of_lookup_2.
    + apply lookup_lt_Some in Hj. rewrite length_app in Hj. simpl in Hj. lia.
Qed.

Lemma last_snoc' {A : Type} (l : list A) (x : A) : last (l ++ [x]) = Some x.
Proof. apply last_snoc. Qed.

Lemma timers_inv_start dt dd t0 : timers_inv dt dd t0 [] (@start Args t0).
Proof.
  split; [|split; [|split; [|split; [|split; [|split; [|split]]]]]]; simpl.
  - done.
  - intros id due cb H. by rewrite lookup_empty in H.
  - by intros d H.
  - by intros d due H.
  - intros id due H. by rewrite lookup_empty in H.
  - intros id due a H. by rewrite lookup_empty in H.
  - intros t a Ht. by apply not_elem_of_nil in Ht.
  - by intros i j ti tj ai aj cj _ Hi.
Qed.

Lemma timers_inv_step dt dd t0 es e s s' :
  run dt dd es (start t0) = Some s → timers_inv dt dd t0 es s →
  step dt dd e s = Some s' → timers_inv dt dd t0 (es ++ [e]) s'.
Proof.
  intros Hrun (Hnext & Hids & Hdflag & Hdnot & Hthr & Hdeb & Hflag & Hsp) Hstep.
  pose proof (debounced_calls_snoc dt dd es e (start t0) s Hrun) as Hcalls.
  unfold timers_inv.
  destruct e as [d|id|a c|a]; simpl in Hstep, Hcalls.
  - (* time passes *)
    injection Hstep as <-. rewrite Hcalls, app_nil_r.
    split; [done|]. split; [done|]. split; [done|]. split; [done|].
    split; [done|]. split; [done|]. split; [|done].
    simpl. destruct (throttle_timerFlag s); [done|].
    intros t a Ht. specialize (Hflag t a Ht). unfold elapse. simpl. lia.
  - (* a timer runs *)
    unfold timeout in Hstep.
    destruct (pending s !! id) as [[due cb]|] eqn:Hid; [|done].
    destruct (Nat.leb due (clock s)) eqn:Hdue; [|done].
    apply Nat.leb_le in Hdue. injection Hstep as <-.
    rewrite Hcalls, app_nil_r.
    assert (Hdel : ∀ id0 x, delete id (pending s) !! id0 = Some x →
                            id0 ≠ id ∧ pending s !! id0 = Some x).
    { intros id0 x H. destruct (decide (id0 = id)) as [->|Hne].
      - by rewrite lookup_delete_eq in H.
      - by rewrite lookup_delete_ne in H. }
    destruct cb as [|b].
    + pose proof (Hthr id due Hid) as Hf. rewrite Hf in Hflag.
      destruct Hflag as (due' & Hid' & Hle).
      assert (due' = due) by congruence. subst due'.
      split; [done|]. split.
      { simpl. intros id0 due0 cb0 H. apply Hdel in H as [_ H]. by eapply Hids. }
      split; [done|]. split.
      { simpl. intros d0 due0 Hd0 H. apply Hdel in H as [_ H]. by eapply Hdnot. }
      split.
      { simpl. intros id0 due0 H. apply Hdel in H as [Hne H].
        pose proof (Hthr id0 due0 H). congruence. }
      split.
      { simpl. intros id0 due0 a H. apply Hdel in H as [_ H]. by eapply Hdeb. }
      split; [|done].
      simpl. intros t a Ht. specialize (Hle t a Ht). lia.
    + destruct (Hdeb id due b Hid) as [Hf _].
      split; [done|]. split.
      { simpl. intros id0 due0 cb0 H. apply Hdel in H as [_ H]. by eapply Hids. }
      split; [done|]. split.
      { simpl. intros d0 due0 Hd0 H. apply Hdel in H as [_ H]. by eapply Hdnot. }
      split.
      { simpl. intros id0 due0 H. apply Hdel in H as [_ H]. by eapply Hthr. }
      split.
      { simpl. intros id0 due0 a H. apply Hdel in H as [Hne H].
        destruct (Hdeb id0 due0 a H) as [Hf0 _]. congruence. }
      assert (Hold : ∀ t a, (t, Throttle Returns, a)
                              ∈ invoked s ++ [(clock s, Debounce, b)] →
                            (t, Throttle Returns, a) ∈ invoked s).
      { intros t a Ht. apply elem_of_app in Ht as [Ht|Ht]; [done|].
        by apply list_elem_of_singleton in Ht. }
      split; [|by apply held_off_snoc].
      simpl. destruct (throttle_timerFlag s) as [tid|].
      * destruct Hflag as (due' & Htid & Hle). exists due'. split.
        -- rewrite lookup_delete_ne; [done|]. intros <-. congruence.
        -- intros t a Ht. by apply (Hle t a), Hold.
      * intros t a Ht. by apply (Hflag t a), Hold.
  - (* a call of the throttled function *)
    injection Hstep as <-. rewrite Hcalls, app_nil_r. unfold throttle.
    destruct (throttle_timerFlag s) as [tid|] eqn:Htf.
    { simpl. rewrite Htf. split; [done|]. split; [done|]. split; [done|].
      split; [done|]. split; [done|]. split; [done|]. by split. }
    assert (Hsp' : held_off dt (invoked s ++ [(clock s, Throttle c, a)])).
    { apply held_off_snoc; [done|]. intros _ _ ti ai Hti. by apply (Hflag ti ai). }
    destruct c; simpl.
    2:{ (* the call throws: no timer, [timerFlag] stays null *)
      rewrite Htf. split; [done|]. split; [done|]. split; [done|].
      split; [done|]. split; [done|]. split; [done|]. split; [|done].
      intros t b Ht. apply elem_of_app in Ht as [Ht|Ht]; [by apply (Hflag t b)|].
      by apply list_elem_of_singleton in Ht. }
    assert (Hins : ∀ id0 x,
              <[next_timer s := (clock s + dt, throttle_expired)]> (pending s) !! id0
              = Some x →
              (id0 = next_timer s ∧ x = (clock s + dt, throttle_expired)) ∨
              (id0 ≠ next_timer s ∧ pending s !! id0 = Some x)).
    { intros id0 x H. destruct (decide (id0 = next_timer s)) as [->|Hne].
      - rewrite lookup_insert_eq in H. left. by injection H as <-.
      - rewrite lookup_insert_ne in H by done. by right. }
    simpl. split; [lia|]. split.
    { simpl. intros id0 due0 cb0 H. apply Hins in H as [[-> _]|[_ H]]; [lia|].
      specialize (Hids _ _ _ H). lia. }
    split.
    { simpl. intros d0 Hd0. specialize (Hdflag d0 Hd0). lia. }
    split.
    { simpl. intros d0 due0 Hd0 H. apply Hins in H as [[-> _]|[_ H]].
      - specialize (Hdflag _ Hd0). lia.
      - by eapply Hdnot. }
    split.
    { simpl. intros id0 due0 H. apply Hins in H as [[-> _]|[_ H]]; [done|].
      pose proof (Hthr id0 due0 H). congruence. }
    split.
    { simpl. intros id0 due0 b H. apply Hins in H as [[_ [=]]|[_ H]].
      by eapply Hdeb. }
    split; [|done].
    exists (clock s + dt). split; [apply lookup_insert_eq|].
    intros t b Ht. apply elem_of_app in Ht as [Ht|Ht].
    + specialize (Hflag t b Ht). lia.
    + apply list_elem_of_singleton in Ht. injection Ht as -> _. lia.
  - (* a call of the debounced function *)
    injection Hstep as <-. rewrite Hcalls, last_snoc. unfold debounce.
    set (s1 := match debounce_timerFlag s with
               | Some (S id) => clearTimeout (S id) s
               | _ => s
               end).
    assert (Hs1 : clock s1 = clock s ∧ next_timer s1 = next_timer s ∧
                  throttle_timerFlag s1 = throttle_timerFlag s ∧
                  invoked s1 = invoked s).
    { unfold s1. by destruct (debounce_timerFlag s) as [[|d]|]. }
    destruct Hs1 as (Hc1 & Hn1 & Ht1 & Hi1).
    assert (Hp1 : ∀ id0 x, pending s1 !! id0 = Some x →
                  pending s !! id0 = Some x ∧ debounce_timerFlag s ≠ Some id0).
    { intros id0 [due0 cb0] H. unfold s1 in H.
      destruct (debounce_timerFlag s) as [[|d]|] eqn:Hdf.
      - split; [done|]. intros [= <-]. specialize (Hids _ _ _ H). lia.
      - simpl in H. destruct (decide (id0 = S d)) as [->|Hne].
        + by rewrite lookup_delete_eq in H.
        + rewrite lookup_delete_ne in H by done. split; [done|]. congruence.
      - by split. }
    assert (Hp1' : ∀ id0 due0, pending s !! id0 = Some (due0, throttle_expired) →
                   pending s1 !! id0 = Some (due0, throttle_expired)).
    { intros id0 due0 H. unfold s1.
      destruct (debounce_timerFlag s) as [[|d]|] eqn:Hdf; [done| |done].
      simpl. rewrite lookup_delete_ne; [done|]. intros <-.
      by apply (Hdnot (S d) due0). }
    assert (Hins : ∀ id0 x,
              <[next_timer s := (clock s1 + dd, debounce_expired a)]> (pending s1) !! id0
              = Some x →
              (id0 = next_timer s ∧ x = (clock s + dd, debounce_expired a)) ∨
              (id0 ≠ next_timer s ∧ pending s !! id0 = Some x ∧
               debounce_timerFlag s ≠ Some id0)).
    { intros id0 x H. rewrite Hc1 in H.
      destruct (decide (id0 = next_timer s)) as [->|Hne].
      - rewrite lookup_insert_eq in H. left. by injection H as <-.
      - rewrite lookup_insert_ne in H by done. right. split; [done|].
        by apply Hp1. }
    simpl. rewrite Hn1. split; [lia|]. split.
    { simpl. intros id0 due0 cb0 H. apply Hins in H as [[-> _]|(_ & H & _)]; [lia|].
      specialize (Hids _ _ _ H). lia. }
    split.
    { simpl. intros d0 [= <-]. lia. }
    split.
    { simpl. intros d0 due0 [= <-] H. apply Hins in H.
      destruct H as [[_ [=]]|[Hne _]]. done. }
    split.
    { simpl. intros id0 due0 H. apply Hins in H as [[_ [=]]|(_ & H & _)].
      rewrite Ht1. by eapply Hthr. }
    split.
    { simpl. intros id0 due0 b H. apply Hins in H as [[-> [= -> ->]]|(_ & H & Hn)].
      - split; [done|]. by exists (clock s).
      - destruct (Hdeb id0 due0 b H) as [Hf _]. done. }
    rewrite Hi1. split; [|done].
    rewrite Ht1. destruct (throttle_timerFlag s) as [tid|]; [|by rewrite Hc1].
    destruct Hflag as (due' & Htid & Hle). exists due'. split; [|done].
    rewrite lookup_insert_ne.
    + by apply Hp1'.
    + specialize (Hids _ _ _ Htid). lia.
Qed.

Lemma timers_inv_run dt dd t0 es s :
  run dt dd es (start t0) = Some s → timers_inv dt dd t0 es s.
Proof.
  revert s. induction es as [|e es IH] using rev_ind; intros s Hrun.
  - injection Hrun as <-. apply timers_inv_start.
  - rewrite run_snoc in Hrun.
    destruct (run dt dd es (start t0)) as [s0|] eqn:H0; [|done].
    exact (timers_inv_step dt dd t0 es e s0 s H0 (IH s0 eq_refl) Hrun).
Qed.

(** X11: whatever the calls and the timers do, a call of [mainFunction]
    by the throttled function that returned is followed by another call of
    [mainFunction] by the throttled function, whether that one returns or
    throws, the delay later at the earliest.  (A call that throws does not
    start the delay: [timerFlag] stays null.) *)
Theorem throttled_calls_are_spaced dt dd t0 es s i j ti tj ai aj cj :
  run dt dd es (start t0) = Some s →
  i < j →
  invoked s !! i = Some (ti, Throttle Returns, ai) →
  invoked s !! j = Some (tj, Throttle cj, aj) →
  ti + dt ≤ tj.
Proof.
  intros Hrun Hij Hi Hj.
  destruct (timers_inv_run dt dd t0 es s Hrun) as (_ & _ & _ & _ & _ & _ & _ & Hsp).
  exact (Hsp i j ti tj ai aj cj Hij Hi Hj).
Qed.

(** X12: when the browser runs a timer of the debounced function,
    [mainFunction] is called once, with the arguments of the latest call of
    the debounced function, no earlier than the delay after that call; no
    timer of an earlier call is left, so the calls it superseded never
    reach [mainFunction]. *)
Theorem debounce_runs_the_latest_call dt dd t0 es s id due a s' :
  run dt dd es (start t0) = Some s →
  pending s !! id = Some (due, debounce_expired a) →
  timeout id s = Some s' →
  ∃ tc,
    last (debounced_calls t0 es) = Some (tc, a) ∧ tc + dd ≤ clock s ∧
    invoked s' = invoked s ++ [(clock s, Debounce, a)] ∧
    ∀ id' due' b, pending s' !! id' ≠ Some (due', debounce_expired b).
Proof.
  intros Hrun Hid Hfire.
  destruct (timers_inv_run dt dd t0 es s Hrun) as (_ & _ & _ & _ & _ & Hdeb & _).
  destruct (Hdeb id due a Hid) as (Hflag & tc & Hlast & ->).
  unfold timeout in Hfire. rewrite Hid in Hfire.
  destruct (Nat.leb (tc + dd) (clock s)) eqn:Hdue; [|done].
  apply Nat.leb_le in Hdue. injection Hfire as <-.
  exists tc. split; [done|]. split; [done|]. split; [done|].
  intros id' due' b H. simpl in H.
  destruct (decide (id' = id)) as [->|Hne].
  - by rewrite lookup_delete_eq in H.
  - rewrite lookup_delete_ne in H by done.
    destruct (Hdeb id' due' b H) as [Hflag' _]. congruence.
Qed.

(** X13: a call of the debounced function does not call [mainFunction];
    it leaves exactly one timer of the debounced function registered, the
    one for this call, due the delay later: the timer of the call before
    it, if it had not run yet, is cancelled. *)
Theorem debounced_call_replaces_the_pending_one dt dd t0 es s a id due b :
  run dt dd es (start t0) = Some s →
  invoked (debounce dd a s) = invoked s ∧
  (pending (debounce dd a s) !! id = Some (due, debounce_expired b) ↔
   id = next_timer s ∧ due = clock s + dd ∧ b = a).
Proof.
  intros Hrun.
  assert (Hrun' : run dt dd (es ++ [CallDebounced a]) (start t0)
                  = Some (debounce dd a s)) by (by rewrite run_snoc, Hrun).
  destruct (timers_inv_run _ _ _ _ _ Hrun') as (_ & _ & _ & _ & _ & Hdeb & _).
  assert (Hshape : invoked (debounce dd a s) = invoked s ∧
                   debounce_timerFlag (debounce dd a s) = Some (next_timer s) ∧
                   pending (debounce dd a s) !! next_timer s
                   = Some (clock s + dd, debounce_expired a)).
  { unfold debounce. destruct (debounce_timerFlag s) as [[|d]|]; simpl;
      by rewrite lookup_insert_eq. }
  destruct Hshape as (Hinv & Hflag & Hnew). split; [done|]. split.
  - intros H. destruct (Hdeb id due b H) as [Hf _].
    assert (id = next_timer s) by congruence. subst id.
    rewrite Hnew in H. by injection H as <- <-.
  - by intros (-> & -> & ->).
Qed.

End TimerProperties.

Lemma throttled_calls_are_spaced_witness :
  ∃ s,
    run 200 400 [CallThrottled "a" Throws; CallThrottled "b" Returns;
                 Elapse 150; CallThrottled "c" Returns; Elapse 60; Timeout 1;
                 CallThrottled "d" Throws] (start 1000) = Some s ∧
    invoked s = [(1000, Throttle Throws, "a"); (1000, Throttle Returns, "b");
                 (1210, Throttle Throws, "d")] ∧
    1000 + 200 ≤ 1210.
Proof.
  eexists. split; [vm_compute; reflexivity|]. split; [vm_compute; reflexivity|].
  eapply (throttled_calls_are_spaced 200 400 1000
            [CallThrottled "a" Throws; CallThrottled "b" Returns; Elapse 150;
             CallThrottled "c" Returns; Elapse 60; Timeout 1;
             CallThrottled "d" Throws] _ 1 2 1000 1210 "b" "d" Throws).
  - vm_compute. reflexivity.
  - lia.
  - vm_compute. reflexivity.
  - vm_compute. reflexivity.
Defined.

Lemma debounce_runs_the_latest_call_witness :
  ∃ s s' tc,
    run 200 400 [CallDebounced "a"; Elapse 100; CallDebounced "b"; Elapse 400]
        (start 0) = Some s ∧
    timeout 2 s = Some s' ∧
    last (debounced_calls 0 [CallDebounced "a"; Elapse 100; CallDebounced "b";
                             Elapse 400]) = Some (tc, "b") ∧
    tc + 400 ≤ clock s ∧
    invoked s' = invoked s ++ [(clock s, Debounce, "b")] ∧
    ∀ id' due' b, pending s' !! id' ≠ Some (due', debounce_expired b).
Proof.
  destruct (run 200 400 [CallDebounced "a"; Elapse 100; CallDebounced "b";
                         Elapse 400] (start 0)) as [s|] eqn:Hrun;
    [|vm_compute in Hrun; discriminate].
  destruct (timeout 2 s) as [s'|] eqn:Hfire;
    [|vm_compute in Hrun; injection Hrun as <-; vm_compute in Hfire; discriminate].
  destruct (debounce_runs_the_latest_call 200 400 0 _ s 2 500 "b" s' Hrun)
    as (tc & H); [|exact Hfire|].
  - vm_compute in Hrun. injection Hrun as <-. vm_compute. reflexivity.
  - exists s, s', tc. split; [reflexivity|]. split; [exact Hfire|]. exact H.
Defined.

Lemma debounced_call_replaces_the_pending_one_witness :
  ∃ s,
    run 200 400 [CallDebounced "a"; Elapse 100] (start 0) = Some s ∧
    invoked (debounce 400 "b" s) = invoked s ∧
    (pending (debounce 400 "b" s) !! 2 = Some (500, debounce_expired "b") ↔
     2 = next_timer s ∧ 500 = clock s + 400 ∧ "b" = "b").
Proof.
  destruct (run 200 400 [CallDebounced "a"; Elapse 100] (start 0))
    as [s|] eqn:Hrun; [|vm_compute in Hrun; discriminate].
  exists s. split; [reflexivity|].
  apply (debounced_call_replaces_the_pending_one 200 400 0 _ s "b" 2 500 "b" Hrun).
Defined.

(** ** The component [DocPage] *)

Section PageProperties.

Context {number : Type}.
Variable at_most_zero : number → bool.
Implicit Types (page : @DocPage number) (m : @WSMessage number)
  (u : UserDataType) (e : @page_event number).

Lemma page_run_snoc es e page0 :
  page_run at_most_zero (es ++ [e]) page0
  = match page_run at_most_zero es page0 with
    | Some page => page_step at_most_zero e page
    | None => None
    end.
Proof.
  revert page0. induction es as [|e0 es IH]; intros page0; simpl.
  - by destruct (page_step at_most_zero e page0).
  - destruct (page_step at_most_zero e0 page0); [apply IH|done].
Qed.

Lemma handleServerResponse_users m page :
  users (handleServerResponse m page)
  = if String.eqb (wsType m) "user-added"
    then users page ++ [userData (wsData m)]
    else if String.eqb (wsType m) "user-removed"
         then filter (λ u, userId u ≠ userId (userData (wsData m))) (users page)
         else users page.
Proof.
  unfold handleServerResponse.
  destruct (String.eqb (wsType m) "user-added") eqn:Ha.
  - apply String.eqb_eq in Ha. rewrite Ha. simpl.
    unfold handleUserCursors, applyRemoteUpdate. reflexivity.
  - destruct (String.eqb (wsType m) "user-removed") eqn:Hr;
      destruct (String.eqb (wsType m) "content");
      destruct (String.eqb (wsType m) "user-data"); simpl;
      unfold handleUserCursors, applyRemoteUpdate;
      repeat (match goal with
              | |- context [decide ?P] => destruct (decide P)
              | |- context [contentArea ?p] => destruct (contentArea p)
              end; simpl); reflexivity.
Qed.

Lemma page_step_users e page page' :
  page_step at_most_zero e page = Some page' →
  users page'
  = match e with
    | Received m => users (handleServerResponse m page)
    | _ => users page
    end.
Proof.
  destruct e as [ev| |m| |dt|id]; simpl.
  - intros [= <-]. unfold handleInputTyping.
    destruct ev as [ev|]; [|done]. destruct (rect ev) as [[l t]|]; [|done].
    destruct (at_most_zero t); [done|].
    by destruct (throttle _ _ _ _) as [[] ?].
  - destruct (readyState page); try done. by intros [= <-].
  - destruct (readyState page); try done. by intros [= <-].
  - destruct (readyState page); try done; by intros [= <-].
  - by intros [= <-].
  - destruct (timeout id (timers page)); [|done]. by intros [= <-].
Qed.

Lemma messages_snoc es e :
  messages (es ++ [e])
  = messages es ++ match e with Received m => [m] | _ => [] end.
Proof. unfold messages. rewrite omap_app. by destruct e. Qed.

Lemma announced_and_not_removed_snoc (ms : list (@WSMessage number)) m :
  announced_and_not_removed (ms ++ [m])
  = if String.eqb (wsType m) "user-added"
    then announced_and_not_removed ms ++ [userData (wsData m)]
    else if String.eqb (wsType m) "user-removed"
         then filter (λ u, userId u ≠ userId (userData (wsData m)))
                (announced_and_not_removed ms)
         else announced_and_not_removed ms.
Proof.
  induction ms as [|m0 ms IH].
  - simpl. rewrite andb_true_r.
    destruct (String.eqb (wsType m) "user-added"); [done|].
    by destruct (String.eqb (wsType m) "user-removed").
  - cbn [app announced_and_not_removed]. rewrite IH, forallb_app. simpl.
    rewrite andb_true_r.
    destruct (String.eqb (wsType m0) "user-added");
      destruct (forallb _ ms); simpl;
      try (by destruct (String.eqb (wsType m) "user-added");
              destruct (String.eqb (wsType m) "user-removed")).
    destruct (String.eqb (wsType m) "user-added") eqn:Ha.
    + apply String.eqb_eq in Ha. by rewrite Ha.
    + destruct (String.eqb (wsType m) "user-removed") eqn:Hr; simpl; [|done].
      destruct (decide (userId (userData (wsData m))
                        = userId (userData (wsData m0)))) as [Heq|Hne].
      * rewrite bool_decide_eq_true_2 by done. simpl.
        rewrite filter_cons_False; [done|]. intros H. by apply H.
      * rewrite bool_decide_eq_false_2 by done. simpl.
        rewrite filter_cons_True; [done|]. intros H. by apply Hne.
Qed.

(** X14: the list of users the page shows, after any sequence of events
    from a page that lists nobody, is the list of the users of the
    user-added messages received that no later user-removed message with
    the same user id followed, in the order of these messages and with one
    entry for each of them: nothing deduplicates, so a user announced twice
    is listed twice. *)
Theorem users_follow_the_presence_messages es page0 page :
  users page0 = [] →
  page_run at_most_zero es page0 = Some page →
  users page = announced_and_not_removed (messages es).
Proof.
  intros H0. revert page.
  induction es as [|e es IH] using rev_ind; intros page Hrun.
  - by injection Hrun as <-.
  - rewrite page_run_snoc in Hrun.
    destruct (page_run at_most_zero es page0) as [page1|] eqn:H1; [|done].
    specialize (IH page1 eq_refl). rewrite messages_snoc.
    rewrite (page_step_users e page1 page Hrun).
    destruct e as [ev| |m| |dt|id]; simpl; try (by rewrite app_nil_r).
    by rewrite handleServerResponse_users, announced_and_not_removed_snoc, IH.
Qed.

Lemma handleUserCursors_NoDup (data : @ContentPayload number) page :
  NoDup (cursor_ids (userCursors page)) →
  NoDup (cursor_ids (userCursors (handleUserCursors data page))).
Proof.
  intros Hnd. unfold handleUserCursors. simpl.
  set (P := λ item : @UserCursor number,
              userId (cursorUserData item) ≠ userId (userData data)).
  assert (Hf : NoDup (cursor_ids (filter P (userCursors page)))).
  { eapply sublist_NoDup; [exact Hnd|].
    unfold cursor_ids. apply fmap_sublist, sublist_filter. }
  destruct (decide (userId (userDataRef page) = userId (userData data)));
    [exact Hf|].
  unfold cursor_ids. rewrite fmap_app. apply NoDup_app.
  split; [exact Hf|]. split; [|apply NoDup_singleton].
  intros x Hx Hin. simpl in Hin. apply list_elem_of_singleton in Hin as ->.
  apply list_elem_of_fmap in Hx as (item & Hid & Hitem).
  apply list_elem_of_filter in Hitem as [HP _]. by apply HP.
Qed.

Lemma handleServerResponse_NoDup m page :
  NoDup (cursor_ids (userCursors page)) →
  NoDup (cursor_ids (userCursors (handleServerResponse m page))).
Proof.
  intros Hnd.
  assert (Hc : NoDup (cursor_ids (userCursors
                 (handleUserCursors (wsData m)
                    (applyRemoteUpdate (content (wsData m)) page))))).
  { apply handleUserCursors_NoDup. unfold applyRemoteUpdate.
    by destruct (contentArea page). }
  unfold handleServerResponse.
  destruct (String.eqb (wsType m) "content");
    destruct (String.eqb (wsType m) "user-data");
    destruct (String.eqb (wsType m) "user-added");
    destruct (String.eqb (wsType m) "user-removed");
    try destruct (decide (userId (userData (wsData m)) ≠ userId (userDataRef page)));
    simpl; done.
Qed.

Lemma page_step_userCursors e page page' :
  page_step at_most_zero e page = Some page' →
  userCursors page'
  = match e with
    | Received m => userCursors (handleServerResponse m page)
    | _ => userCursors page
    end.
Proof.
  destruct e as [ev| |m| |dt|id]; simpl.
  - intros [= <-]. unfold handleInputTyping.
    destruct ev as [ev|]; [|done]. destruct (rect ev) as [[l t]|]; [|done].
    destruct (at_most_zero t); [done|].
    by destruct (throttle _ _ _ _) as [[] ?].
  - destruct (readyState page); try done. by intros [= <-].
  - destruct (readyState page); try done. by intros [= <-].
  - destruct (readyState page); try done; by intros [= <-].
  - by intros [= <-].
  - destruct (timeout id (timers page)); [|done]. by intros [= <-].
Qed.

(** X15: the page never shows two cursors with the same user id: from a
    page whose cursors have different user ids, so from the initial one,
    any sequence of typing, messages and timers leaves the user ids of
    the cursors different from each other. *)
Theorem cursors_have_distinct_ids es page0 page :
  NoDup (cursor_ids (userCursors page0)) →
  page_run at_most_zero es page0 = Some page →
  NoDup (cursor_ids (userCursors page)).
Proof.
  revert page0. induction es as [|e es IH]; intros page0 Hnd Hrun; simpl in Hrun.
  - by injection Hrun as <-.
  - destruct (page_step at_most_zero e page0) as [page1|] eqn:Hstep; [|done].
    apply (IH page1); [|done].
    rewrite (page_step_userCursors e page0 page1 Hstep).
    destruct e; try done. by apply handleServerResponse_NoDup.
Qed.

(** *** What the page sends *)

Lemma run_app {Args : Type} dt dd (es1 es2 : list (event Args)) s0 :
  run dt dd (es1 ++ es2) s0
  = match run dt dd es1 s0 with
    | Some s => run dt dd es2 s
    | None => None
    end.
Proof.
  revert s0. induction es1 as [|e es1 IH]; intros s0; simpl; [done|].
  destruct (step dt dd e s0); [apply IH|done].
Qed.

Lemma page_run_app es1 es2 page0 :
  page_run at_most_zero (es1 ++ es2) page0
  = match page_run at_most_zero es1 page0 with
    | Some page => page_run at_most_zero es2 page
    | None => None
    end.
Proof.
  revert page0. induction es1 as [|e es1 IH]; intros page0; simpl; [done|].
  destruct (page_step at_most_zero e page0); [apply IH|done].
Qed.

Lemma handleServerResponse_timers m page :
  timers (handleServerResponse m page) = timers page.
Proof.
  unfold handleServerResponse, handleUserCursors, applyRemoteUpdate.
  destruct (String.eqb (wsType m) "content");
    destruct (String.eqb (wsType m) "user-data");
    destruct (String.eqb (wsType m) "user-added");
    destruct (String.eqb (wsType m) "user-removed");
    try destruct (decide (userId (userData (wsData m)) ≠ userId (userDataRef page)));
    simpl; try done; by destruct (contentArea page).
Qed.

Lemma handleServerResponse_readyState m page :
  readyState (handleServerResponse m page) = readyState page.
Proof.
  unfold handleServerResponse, handleUserCursors, applyRemoteUpdate.
  destruct (String.eqb (wsType m) "content");
    destruct (String.eqb (wsType m) "user-data");
    destruct (String.eqb (wsType m) "user-added");
    destruct (String.eqb (wsType m) "user-removed");
    try destruct (decide (userId (userData (wsData m)) ≠ userId (userDataRef page)));
    simpl; try done; by destruct (contentArea page).
Qed.

(** The timers of the page only change as the timers of [utils.ts] do. *)
Lemma page_step_timers e page page' :
  page_step at_most_zero e page = Some page' →
  ∃ tes, run 200 400 tes (timers page) = Some (timers page').
Proof.
  destruct e as [ev| |m| |dt|id]; simpl.
  - intros [= <-]. unfold handleInputTyping.
    destruct ev as [ev|]; [|by exists []].
    destruct (rect ev) as [[l t]|]; [|by exists []].
    destruct (at_most_zero t); [by exists []|].
    set (p := {| content := innerHTML ev; position := (l, t);
                 userData := userDataRef page |}).
    destruct (throttle 200 p (send_completion page) (timers page))
      as [c t1] eqn:Ht.
    destruct c.
    + exists [CallThrottled p (send_completion page); CallDebounced p].
      simpl. by rewrite Ht.
    + exists [CallThrottled p (send_completion page)]. simpl. by rewrite Ht.
  - destruct (readyState page); try done. intros [= <-]. by exists [].
  - destruct (readyState page); try done. intros [= <-]. exists [].
    by rewrite handleServerResponse_timers.
  - destruct (readyState page); try done; intros [= <-]; by exists [].
  - intros [= <-]. by exists [Elapse dt].
  - destruct (timeout id (timers page)) as [t|] eqn:Ht; [|done].
    intros [= <-]. exists [Timeout id]. simpl. by rewrite Ht.
Qed.

Lemma page_run_timers es page0 page :
  page_run at_most_zero es page0 = Some page →
  ∃ tes, run 200 400 tes (timers page0) = Some (timers page).
Proof.
  revert page0. induction es as [|e es IH]; intros page0 Hrun; simpl in Hrun.
  - injection Hrun as <-. by exists [].
  - destruct (page_step at_most_zero e page0) as [page1|] eqn:Hstep; [|done].
    destruct (page_step_timers e page0 page1 Hstep) as [tes1 H1].
    destruct (IH page1 Hrun) as [tes2 H2].
    exists (tes1 ++ tes2). by rewrite run_app, H1.
Qed.

(** What an event that is no input event does to the timers. *)
Lemma page_step_quiet e page page' :
  is_typing e = false → page_step at_most_zero e page = Some page' →
  timers page' = timers page ∨
  (∃ dt, timers page' = elapse dt (timers page)) ∨
  (∃ id, timeout id (timers page) = Some (timers page')).
Proof.
  destruct e as [ev| |m| |dt|id]; simpl; [done|..]; intros _.
  - destruct (readyState page); try done. intros [= <-]. by left.
  - destruct (readyState page); try done. intros [= <-]. left.
    by rewrite handleServerResponse_timers.
  - destruct (readyState page); try done; intros [= <-]; by left.
  - intros [= <-]. right. left. by exists dt.
  - destruct (timeout id (timers page)) as [t|] eqn:Ht; [|done].
    intros [= <-]. right. right. by exists id.
Qed.

Lemma waiting_or_sent_debounce {Args : Type} dd (p : Args) s :
  waiting_or_sent p (debounce dd p s).
Proof.
  left. unfold debounce.
  destruct (debounce_timerFlag s) as [[|d]|]; simpl;
    eexists _, _; (split; [reflexivity|]); apply lookup_insert_eq.
Qed.

Lemma waiting_or_sent_timeout {Args : Type} dt dd t0 tes (p : Args) id s s' :
  timers_inv dt dd t0 tes s → waiting_or_sent p s →
  timeout id s = Some s' → waiting_or_sent p s'.
Proof.
  intros (_ & _ & _ & _ & _ & Hdeb & _) Hw. unfold timeout.
  destruct (pending s !! id) as [[due cb]|] eqn:Hid; [|done].
  destruct (Nat.leb due (clock s)); [|done]. intros [= <-].
  destruct cb as [|a]; simpl.
  - destruct Hw as [(fid & fdue & Hflag & Hp)|[Hnone Hlast]].
    + left. exists fid, fdue. simpl. split; [done|].
      rewrite lookup_delete_ne; [done|]. intros ->. congruence.
    + right. simpl. split; [|done]. intros id' due' a' H.
      apply lookup_delete_Some in H as [_ H]. by apply Hnone in H.
  - destruct Hw as [(fid & fdue & Hflag & Hp)|[Hnone Hlast]].
    + destruct (Hdeb id due a Hid) as [Hf _].
      assert (fid = id) as -> by congruence.
      assert (a = p) as -> by congruence.
      right. simpl. split.
      * intros id' due' a' H. apply lookup_delete_Some in H as [Hne H].
        destruct (Hdeb id' due' a' H) as [Hf' _]. congruence.
      * exists (clock s). apply last_snoc.
    + by apply Hnone in Hid.
Qed.

(** X16: the last edit is what the socket is handed last.  After an input
    event that [handleInputTyping] accepts on a page whose socket is no
    longer connecting, and as long as no other input event follows,
    whatever messages arrive and timers run: either the timer of the
    debounced sender is pending with the payload of this edit (its markup,
    the position of the selection, the user data of the page at that
    time), or no timer of the debounced sender is pending and the last call
    of the sending function was the debounced one with this payload. *)
Theorem last_edit_is_sent_last t0 es0 page1 ev l t es1 page :
  page_run at_most_zero es0 (initial_page t0) = Some page1 →
  readyState page1 ≠ CONNECTING →
  rect ev = Some (l, t) →
  at_most_zero t = false →
  forallb (λ e, negb (is_typing e)) es1 = true →
  page_run at_most_zero es1 (handleInputTyping at_most_zero (Some ev) page1)
    = Some page →
  waiting_or_sent
    {| content := innerHTML ev; position := (l, t);
       userData := userDataRef page1 |}
    (timers page).
Proof.
  intros Hrun0 Hopen Hrect Htop. revert page.
  induction es1 as [|e es1 IH] using rev_ind; intros page Hquiet Hrun.
  - injection Hrun as <-. unfold handleInputTyping. rewrite Hrect, Htop.
    assert (Hc : send_completion page1 = Returns)
      by (unfold send_completion; by destruct (readyState page1)).
    rewrite Hc. unfold throttle.
    destruct (throttle_timerFlag (timers page1)); simpl;
      apply waiting_or_sent_debounce.
  - rewrite forallb_app in Hquiet. apply andb_true_iff in Hquiet as [Hq He].
    simpl in He. rewrite andb_true_r in He. apply negb_true_iff in He.
    rewrite page_run_snoc in Hrun.
    destruct (page_run at_most_zero es1
                (handleInputTyping at_most_zero (Some ev) page1))
      as [page2|] eqn:Hrun1; [|done].
    specialize (IH page2 Hq eq_refl).
    assert (Hinv : ∃ tes, timers_inv 200 400 t0 tes (timers page2)).
    { assert (Hall : page_run at_most_zero (es0 ++ Typing (Some ev) :: es1)
                       (initial_page t0) = Some page2).
      { rewrite page_run_app, Hrun0. simpl. exact Hrun1. }
      destruct (page_run_timers _ _ _ Hall) as [tes Htes].
      exists tes. by apply timers_inv_run. }
    destruct Hinv as [tes Hinv].
    destruct (page_step_quiet e page2 page He Hrun) as [->|[[dt ->]|[id Hto]]].
    + done.
    + done.
    + by eapply waiting_or_sent_timeout.
Qed.

(** *** Input before the socket is open *)

Lemma connecting_before e page page' :
  page_step at_most_zero e page = Some page' →
  readyState page' = CONNECTING → readyState page = CONNECTING.
Proof.
  destruct e as [ev| |m| |dt|id]; simpl.
  - intros [= <-]. unfold handleInputTyping.
    destruct ev as [ev|]; [|done]. destruct (rect ev) as [[l t]|]; [|done].
    destruct (at_most_zero t); [done|].
    by destruct (throttle _ _ _ _) as [[] ?].
  - destruct (readyState page); try done; by intros [= <-].
  - destruct (readyState page) eqn:Hr; try done. intros [= <-].
    by rewrite handleServerResponse_readyState, Hr.
  - destruct (readyState page); try done; by intros [= <-].
  - by intros [= <-].
  - destruct (timeout id (timers page)); [|done]. by intros [= <-].
Qed.

Lemma connecting_page es : ∀ t0 page,
  page_run at_most_zero es (initial_page t0) = Some page →
  readyState page = CONNECTING →
  never_sent (timers page) ∧ throttle_timerFlag (timers page) = None.
Proof.
  induction es as [|e es IH] using rev_ind; intros t0 page Hrun Hc.
  - injection Hrun as <-. split; [|done]. split; [done|].
    intros x Hx. by apply not_elem_of_nil in Hx.
  - rewrite page_run_snoc in Hrun.
    destruct (page_run at_most_zero es (initial_page t0)) as [page1|] eqn:H1;
      [|done].
    pose proof (connecting_before e page1 page Hrun Hc) as Hc1.
    pose proof (IH t0 page1 H1 Hc1) as Hsame. destruct Hsame as [[Hp Hi] Hf].
    assert (Hsame : never_sent (timers page1)
                    ∧ throttle_timerFlag (timers page1) = None)
      by (split; [split|]; done).
    destruct e as [ev| |m| |dt|id]; simpl in Hrun.
    + injection Hrun as <-. unfold handleInputTyping.
      destruct ev as [ev|]; [|done]. destruct (rect ev) as [[l t]|]; [|done].
      destruct (at_most_zero t); [done|].
      unfold send_completion, throttle. rewrite Hc1, Hf. simpl.
      split; [|done]. split; [done|].
      intros x Hx. apply elem_of_app in Hx as [Hx|Hx]; [by apply Hi|].
      apply list_elem_of_singleton in Hx as ->. eauto.
    + rewrite Hc1 in Hrun. injection Hrun as <-. simpl in Hc. done.
    + by rewrite Hc1 in Hrun.
    + rewrite Hc1 in Hrun. injection Hrun as <-. simpl in Hc. done.
    + injection Hrun as <-. simpl. split; [|done]. by split.
    + unfold timeout in Hrun. rewrite Hp, lookup_empty in Hrun. done.
Qed.

Lemma never_sent_quiet e page page' :
  is_typing e = false → page_step at_most_zero e page = Some page' →
  never_sent (timers page) → never_sent (timers page').
Proof.
  intros He Hstep [Hp Hi].
  destruct (page_step_quiet e page page' He Hstep) as [->|[[dt ->]|[id Hto]]].
  - done.
  - done.
  - unfold timeout in Hto. by rewrite Hp, lookup_empty in Hto.
Qed.

(** X17: an edit typed before the socket is open is never sent.  On a
    page whose socket is still connecting, every call of the sending
    function so far was made by the throttled sender and threw, and no
    timer is pending; this stays so through whatever happens next, the
    socket opening included, until the next input event. *)
Theorem edits_before_open_are_lost t0 es page es' page' :
  page_run at_most_zero es (initial_page t0) = Some page →
  readyState page = CONNECTING →
  forallb (λ e, negb (is_typing e)) es' = true →
  page_run at_most_zero es' page = Some page' →
  never_sent (timers page').
Proof.
  intros Hrun Hc.
  destruct (connecting_page es t0 page Hrun Hc) as [Hnever _].
  clear Hrun Hc. revert page Hnever.
  induction es' as [|e es' IH]; intros page Hnever Hquiet Hrun'; simpl in *.
  - by injection Hrun' as <-.
  - apply andb_true_iff in Hquiet as [He Hq]. apply negb_true_iff in He.
    destruct (page_step at_most_zero e page) as [page1|] eqn:Hstep; [|done].
    apply (IH page1); [|done|done].
    by apply (never_sent_quiet e page).
Qed.

End PageProperties.

Lemma users_follow_the_presence_messages_witness :
  ∃ page,
    page_run Z_at_most_zero comings_and_goings (initial_page 0) = Some page ∧
    announced_and_not_removed (messages comings_and_goings) = [bob; bob] ∧
    users page = announced_and_not_removed (messages comings_and_goings).
Proof.
  eexists. split; [vm_compute; reflexivity|]. split; [vm_compute; reflexivity|].
  apply (users_follow_the_presence_messages Z_at_most_zero comings_and_goings
           (initial_page 0)); reflexivity.
Defined.

Lemma cursors_have_distinct_ids_witness :
  ∃ page,
    page_run Z_at_most_zero remote_edits (initial_page 0) = Some page ∧
    cursor_ids (userCursors page) = [userId bob; userId alice] ∧
    NoDup (cursor_ids (userCursors page)).
Proof.
  eexists. split; [vm_compute; reflexivity|]. split; [reflexivity|].
  apply (cursors_have_distinct_ids Z_at_most_zero remote_edits (initial_page 0));
    [apply NoDup_nil_2|reflexivity].
Defined.

Lemma last_edit_is_sent_last_witness :
  ∃ page1 page,
    page_run Z_at_most_zero remote_edits (initial_page 0) = Some page1 ∧
    readyState page1 = OPEN ∧
    page_run Z_at_most_zero [Passes 250; Fires 1; Passes 150; Fires 2]
      (handleInputTyping Z_at_most_zero (Some keystroke) page1) = Some page ∧
    invoked (timers page)
    = [(0, Throttle Returns,
        {| content := "<p>abcd</p>"; position := (64, 60)%Z; userData := carol |});
       (400, Debounce,
        {| content := "<p>abcd</p>"; position := (64, 60)%Z; userData := carol |})] ∧
    waiting_or_sent
      {| content := innerHTML keystroke; position := (64, 60)%Z;
         userData := userDataRef page1 |}
      (timers page).
Proof.
  eexists _, _. split; [vm_compute; reflexivity|]. split; [reflexivity|].
  split; [vm_compute; reflexivity|]. split; [reflexivity|].
  apply (last_edit_is_sent_last Z_at_most_zero 0 remote_edits _ keystroke
           64%Z 60%Z [Passes 250; Fires 1; Passes 150; Fires 2]);
    [reflexivity|done|reflexivity..].
Defined.

Lemma edits_before_open_are_lost_witness :
  ∃ page page',
    page_run Z_at_most_zero [Typing (Some keystroke); Passes 100]
      (initial_page 0) = Some page ∧
    page_run Z_at_most_zero [Opens; Passes 1000] page = Some page' ∧
    invoked (timers page')
    = [(0, Throttle Throws,
        {| content := "<p>abcd</p>"; position := (64, 60)%Z;
           userData := {| userId := None; userName := Some "";
                           userColor := Some "" |} |})] ∧
    never_sent (timers page').
Proof.
  eexists _, _. split; [vm_compute; reflexivity|].
  split; [vm_compute; reflexivity|]. split; [reflexivity|].
  eapply (edits_before_open_are_lost Z_at_most_zero 0
            [Typing (Some keystroke); Passes 100] _ [Opens; Passes 1000]);
    reflexivity.
Defined.
